(** * diffodil: the VCS text parser and the live session engine

    A shallow embedding of [src/diffodil/git.py] and [src/diffodil/server.py]
    together with the properties of the specification that concern them.

    Conventions of the embedding.
    - A Python [str] is a [string]; one character is one code point below
      256, so [\d] is exactly [0-9] and the white space and line boundary
      classes below are the Latin-1 part of Python's.
    - A Python [int] is a [Z]; [int(s)] refuses a literal of more than 4300
      digits, the limit that the interpreter starts with.
    - An exception is a value of [exn]; code that may raise returns a
      [result].
    - The version-control tool is a parameter: a function from the working
      directory and the argument vector to the exit status and the two
      output streams. *)

From Stdlib Require Import ZArith Ascii Lia Bool.
From Stdlib Require String.
From stdpp Require Import base strings list gmap pretty.

Local Open Scope Z_scope.

(** ** Exceptions *)

Inductive exn : Type :=
| ValueError (msg : string)
| TypeError (msg : string)
| IndexError (msg : string)
| RuntimeError (msg : string).

Inductive result (A : Type) : Type :=
| Ok (a : A)
| Raise (e : exn).
Arguments Ok {A} a.
Arguments Raise {A} e.

Definition rbind {A B} (r : result A) (k : A -> result B) : result B :=
  match r with
  | Ok a => k a
  | Raise e => Raise e
  end.

Notation "'try' x ':=' r 'in' k" := (rbind r (fun x => k))
  (at level 10, x pattern, r at level 100, k at level 200).

(** A [for] loop that appends one value per item and stops at the first
    exception. *)
Fixpoint for_each {A B} (f : A -> result B) (l : list A) : result (list B) :=
  match l with
  | [] => Ok []
  | x :: l' => try y := f x in try ys := for_each f l' in Ok (y :: ys)
  end.

(** ** Python's [str] methods *)

Module Str.

Definition code (c : ascii) : nat := nat_of_ascii c.

(** [str.isspace] on one character. *)
Definition isspace (c : ascii) : bool :=
  let n := code c in
  ((9 <=? n) && (n <=? 13) || (28 <=? n) && (n <=? 32)
   || (n =? 133) || (n =? 160))%nat.

(** The line boundaries of [str.splitlines]. *)
Definition islinebreak (c : ascii) : bool :=
  let n := code c in
  ((10 <=? n) && (n <=? 13) || (28 <=? n) && (n <=? 30) || (n =? 133))%nat.

Definition isdigit (c : ascii) : bool :=
  let n := code c in ((48 <=? n) && (n <=? 57))%nat.

Definition digit_value (c : ascii) : Z := Z.of_nat (code c) - 48.

Definition is_empty (s : string) : bool :=
  match s with EmptyString => true | String _ _ => false end.

(** Truthiness of a [str]. *)
Definition truthy (s : string) : bool := negb (is_empty s).

Definition startswith (s p : string) : bool := String.prefix p s.

(** [s[n:]] for [n >= 0]. *)
Fixpoint drop (n : nat) (s : string) : string :=
  match n, s with
  | O, _ => s
  | S _, EmptyString => EmptyString
  | S k, String _ s' => drop k s'
  end.

(** [s[:n]] for [n >= 0]. *)
Fixpoint take (n : nat) (s : string) : string :=
  match n, s with
  | O, _ => EmptyString
  | S _, EmptyString => EmptyString
  | S k, String c s' => String c (take k s')
  end.

(** [s[:-n]] for [n > 0]. *)
Definition drop_end (n : nat) (s : string) : string :=
  take (String.length s - n) s.

Definition endswith (s p : string) : bool :=
  (String.length p <=? String.length s)%nat
  && String.eqb (drop (String.length s - String.length p) s) p.

Definition removeprefix (s p : string) : string :=
  if startswith s p then drop (String.length p) s else s.

Fixpoint lstrip (s : string) : string :=
  match s with
  | EmptyString => EmptyString
  | String c s' => if isspace c then lstrip s' else s
  end.

Fixpoint rstrip (s : string) : string :=
  match s with
  | EmptyString => EmptyString
  | String c s' =>
      let r := rstrip s' in
      if isspace c && is_empty r then EmptyString else String c r
  end.

Definition strip (s : string) : string := rstrip (lstrip s).

(** [sub in s]. *)
Fixpoint contains (sub s : string) : bool :=
  startswith s sub
  || match s with
     | EmptyString => false
     | String _ s' => contains sub s'
     end.

(** [s.split(sep, 1)] when [sep] occurs in [s]: the text before the first
    occurrence and the text after it. *)
Fixpoint split_once (sep s : string) : option (string * string) :=
  if startswith s sep then Some (EmptyString, drop (String.length sep) s)
  else match s with
       | EmptyString => None
       | String c s' =>
           match split_once sep s' with
           | Some (a, b) => Some (String c a, b)
           | None => None
           end
       end.

(** [s.split(sep)]: [skip] counts the characters of a separator that was
    found and is still being stepped over. The first component is the
    field under construction, the second the fields after it. *)
Fixpoint split_from (sep : string) (skip : nat) (s : string)
  : string * list string :=
  match s with
  | EmptyString => (EmptyString, [])
  | String c s' =>
      match skip with
      | S k => split_from sep k s'
      | O =>
          if startswith s sep then
            let '(t, ts) := split_from sep (String.length sep - 1) s' in
            (EmptyString, t :: ts)
          else
            let '(t, ts) := split_from sep 0 s' in
            (String c t, ts)
      end
  end.

Definition split (sep s : string) : list string :=
  let '(t, ts) := split_from sep 0 s in t :: ts.

(** [s.split()]: the maximal runs of characters that are not white space. *)
Fixpoint split_ws (s : string) : list string :=
  match s with
  | EmptyString => []
  | String c s' =>
      if isspace c then split_ws s'
      else match s' with
           | EmptyString => [String c EmptyString]
           | String c' _ =>
               if isspace c' then String c EmptyString :: split_ws s'
               else match split_ws s' with
                    | t :: ts => String c t :: ts
                    | [] => [String c EmptyString]
                    end
           end
  end.

(** [s.split(None, 1)] on a stripped, non-empty [s]: the first field and,
    when white space follows it, the rest with its leading white space
    removed. *)
Fixpoint split_ws_once (s : string) : string * option string :=
  match s with
  | EmptyString => (EmptyString, None)
  | String c s' =>
      if isspace c then (EmptyString, Some (lstrip s'))
      else let '(t, r) := split_ws_once s' in (String c t, r)
  end.

(** [s.count(c)] for a one-character [c]. *)
Fixpoint count (c : ascii) (s : string) : Z :=
  match s with
  | EmptyString => 0
  | String d s' => (if Ascii.eqb c d then 1 else 0) + count c s'
  end.

(** [s.splitlines()]. *)
Fixpoint splitlines (s : string) : list string :=
  match s with
  | EmptyString => []
  | String c s' =>
      if islinebreak c then
        match c, s' with
        | "013"%char, String "010"%char s'' => EmptyString :: splitlines s''
        | _, _ => EmptyString :: splitlines s'
        end
      else match splitlines s' with
           | [] => [String c EmptyString]
           | l :: ls => String c l :: ls
           end
  end.

(** *** [repr(s)] for a [str] *)

(** The hexadecimal digit of a number below 16, in lower case. *)
Definition hex_digit (n : nat) : ascii :=
  ascii_of_nat (if (n <? 10)%nat then 48 + n else 87 + n).

(** The characters that [str.isprintable] accepts. *)
Definition isprintable (c : ascii) : bool :=
  let n := code c in
  ((32 <=? n) && (n <=? 126) || (161 <=? n) && negb (n =? 173))%nat.

(** One character inside the quotes: the quote and the backslash (92) get a
    backslash in front, tab, newline and return are written with their
    letter, and what is not printable as [\xhh]. *)
Definition repr_char (quote c : ascii) : string :=
  let n := code c in
  let escaped (d : ascii) := String "092"%char (String d EmptyString) in
  if Ascii.eqb c quote || (n =? 92)%nat then escaped c
  else if (n =? 9)%nat then escaped "t"%char
  else if (n =? 10)%nat then escaped "n"%char
  else if (n =? 13)%nat then escaped "r"%char
  else if isprintable c then String c EmptyString
  else
    String "092"%char
      (String "x"%char
         (String (hex_digit (n / 16))
            (String (hex_digit (n mod 16)) EmptyString))).

Fixpoint has_char (c : ascii) (s : string) : bool :=
  match s with
  | EmptyString => false
  | String d s' => Ascii.eqb c d || has_char c s'
  end.

Fixpoint repr_chars (quote : ascii) (s : string) : string :=
  match s with
  | EmptyString => String quote EmptyString
  | String c s' => repr_char quote c +:+ repr_chars quote s'
  end.

(** [repr(s)]: in single quotes, or in double quotes when [s] has a single
    quote and no double quote. *)
Definition repr (s : string) : string :=
  let quote : ascii :=
    if has_char "039"%char s && negb (has_char "034"%char s)
    then "034"%char else "039"%char in
  String quote (repr_chars quote s).

(** *** [int(s)] for a [str]

    The white space that [int] skips at the two ends of its argument: that
    of the C locale and, above 127, the characters that are white space.
    The separators 28 to 31, white space for [str.strip], are not skipped. *)
Definition isspace_int (c : ascii) : bool :=
  let n := code c in
  ((9 <=? n) && (n <=? 13) || (n =? 32) || (n =? 133) || (n =? 160))%nat.

Fixpoint lstrip_int (s : string) : string :=
  match s with
  | EmptyString => EmptyString
  | String c s' => if isspace_int c then lstrip_int s' else s
  end.

Fixpoint rstrip_int (s : string) : string :=
  match s with
  | EmptyString => EmptyString
  | String c s' =>
      let r := rstrip_int s' in
      if isspace_int c && is_empty r then EmptyString else String c r
  end.

(** The sign in front: whether it is [-], and the text after it. *)
Definition int_sign (t : string) : bool * string :=
  match t with
  | String "+"%char r => (false, r)
  | String "-"%char r => (true, r)
  | r => (false, r)
  end.

(** The scan of the text after the sign: decimal digits, a single underscore
    allowed between two digits. It gives the number of digits, underscores
    not counted, or [None] when the text is not a literal. *)
Fixpoint int_scan (s : string) (digits : nat) (after_digit : bool) : option nat :=
  match s with
  | EmptyString => if after_digit then Some digits else None
  | String c s' =>
      if isdigit c then int_scan s' (S digits) true
      else if Ascii.eqb c "_"%char && after_digit then int_scan s' digits false
      else None
  end.

(** The value of a literal that passed the scan. *)
Fixpoint int_value (s : string) (acc : Z) : Z :=
  match s with
  | EmptyString => acc
  | String c s' =>
      if isdigit c then int_value s' (10 * acc + digit_value c)
      else int_value s' acc
  end.

(** [sys.get_int_max_str_digits()], as the interpreter starts. *)
Definition int_max_str_digits : nat := 4300.

(** The [ValueError] for a literal of more digits than that. *)
Definition digit_limit_error (digits : nat) : exn :=
  ValueError ("Exceeds the limit (4300 digits) for integer string conversion: value has "
              +:+ pretty digits
              +:+ " digits; use sys.set_int_max_str_digits() to increase the limit").

(** [int(s)]. The literal is checked first and its digits are counted; a
    literal of more than 4300 digits is refused, leading zeros counted. *)
Definition int (s : string) : result Z :=
  let '(negative, r) := int_sign (rstrip_int (lstrip_int s)) in
  match int_scan r 0 false with
  | None =>
      Raise (ValueError ("invalid literal for int() with base 10: " +:+ repr s))
  | Some digits =>
      if (int_max_str_digits <? digits)%nat then Raise (digit_limit_error digits)
      else Ok (if negative then - int_value r 0 else int_value r 0)
  end.

End Str.


(** ** The regular expressions of [re] that the program uses *)

Module Re.

Inductive regex : Type :=
| Lit (s : string)             (* literal text *)
| Plus (p : ascii -> bool)     (* one or more characters of a class, greedy *)
| Opt (r : regex)              (* [(?:r)?], greedy *)
| Seq (r1 r2 : regex)
| Group (n : nat) (r : regex). (* capturing group number [n] *)

(** The groups that took part in the match. *)
Definition groups : Type := list (nat * string).

Fixpoint group (m : groups) (n : nat) : option string :=
  match m with
  | [] => None
  | (k, s) :: m' => if (k =? n)%nat then Some s else group m' n
  end.

Section Exec.
Context {R : Type}.

(** [p+] by backtracking: the longest run first, then shorter ones. *)
Fixpoint exec_plus (p : ascii -> bool) (s : string)
    (k : string -> option R) : option R :=
  match s with
  | EmptyString => None
  | String c s' =>
      if p c then
        match exec_plus p s' k with
        | Some r => Some r
        | None => k s'
        end
      else None
  end.

(** Backtracking matcher in continuation-passing style: [k] receives the
    rest of the subject and the groups captured so far. *)
Fixpoint exec (r : regex) (s : string) (m : groups)
    (k : string -> groups -> option R) : option R :=
  match r with
  | Lit l =>
      if Str.startswith s l then k (Str.drop (String.length l) s) m
      else None
  | Plus p => exec_plus p s (fun s' => k s' m)
  | Opt r' =>
      match exec r' s m k with
      | Some x => Some x
      | None => k s m
      end
  | Seq r1 r2 => exec r1 s m (fun s' m' => exec r2 s' m' k)
  | Group n r' =>
      exec r' s m (fun s' m' =>
        k s' ((n, Str.take (String.length s - String.length s') s) :: m'))
  end.
End Exec.

(** [re.match(r, s)]: a match anchored at the start of [s] only. *)
Definition match_ (r : regex) (s : string) : option groups :=
  exec r s [] (fun _ m => Some m).

End Re.

(** ** git.py *)

Inductive GitFileChangeType : Type := ADDED | DELETED | MODIFIED | RENAMED | COPIED.

Inductive GitDiffAlgorithm : Type := MYERS | MINIMAL | PATIENCE | HISTOGRAM.

(** The value of the [StrEnum] member, as an f-string prints it. *)
Definition diff_algo_str (a : GitDiffAlgorithm) : string :=
  match a with
  | MYERS => "myers"
  | MINIMAL => "minimal"
  | PATIENCE => "patience"
  | HISTOGRAM => "histogram"
  end.

Record GitFlags : Type := mkGitFlags {
  max_count : Z;
  context_lines : Z;
  diff_algo : GitDiffAlgorithm;
  ignore_all_space : bool
}.

Definition default_flags : GitFlags :=
  {| max_count := 25; context_lines := 3; diff_algo := MYERS;
     ignore_all_space := false |}.

Record GitBranch : Type := mkGitBranch {
  name : string;
  is_current : bool;
  is_remote : bool;
  remote : option string;
  points_to : option string
}.

Record GitTag : Type := mkGitTag {
  tag_name : string;
  message : option string
}.

Record DiffHunk : Type := mkDiffHunk {
  header : string;
  old_start : Z;
  old_count : Z;
  new_start : Z;
  new_count : Z;
  content : list string;
  added_lines : Z;
  removed_lines : Z
}.

Record DiffFile : Type := mkDiffFile {
  file_path : string;
  change_type : string;
  hunks : list DiffHunk
}.

Record GitDiff : Type := mkGitDiff {
  from_commit : string;
  to_commit : string;
  files : list DiffFile
}.

Record FileChange : Type := mkFileChange {
  path : string;
  fc_change_type : GitFileChangeType;
  old_path : option string;
  mode_change : option (string * string);
  is_binary : bool;
  additions : option Z;
  deletions : option Z;
  changes : option Z
}.

Record GitDiffSummary : Type := mkGitDiffSummary {
  commit_a : string;
  commit_b : string;
  summary_files : list FileChange;
  total_files_changed : Z;
  total_additions : Z;
  total_deletions : Z
}.

(** *** Branch and tag listings *)

(** [parts[1]] of [s.split("/")]. *)
Definition second_segment (s : string) : result string :=
  match Str.split "/" s with
  | _ :: x :: _ => Ok x
  | _ => Raise (IndexError "list index out of range")
  end.

(** The body of the loop of [parse_git_branches]. *)
Definition parse_branch_line (line : string) : result GitBranch :=
  let line := Str.strip line in
  let is_current := Str.startswith line "*" in
  let line := if is_current then Str.strip (Str.drop 2 line) else line in
  if Str.contains "->" line then
    match Str.split_once "->" line with
    | Some (name_part, target) =>
        let name_part := Str.strip name_part in
        let target := Str.strip target in
        let is_remote := Str.startswith name_part "remotes/" in
        try remote :=
          (if is_remote then try r := second_segment name_part in Ok (Some r)
           else Ok None) in
        let name := Str.removeprefix name_part "remotes/" in
        Ok (mkGitBranch name is_current is_remote remote (Some target))
    | None => Raise (ValueError "not enough values to unpack") (* not reached *)
    end
  else
    let is_remote := Str.startswith line "remotes/" in
    try remote :=
      (if is_remote then try r := second_segment line in Ok (Some r)
       else Ok None) in
    let name := Str.removeprefix line "remotes/" in
    Ok (mkGitBranch name is_current is_remote remote None).

Definition parse_git_branches (output : string) : result (list GitBranch) :=
  for_each parse_branch_line (Str.splitlines (Str.strip output)).

Fixpoint parse_git_tags_lines (lines : list string) : list GitTag :=
  match lines with
  | [] => []
  | line :: rest =>
      if Str.is_empty (Str.strip line) then parse_git_tags_lines rest
      else
        let '(name, message) := Str.split_ws_once (Str.strip line) in
        mkGitTag name message :: parse_git_tags_lines rest
  end.

Definition parse_git_tags (output : string) : list GitTag :=
  parse_git_tags_lines (Str.splitlines (Str.strip output)).

(** *** Hunk headers *)

(** [r"@@ -(\d+)(?:,(\d+))? \+(\d+)(?:,(\d+))?"] *)
Definition hunk_header_re : Re.regex :=
  Re.Seq (Re.Lit "@@ -")
 (Re.Seq (Re.Group 1 (Re.Plus Str.isdigit))
 (Re.Seq (Re.Opt (Re.Seq (Re.Lit ",") (Re.Group 2 (Re.Plus Str.isdigit))))
 (Re.Seq (Re.Lit " +")
 (Re.Seq (Re.Group 3 (Re.Plus Str.isdigit))
         (Re.Opt (Re.Seq (Re.Lit ",") (Re.Group 4 (Re.Plus Str.isdigit)))))))).

(** [int(x)] where [x] is a [str] or absent. *)
Definition int_of (what : string) (x : option string) : result Z :=
  match x with
  | Some s => Str.int s
  | None => Raise (TypeError ("int() of None: " +:+ what))
  end.

(** [int(g or 1)]: an absent or empty group gives 1. *)
Definition int_or_1 (g : option string) : result Z :=
  match g with
  | Some s => if Str.truthy s then int_of "group" (Some s) else Ok 1
  | None => Ok 1
  end.

Definition parse_hunk_header (header : string) : result (Z * Z * Z * Z) :=
  match Re.match_ hunk_header_re header with
  | Some m =>
      try old_start := int_of "group 1" (Re.group m 1) in
      try old_count := int_or_1 (Re.group m 2) in
      try new_start := int_of "group 3" (Re.group m 3) in
      try new_count := int_or_1 (Re.group m 4) in
      Ok (old_start, old_count, new_start, new_count)
  | None => Raise (ValueError ("Invalid hunk header: " +:+ header))
  end.


(** *** The unified diff parse

    [get_git_diff] and [get_commit_diff] run the same loop over the lines of
    the tool's output; [DiffParse] is the loop's variables. *)

Record DiffParse : Type := mkDiffParse {
  dp_files : list DiffFile;
  current_file : option DiffFile;
  current_hunk : option DiffHunk
}.

Definition diff_parse_init : DiffParse :=
  {| dp_files := []; current_file := None; current_hunk := None |}.

(** [if current_hunk and current_file: current_file.hunks.append(current_hunk)] *)
Definition append_hunk (st : DiffParse) : option DiffFile :=
  match current_hunk st, current_file st with
  | Some h, Some f => Some (mkDiffFile (file_path f) (change_type f) (hunks f ++ [h]))
  | _, _ => current_file st
  end.

(** [if current_file: files.append(current_file)] *)
Definition append_file (fs : list DiffFile) (f : option DiffFile) : list DiffFile :=
  match f with
  | Some f => fs ++ [f]
  | None => fs
  end.

Definition set_change_type (t : string) (f : DiffFile) : DiffFile :=
  mkDiffFile (file_path f) t (hunks f).

Definition set_file_path (p : string) (f : DiffFile) : DiffFile :=
  mkDiffFile p (change_type f) (hunks f).

(** The [else] branch of the loop: a content line of the open hunk. *)
Definition add_content (line : string) (h : DiffHunk) : DiffHunk :=
  let h' added removed :=
    mkDiffHunk (header h) (old_start h) (old_count h) (new_start h)
      (new_count h) (content h ++ [line]) added removed in
  if Str.startswith line "+" && negb (Str.startswith line "+++") then
    h' (added_lines h + 1) (removed_lines h)
  else if Str.startswith line "-" && negb (Str.startswith line "---") then
    h' (added_lines h) (removed_lines h + 1)
  else h' (added_lines h) (removed_lines h).

(** One iteration of the loop. *)
Definition diff_step (st : DiffParse) (line : string) : result DiffParse :=
  if Str.startswith line "diff --git" then
    let f := append_hunk st in
    Ok {| dp_files := append_file (dp_files st) f;
          current_file := Some (mkDiffFile "" "modified" []);
          current_hunk := None |}
  else if Str.startswith line "new file mode" then
    Ok {| dp_files := dp_files st;
          current_file := set_change_type "added" <$> current_file st;
          current_hunk := current_hunk st |}
  else if Str.startswith line "deleted file mode" then
    Ok {| dp_files := dp_files st;
          current_file := set_change_type "deleted" <$> current_file st;
          current_hunk := current_hunk st |}
  else if Str.startswith line "--- " || Str.startswith line "+++ " then
    match current_file st with
    | Some f =>
        if negb (Str.truthy (file_path f)) then
          if Str.startswith line "+++ b/" then
            Ok {| dp_files := dp_files st;
                  current_file := Some (set_file_path (Str.drop 6 line) f);
                  current_hunk := current_hunk st |}
          else if Str.startswith line "--- a/" then
            Ok {| dp_files := dp_files st;
                  current_file := Some (set_file_path (Str.drop 6 line) f);
                  current_hunk := current_hunk st |}
          else Ok st
        else Ok st
    | None => Ok st
    end
  else if Str.startswith line "@@" then
    let f := append_hunk st in
    try (old_start, old_count, new_start, new_count) :=
      parse_hunk_header (Str.strip line) in
    Ok {| dp_files := dp_files st;
          current_file := f;
          current_hunk :=
            Some (mkDiffHunk (Str.strip line) old_start old_count
                    new_start new_count [] 0 0) |}
  else
    match current_hunk st with
    | Some h =>
        Ok {| dp_files := dp_files st;
              current_file := current_file st;
              current_hunk := Some (add_content line h) |}
    | None => Ok st
    end.

Fixpoint diff_loop (st : DiffParse) (lines : list string) : result DiffParse :=
  match lines with
  | [] => Ok st
  | line :: rest => try st' := diff_step st line in diff_loop st' rest
  end.

(** The two statements after the loop. *)
Definition diff_finish (st : DiffParse) : list DiffFile :=
  append_file (dp_files st) (append_hunk st).

(** From [files = []] to the value of [files] at the [return]. *)
Definition parse_diff (stdout : string) : result (list DiffFile) :=
  try st := diff_loop diff_parse_init (Str.splitlines stdout) in
  Ok (diff_finish st).


(** *** The compact summary *)

(** The [try] block of [parse_compact_summary_line]: the three counts, left
    unset when [int(parts[0])] raises, which is always with a [ValueError]. *)
Definition summary_counts (changes_part : string)
  : option Z * option Z * option Z :=
  match Str.split_ws changes_part with
  | part0 :: _ =>
      match Str.int part0 with
      | Ok total_changes =>
          (Some (Str.count "+" changes_part),
           Some (Str.count "-" changes_part),
           Some total_changes)
      | Raise _ => (None, None, None)
      end
  | [] => (None, None, None)
  end.

(** The [if]/[elif] chain on the file part: path, change type and prior
    path. *)
Definition file_part_fields (file_part : string)
  : string * GitFileChangeType * option string :=
  if Str.contains " => " file_part then
    match Str.split_once " => " file_part with
    | Some (old_path, new_path) =>
        (Str.strip new_path, RENAMED, Some (Str.strip old_path))
    | None => (EmptyString, MODIFIED, None) (* not reached: [ => ] occurs *)
    end
  else if Str.endswith file_part " (new)" then
    (Str.strip (Str.drop_end 6 file_part), ADDED, None)
  else if Str.endswith file_part " (gone)" then
    (Str.strip (Str.drop_end 7 file_part), DELETED, None)
  else (file_part, MODIFIED, None).

Definition parse_compact_summary_line (line : string) : option FileChange :=
  let line := Str.strip line in
  if negb (Str.truthy line) then None
  else if negb (Str.contains "|" line) then None
  else
    match Str.split_once "|" line with
    | None => None (* not reached: [|] occurs *)
    | Some (file_part, changes_part) =>
        let file_part := Str.strip file_part in
        let changes_part := Str.strip changes_part in
        let '(path, change_type, old_path) := file_part_fields file_part in
        if Str.startswith changes_part "Bin" then
          Some (mkFileChange path change_type old_path None true None None None)
        else
          let '(additions, deletions, changes) := summary_counts changes_part in
          Some (mkFileChange path change_type old_path None false
                  additions deletions changes)
    end.

(** [total += n] under [if n:]. *)
Definition add_if_truthy (total : Z) (n : option Z) : Z :=
  match n with
  | Some k => if k =? 0 then total else total + k
  | None => total
  end.

(** The loop of [git_diff_compact_summary] over the lines of the output:
    the entries and the two running totals. *)
Fixpoint summary_loop (lines : list string) (acc : list FileChange * Z * Z)
  : list FileChange * Z * Z :=
  match lines with
  | [] => acc
  | line :: rest =>
      let '(fs, total_additions, total_deletions) := acc in
      match parse_compact_summary_line line with
      | Some file_change =>
          summary_loop rest
            (fs ++ [file_change],
             add_if_truthy total_additions (additions file_change),
             add_if_truthy total_deletions (deletions file_change))
      | None => summary_loop rest acc
      end
  end.

(** *** Calls of the version-control tool *)

Record Completed : Type := mkCompleted {
  returncode : Z;
  stdout : string;
  stderr : string
}.

Record Commit (datetime : Type) : Type := mkCommit {
  short_hash : string;
  summary : string;
  body : string;
  author : string;
  date : datetime
}.
Arguments mkCommit {datetime}.

Definition SEP1 : string := "<<<><<>>>".
Definition SEP2 : string := "><><><<>>".

Section Gateway.

(** The subprocess: working directory and argument vector to its outcome. *)
Variable run : string -> list string -> Completed.

(** [datetime.fromisoformat] of the standard library. *)
Variable datetime : Type.
Variable fromisoformat : string -> result datetime.

(** Run the tool and fail on a non-zero exit status. *)
Definition communicate (what : string) (cmd : list string) (repo : string)
  : result string :=
  let proc := run repo cmd in
  if negb (returncode proc =? 0) then
    Raise (RuntimeError (what +:+ " failed: " +:+ stderr proc))
  else Ok (stdout proc).

Definition get_list_of_branches (repo : string) : result (list GitBranch) :=
  try out := communicate "Git branch"
               ["git"; "branch"; "--list"; "--all"; "--no-color"] repo in
  parse_git_branches out.

Fixpoint first_current (branches : list GitBranch) : option GitBranch :=
  match branches with
  | [] => None
  | b :: rest => if is_current b then Some b else first_current rest
  end.

Definition get_current_branch (repo : string) : result GitBranch :=
  try branches := get_list_of_branches repo in
  match first_current branches with
  | Some b => Ok b
  | None =>
      Raise (RuntimeError ("failed to get current branch for repo " +:+ repo))
  end.

Definition get_list_of_tags (repo : string) : result (list GitTag) :=
  try out := communicate "Git log" ["git"; "tag"; "--list"; "--no-color"] repo in
  Ok (parse_git_tags out).

(** One record of the log; records that are empty are skipped. *)
Definition parse_log_record (record : string) : result (Commit datetime) :=
  match Str.split SEP2 record with
  | [short_hash; author; date; summary; body] =>
      try d := fromisoformat (Str.strip date) in
      Ok (mkCommit (Str.strip short_hash) (Str.strip summary)
            (Str.strip body) (Str.strip author) d)
  | _ => Raise (ValueError "wrong number of values to unpack")
  end.

Definition get_git_log (repo : string) (branch : option string) (max_count : Z)
  : result (list (Commit datetime)) :=
  let format_str :=
    SEP1 +:+ "%h" +:+ SEP2 +:+ "%an" +:+ SEP2 +:+ "%ad" +:+ SEP2 +:+ "%s"
         +:+ SEP2 +:+ "%b" in
  let cmd := ["git"; "log"; "--max-count=" +:+ pretty max_count;
              "--pretty=format:" +:+ format_str; "--date=iso"] in
  let cmd :=
    match branch with
    | Some b => if Str.truthy b then cmd ++ [b] else cmd
    | None => cmd
    end in
  try out := communicate "Git log" cmd repo in
  for_each parse_log_record
    (filter (fun r => Str.truthy r = true) (Str.split SEP1 (Str.strip out))).

(** [if paths: cmd.append("--"); cmd.extend(paths)] *)
Definition path_args (paths : option (list string)) : list string :=
  match paths with
  | Some (p :: ps) => "--" :: p :: ps
  | _ => []
  end.

Definition get_git_diff (repo commit_a commit_b : string) (flags : GitFlags)
    (paths : option (list string)) : result GitDiff :=
  let cmd := ["git"; "diff"; "--patch"; "--no-color"; "--find-renames";
              "--find-copies";
              "--unified=" +:+ pretty (context_lines flags);
              "--diff-algorithm=" +:+ diff_algo_str (diff_algo flags)] in
  let cmd := if ignore_all_space flags then cmd ++ ["--ignore-all-space"] else cmd in
  let cmd := cmd ++ [commit_a; commit_b] in
  let cmd := cmd ++ path_args paths in
  try out := communicate "Git diff" cmd repo in
  try files := parse_diff out in
  Ok (mkGitDiff commit_a commit_b files).

Definition get_commit_diff (repo commit : string) (flags : GitFlags)
    (paths : option (list string)) : result GitDiff :=
  let cmd := ["git"; "show"; "--patch"; "--no-color"; "--find-renames";
              "--find-copies";
              "--unified=" +:+ pretty (context_lines flags);
              "--diff-algorithm=" +:+ diff_algo_str (diff_algo flags);
              "--pretty=format:"] in
  let cmd := if ignore_all_space flags then cmd ++ ["--ignore-all-space"] else cmd in
  let cmd := cmd ++ path_args paths in
  try out := communicate "Git show" cmd repo in
  try files := parse_diff out in
  Ok (mkGitDiff commit commit files).

Definition git_diff_compact_summary (repo commit_a : string)
    (commit_b : option string) : result GitDiffSummary :=
  let '(commit_a, commit_b) :=
    match commit_b with
    | Some b => if Str.truthy b then (commit_a, b)
                else (commit_a +:+ "^", commit_a)
    | None => (commit_a +:+ "^", commit_a)
    end in
  let cmd := ["git"; "diff"; "--compact-summary"; commit_a; commit_b] in
  try out := communicate "Git diff --compact-summary" cmd repo in
  let lines := Str.split (String "010" EmptyString) out in
  let '(fs, total_additions, total_deletions) := summary_loop lines ([], 0, 0) in
  Ok (mkGitDiffSummary commit_a commit_b fs (Z.of_nat (length fs))
        total_additions total_deletions).

End Gateway.


(** ** server.py *)

Record SessionState : Type := mkSessionState {
  repo : option string;
  branch : option string;
  st_commit_a : option string;
  st_commit_b : option string;
  open_paths : list string;
  git_flags : GitFlags
}.

(** [SessionState()] *)
Definition session_state_init : SessionState :=
  {| repo := None; branch := None; st_commit_a := None; st_commit_b := None;
     open_paths := []; git_flags := default_flags |}.

(** Truthiness of a [str | None]. *)
Definition truthy_opt (x : option string) : bool :=
  match x with
  | Some s => Str.truthy s
  | None => false
  end.

(** The message dataclasses; [MsgClient] and [MsgServer] are unions of them.
    [MsgSessionState] holds a reference to the live session state, not a copy
    of it, so it carries no value here. *)
Inductive Msg (datetime : Type) : Type :=
| MsgBranches (branches : list GitBranch)
| MsgTags (tags : list GitTag)
| MsgCommits (commits : list (Commit datetime))
| MsgRepos (repos : list string)
| MsgRepoSelect (repo : string)
| MsgBranchSelect (branch : string)
| MsgPing
| MsgPong
| MsgHeartbeat (timestamp : Z)
| MsgGetDiff (paths : option (list string))
| MsgOpenPath (path : string)
| MsgClosePath (path : string)
| MsgSetOpenPaths (paths : list string)
| MsgSetCommitA (commit : string)
| MsgResetCommitA
| MsgSetCommitB (commit : string)
| MsgSwapCommits
| MsgResetCommitB
| MsgDiff (diff : GitDiff) (partial : bool)
| MsgDiffSummary (summary : GitDiffSummary)
| MsgSessionState
| MsgContextInc
| MsgSetIgnoreAllSpace (value : bool)
| MsgContextDec
| MsgContextReset.
Arguments MsgBranches {datetime}.
Arguments MsgTags {datetime}.
Arguments MsgCommits {datetime}.
Arguments MsgRepos {datetime}.
Arguments MsgRepoSelect {datetime}.
Arguments MsgBranchSelect {datetime}.
Arguments MsgPing {datetime}.
Arguments MsgPong {datetime}.
Arguments MsgHeartbeat {datetime}.
Arguments MsgGetDiff {datetime}.
Arguments MsgOpenPath {datetime}.
Arguments MsgClosePath {datetime}.
Arguments MsgSetOpenPaths {datetime}.
Arguments MsgSetCommitA {datetime}.
Arguments MsgResetCommitA {datetime}.
Arguments MsgSetCommitB {datetime}.
Arguments MsgSwapCommits {datetime}.
Arguments MsgResetCommitB {datetime}.
Arguments MsgDiff {datetime}.
Arguments MsgDiffSummary {datetime}.
Arguments MsgSessionState {datetime}.
Arguments MsgContextInc {datetime}.
Arguments MsgSetIgnoreAllSpace {datetime}.
Arguments MsgContextDec {datetime}.
Arguments MsgContextReset {datetime}.

(** What the closures of [websocket_endpoint] share: the session state, the
    send queue (oldest message first) and the change event. *)
Record Session (datetime : Type) : Type := mkSession {
  state : SessionState;
  q_tx : list (Msg datetime);
  ev_state_change : bool
}.
Arguments mkSession {datetime}.
Arguments state {datetime}.
Arguments q_tx {datetime}.
Arguments ev_state_change {datetime}.

(** [list.remove]: the first occurrence only. *)
Fixpoint remove_first (x : string) (l : list string) : list string :=
  match l with
  | [] => []
  | y :: l' => if String.eqb x y then l' else y :: remove_first x l'
  end.

(** [x in l] *)
Definition mem (x : string) (l : list string) : bool :=
  existsb (String.eqb x) l.

(** *** Repository discovery (git.py)

    [find_git_repos] walks the directory tree below the root with [os.walk]
    of the standard library. [Dir] is the tree that the walk finds:
    [subdirs] are the directories proper with what is below them, in the
    order of the scan, and [links] the names of the entries that are
    symbolic links to directories, which the walk lists among the directory
    names but does not enter. Files are left out, the function never looks
    at them; a directory that cannot be read is one without entries. *)
Inductive Dir : Type :=
| mkDir (subdirs : list (string * Dir)) (links : list string).

(** The [dirnames] that [os.walk] yields for a directory. *)
Definition dirnames (d : Dir) : list string :=
  match d with
  | mkDir subdirs links => map fst subdirs ++ links
  end.

(** [os.path.join(a, b)] on POSIX. *)
Definition path_join (a b : string) : string :=
  if Str.startswith b "/" then b
  else if Str.is_empty a || Str.endswith a "/" then a +:+ b
  else a +:+ "/" +:+ b.

(** The loop over [os.walk(dirpath)]: a directory with a [.git] among its
    directory names is recorded and, its [dirnames] cleared, not entered. *)
Fixpoint walk_repos (dirpath : string) (d : Dir) : list string :=
  match d with
  | mkDir subdirs links =>
      if mem ".git" (map fst subdirs ++ links) then [dirpath]
      else
        (fix below (l : list (string * Dir)) : list string :=
           match l with
           | [] => []
           | (dirname, sub) :: rest =>
               walk_repos (path_join dirpath dirname) sub ++ below rest
           end) subdirs
  end.

Definition find_git_repos (root : string) (tree : Dir) : list string :=
  walk_repos root tree.

Definition set_context_lines (n : Z) (f : GitFlags) : GitFlags :=
  mkGitFlags (max_count f) n (diff_algo f) (ignore_all_space f).

Definition set_ignore_all_space (v : bool) (f : GitFlags) : GitFlags :=
  mkGitFlags (max_count f) (context_lines f) (diff_algo f) v.

Definition with_repo (v : option string) (s : SessionState) : SessionState :=
  mkSessionState v (branch s) (st_commit_a s) (st_commit_b s) (open_paths s) (git_flags s).
Definition with_branch (v : option string) (s : SessionState) : SessionState :=
  mkSessionState (repo s) v (st_commit_a s) (st_commit_b s) (open_paths s) (git_flags s).
Definition with_commit_a (v : option string) (s : SessionState) : SessionState :=
  mkSessionState (repo s) (branch s) v (st_commit_b s) (open_paths s) (git_flags s).
Definition with_commit_b (v : option string) (s : SessionState) : SessionState :=
  mkSessionState (repo s) (branch s) (st_commit_a s) v (open_paths s) (git_flags s).
Definition with_open_paths (v : list string) (s : SessionState) : SessionState :=
  mkSessionState (repo s) (branch s) (st_commit_a s) (st_commit_b s) v (git_flags s).
Definition with_git_flags (v : GitFlags) (s : SessionState) : SessionState :=
  mkSessionState (repo s) (branch s) (st_commit_a s) (st_commit_b s) (open_paths s) v.

Definition opt_eqb (x y : option string) : bool :=
  match x, y with
  | Some a, Some b => String.eqb a b
  | None, None => true
  | _, _ => false
  end.

Section Engine.

Variable run : string -> list string -> Completed.
Variable datetime : Type.
Variable fromisoformat : string -> result datetime.

(** A coroutine of the connection: it reads and writes the shared session
    and returns or raises. What it wrote before raising stays written. *)
Definition M (A : Type) : Type :=
  Session datetime -> Session datetime * result A.

Definition ret {A} (a : A) : M A := fun s => (s, Ok a).

Definition bind {A B} (m : M A) (k : A -> M B) : M B :=
  fun s =>
    match m s with
    | (s', Ok a) => k a s'
    | (s', Raise e) => (s', Raise e)
    end.

Notation "'await' x ':=' m 'in' k" := (bind m (fun x => k))
  (at level 10, x pattern, m at level 100, k at level 200).
Notation "m ';;' k" := (bind m (fun _ => k))
  (at level 100, k at level 200, right associativity).

(** A call that may raise and touches nothing of the session. *)
Definition lift {A} (r : result A) : M A := fun s => (s, r).

(** [await q_tx.put(msg)] *)
Definition put (msg : Msg datetime) : M unit :=
  fun s => (mkSession (state s) (q_tx s ++ [msg]) (ev_state_change s), Ok tt).

(** [ev_state_change.set()] and [ev_state_change.clear()] *)
Definition ev_set : M unit :=
  fun s => (mkSession (state s) (q_tx s) true, Ok tt).
Definition ev_clear : M unit :=
  fun s => (mkSession (state s) (q_tx s) false, Ok tt).

Definition get_state : M SessionState := fun s => (s, Ok (state s)).

Definition update (f : SessionState -> SessionState) : M unit :=
  fun s => (mkSession (f (state s)) (q_tx s) (ev_state_change s), Ok tt).

Definition send_repo_data (repo : string) (branch : option string) : M unit :=
  await branches := lift (get_list_of_branches run repo) in
  await tags := lift (get_list_of_tags run repo) in
  await commits := lift (get_git_log run datetime fromisoformat repo branch 25) in
  put (MsgBranches branches) ;;
  put (MsgTags (take 50 tags)) ;;
  put (MsgCommits commits) ;;
  put MsgSessionState.

(** The value of a [str | None] that a guard has found truthy. *)
Definition the (x : option string) : string := default EmptyString x.

Definition send_diff_summary (state : SessionState) : M unit :=
  if truthy_opt (repo state) && truthy_opt (st_commit_a state)
     && truthy_opt (st_commit_b state) then
    await diff := lift (git_diff_compact_summary run (the (repo state))
                          (the (st_commit_a state)) (st_commit_b state)) in
    put (MsgDiffSummary diff)
  else if truthy_opt (repo state) && truthy_opt (st_commit_a state) then
    await diff := lift (git_diff_compact_summary run (the (repo state))
                          (the (st_commit_a state)) None) in
    put (MsgDiffSummary diff)
  else ret tt.

Definition send_diff (paths : option (list string)) (state : SessionState)
  : M unit :=
  if truthy_opt (repo state) && truthy_opt (st_commit_a state)
     && truthy_opt (st_commit_b state) then
    await diff := lift (get_git_diff run (the (repo state))
                          (the (st_commit_a state)) (the (st_commit_b state))
                          (git_flags state) paths) in
    put (MsgDiff diff (bool_decide (paths <> None)))
  else if truthy_opt (repo state) && truthy_opt (st_commit_a state) then
    await diff := lift (get_commit_diff run (the (repo state))
                          (the (st_commit_a state)) (git_flags state) paths) in
    put (MsgDiff diff (bool_decide (paths <> None)))
  else ret tt.

Definition handle_client_msg (msg : Msg datetime) : M unit :=
  match msg with
  | MsgHeartbeat _ => ret tt
  | MsgSetCommitA commit =>
      update (with_commit_a (Some commit)) ;; ev_set
  | MsgResetCommitA =>
      update (with_commit_a None) ;; ev_set
  | MsgSetCommitB commit =>
      update (with_commit_b (Some commit)) ;; ev_set
  | MsgResetCommitB =>
      update (with_commit_b None) ;; ev_set
  | MsgSwapCommits =>
      update (fun s => with_commit_b (st_commit_a s)
                         (with_commit_a (st_commit_b s) s)) ;;
      ev_set
  | MsgContextInc =>
      update (fun s => with_git_flags
                (set_context_lines (context_lines (git_flags s) + 1)
                   (git_flags s)) s) ;;
      ev_set
  | MsgContextDec =>
      await s := get_state in
      if 0 <? context_lines (git_flags s) then
        update (fun s => with_git_flags
                  (set_context_lines (context_lines (git_flags s) - 1)
                     (git_flags s)) s) ;;
        ev_set
      else ret tt
  | MsgContextReset =>
      await s := get_state in
      if negb (context_lines (git_flags s) =? 3) then
        update (fun s => with_git_flags
                  (set_context_lines 3 (git_flags s)) s) ;;
        ev_set
      else ret tt
  | MsgSetIgnoreAllSpace value =>
      update (fun s => with_git_flags
                (set_ignore_all_space value (git_flags s)) s) ;;
      ev_set
  | MsgGetDiff paths =>
      await s := get_state in
      send_diff paths s
  | MsgRepoSelect r =>
      await s := get_state in
      if negb (opt_eqb (repo s) (Some r)) then
        update (with_commit_a None) ;;
        update (with_commit_b None) ;;
        update (with_repo (Some r)) ;;
        await b := lift (get_current_branch run r) in
        update (with_branch (Some (name b))) ;;
        send_repo_data r None ;;
        ev_set
      else ret tt
  | MsgBranchSelect b =>
      await s := get_state in
      if negb (opt_eqb (branch s) (Some b)) then
        update (with_branch (Some b)) ;;
        (if truthy_opt (repo s) then
           await commits :=
             lift (get_git_log run datetime fromisoformat (the (repo s))
                     (Some b) 25) in
           put (MsgCommits commits)
         else ret tt) ;;
        ev_set
      else ret tt
  | MsgOpenPath path =>
      await s := get_state in
      (if negb (mem path (open_paths s)) then
         update (fun s => with_open_paths (open_paths s ++ [path]) s)
       else ret tt) ;;
      ev_set
  | MsgClosePath path =>
      await s := get_state in
      if mem path (open_paths s) then
        update (fun s => with_open_paths (remove_first path (open_paths s)) s) ;;
        ev_set
      else ret tt
  | MsgSetOpenPaths paths =>
      update (with_open_paths paths) ;; ev_set
  | _ => ret tt (* logger.warning *)
  end.

(** [handle_client_msg_loop] on the commands that are or will be queued:
    strict arrival order, and the first exception ends the loop. *)
Fixpoint handle_client_msg_loop (msgs : list (Msg datetime)) : M unit :=
  match msgs with
  | [] => ret tt
  | msg :: rest => handle_client_msg msg ;; handle_client_msg_loop rest
  end.

Definition send_init_data (repos : list string) : M unit :=
  put (MsgRepos repos).

(** [set(a) - set(b)] *)
Definition new_paths_of (a b : list string) : gset string :=
  list_to_set a ∖ list_to_set b.

(** One pass of [handle_state_changes_loop], from the wake to the clearing
    of the event; [state_prev] is the deep copy taken before the wait. The
    order of [list(new_paths)] is the order of [elements]: Python leaves it
    unspecified. *)
Definition handle_state_changes (state_prev : SessionState) : M unit :=
  put MsgSessionState ;;
  await state := get_state in
  (if negb (opt_eqb (repo state) (repo state_prev))
      || negb (opt_eqb (branch state) (branch state_prev))
      || negb (opt_eqb (st_commit_a state) (st_commit_a state_prev))
      || negb (opt_eqb (st_commit_b state) (st_commit_a state_prev))
   then
     send_diff_summary state ;;
     (match open_paths state with
      | _ :: _ => send_diff (Some (open_paths state)) state
      | [] => ret tt
      end)
   else
     let new_paths := new_paths_of (open_paths state) (open_paths state_prev) in
     if bool_decide (new_paths <> ∅) then
       send_diff (Some (elements new_paths)) state
     else ret tt) ;;
  ev_clear.

(** The session as [websocket_endpoint] creates it. *)
Definition session_init : Session datetime :=
  mkSession session_state_init [] false.

End Engine.


(** *** The outbound batcher

    [send_loop] turns the send queue into framed payloads. [D] is what
    [asdict] makes of a message at the moment it is taken from the queue;
    a turn of the loop either takes the next one or times out. The write to
    the transport is taken to succeed. *)

Inductive Waited (D : Type) : Type :=
| Got (d : D)
| TimedOut.
Arguments Got {D} d.
Arguments TimedOut {D}.

(** The two variables of the loop. *)
Record SendLoop (D : Type) : Type := mkSendLoop {
  buffer : list D;
  timeout : bool
}.
Arguments mkSendLoop {D}.
Arguments buffer {D}.
Arguments timeout {D}.

(** [buffer = []; timeout = False] *)
Definition send_loop_init {D : Type} : SendLoop D := mkSendLoop [] false.

(** Truthiness of a list. *)
Definition nonempty {A : Type} (l : list A) : bool :=
  match l with
  | [] => false
  | _ :: _ => true
  end.

(** One turn of the [while] loop: the variables after it and the payload it
    wrote, if it wrote one. *)
Definition send_loop_turn {D : Type} (max_chunk_size : Z) (st : SendLoop D)
    (w : Waited D) : SendLoop D * option (list D) :=
  let st :=
    match w with
    | Got d => mkSendLoop (buffer st ++ [d]) (timeout st)
    | TimedOut => mkSendLoop (buffer st) true
    end in
  if (max_chunk_size <=? Z.of_nat (length (buffer st)))
     || (timeout st && nonempty (buffer st))
  then (mkSendLoop [] false, Some (buffer st))
  else (st, None).

(** The loop over the turns that happen: the variables at the end and the
    payloads written, first one first. *)
Fixpoint send_loop {D : Type} (max_chunk_size : Z) (st : SendLoop D)
    (turns : list (Waited D)) : SendLoop D * list (list D) :=
  match turns with
  | [] => (st, [])
  | w :: rest =>
      let '(st', sent) := send_loop_turn max_chunk_size st w in
      let '(st'', more) := send_loop max_chunk_size st' rest in
      (st'', match sent with Some b => b :: more | None => more end)
  end.

(** ** Vocabulary of the properties *)

(** The expand and collapse commands, and their net effect on a path set. *)
Inductive PathOp : Type :=
| Expand (p : string)
| Collapse (p : string).

Definition path_cmd {datetime : Type} (o : PathOp) : Msg datetime :=
  match o with
  | Expand p => MsgOpenPath p
  | Collapse p => MsgClosePath p
  end.

Definition set_apply (X : gset string) (o : PathOp) : gset string :=
  match o with
  | Expand p => X ∪ {[ p ]}
  | Collapse p => X ∖ {[ p ]}
  end.

(** The same net effect on the list that holds the set. *)
Definition list_apply (l : list string) (o : PathOp) : list string :=
  match o with
  | Expand p => if mem p l then l else l ++ [p]
  | Collapse p => remove_first p l
  end.

(** The context line count of a session. *)
Definition ctx {datetime : Type} (s : Session datetime) : Z :=
  context_lines (git_flags (state s)).

(** A decomposition of a string around a separator, and around its first
    occurrence. *)
Definition occurs (sep s : string) : Prop :=
  exists p q, s = p +:+ sep +:+ q.

Definition first_split (sep s p q : string) : Prop :=
  s = p +:+ sep +:+ q
  /\ forall p' q', s = p' +:+ sep +:+ q' ->
       (String.length p <= String.length p')%nat.

(** Every character of [s] is in the class [p]. *)
Fixpoint all_in (p : ascii -> bool) (s : string) : bool :=
  match s with
  | EmptyString => true
  | String c s' => p c && all_in p s'
  end.

Definition starts_in (p : ascii -> bool) (s : string) : bool :=
  match s with
  | EmptyString => false
  | String c _ => p c
  end.

(** A decimal numeral and its value. *)
Definition is_number (s : string) : Prop :=
  s <> EmptyString /\ all_in Str.isdigit s = true.

Fixpoint decimal (acc : Z) (s : string) : Z :=
  match s with
  | EmptyString => acc
  | String c s' => decimal (10 * acc + Str.digit_value c) s'
  end.

Definition number (s : string) : Z := decimal 0 s.

(** The optional [,COUNT] of a hunk header: its text and its value. *)
Definition count_text (n : option string) : string :=
  match n with
  | Some n => "," +:+ n
  | None => EmptyString
  end.

Definition count_value (n : option string) : Z :=
  match n with
  | Some n => number n
  | None => 1
  end.

Definition is_count (n : option string) : Prop :=
  forall x, n = Some x -> is_number x.

(** The form [@@ -OLD_START[,OLD_COUNT] +NEW_START[,NEW_COUNT]] at the start
    of a string. *)
Definition hunk_form (s a : string) (b : option string) (c : string)
    (d : option string) (rest : string) : Prop :=
  is_number a /\ is_count b /\ is_number c /\ is_count d
  /\ s = "@@ -" +:+ a +:+ count_text b +:+ " +" +:+ c +:+ count_text d +:+ rest.

Definition matches_hunk_form (s : string) : Prop :=
  exists a b c d rest, hunk_form s a b c d rest.

(** The numerals of the form taken as long as they can be. *)
Definition longest (d : option string) (rest : string) : Prop :=
  starts_in Str.isdigit rest = false
  /\ (d = None ->
      forall t, rest = "," +:+ t -> starts_in Str.isdigit t = false).

(** The numerals of a header in the order in which they are converted, and
    the first of them that has more digits than [int] converts. *)
Definition optional (n : option string) : list string :=
  match n with
  | Some x => [x]
  | None => []
  end.

Definition numerals (a : string) (b : option string) (c : string)
    (d : option string) : list string :=
  a :: optional b ++ c :: optional d.

Definition within_limit (x : string) : bool :=
  (String.length x <=? Str.int_max_str_digits)%nat.

Fixpoint first_over_limit (l : list string) : option string :=
  match l with
  | [] => None
  | x :: rest => if within_limit x then first_over_limit rest else Some x
  end.

(** A header of the form none of whose numerals, taken as long as they can
    be, is over the limit. *)
Definition hunk_header_ok (s : string) : Prop :=
  exists a b c d rest,
    hunk_form s a b c d rest /\ longest d rest
    /\ first_over_limit (numerals a b c d) = None.

(** [n] times the character [c]. *)
Fixpoint copies (n : nat) (c : ascii) : string :=
  match n with
  | O => EmptyString
  | S k => String c (copies k c)
  end.

(** A hunk header whose first numeral has 4301 digits. *)
Definition long_header : string := "@@ -" +:+ copies 4301 "1" +:+ " +1 @@".

(** The listing of [git branch --list --all --no-color]. A line is a mark of
    two characters, [* ] for the current branch and two blanks or [+ ]
    for another one, and a text after it: the name of the branch, with
    [ -> ] and a target for a symbolic ref, or a description in brackets of
    a detached HEAD. The text is not blank, holds no line boundary and no
    [*], which no ref name can have. *)
Definition no_star (s : string) : bool :=
  all_in (fun c => negb (Ascii.eqb c "*")) s.

Definition no_linebreak (s : string) : bool :=
  all_in (fun c => negb (Str.islinebreak c)) s.

Definition listing_text (text : string) : Prop :=
  Str.strip text <> "" /\ no_linebreak text = true /\ no_star text = true.

Definition listing_line (line : string) : Prop :=
  exists mark text,
    line = mark +:+ text
    /\ (mark = "* " \/ mark = "  " \/ mark = "+ ")
    /\ listing_text text.

(** The output that holds the lines, each one ended by a newline. *)
Fixpoint unlines (lines : list string) : string :=
  match lines with
  | [] => EmptyString
  | line :: rest => line +:+ String "010" (unlines rest)
  end.

(** The options of a diff that come from the view options of the session:
    those that [git diff] and [git show] are both given, and the one for
    white space, which is given when the flag is set. *)
Definition view_options (flags : GitFlags) : list string :=
  ["--patch"; "--no-color"; "--find-renames"; "--find-copies";
   "--unified=" +:+ pretty (context_lines flags);
   "--diff-algorithm=" +:+ diff_algo_str (diff_algo flags)].

Definition space_option (flags : GitFlags) : list string :=
  if ignore_all_space flags then ["--ignore-all-space"] else [].

(** The content lines that count as added and as removed. *)
Definition is_added (line : string) : bool :=
  Str.startswith line "+" && negb (Str.startswith line "+++").

Definition is_removed (line : string) : bool :=
  Str.startswith line "-" && negb (Str.startswith line "---").

Fixpoint count_lines (p : string -> bool) (l : list string) : Z :=
  match l with
  | [] => 0
  | x :: l' => (if p x then 1 else 0) + count_lines p l'
  end.

(** The two counters of a hunk agree with its content. *)
Definition counts_ok (h : DiffHunk) : Prop :=
  added_lines h = count_lines is_added (content h)
  /\ removed_lines h = count_lines is_removed (content h).

Definition file_ok (f : DiffFile) : Prop := Forall counts_ok (hunks f).

(** The same of every hunk that the loop holds. *)
Definition parse_ok (st : DiffParse) : Prop :=
  Forall file_ok (dp_files st)
  /\ (forall f, current_file st = Some f -> file_ok f)
  /\ (forall h, current_hunk st = Some h -> counts_ok h).




(** A coroutine keeps a property of the session state, whether it returns or
    raises. *)
Definition preserves {datetime A : Type} (P : SessionState -> Prop)
    (m : M datetime A) : Prop :=
  forall s, P (state s) -> P (state (fst (m s))).

(** A session in which endpoint B has just been set to the value endpoint A
    already had: the snapshot of the change watcher, and the state it finds
    at its wake. *)
Definition resync_prev : SessionState :=
  {| repo := Some "/srv/repo"; branch := Some "main";
     st_commit_a := Some "abc1234"; st_commit_b := None;
     open_paths := ["a.txt"]; git_flags := default_flags |}.

Definition resync_now : SessionState := with_commit_b (Some "abc1234") resync_prev.

(** A tool that prints nothing and succeeds, and a date parser that keeps the
    text: the stand-ins of the examples. *)
Definition git_silent (cwd : string) (cmd : list string) : Completed :=
  mkCompleted 0 "" "".

Definition iso_text (s : string) : result string := Ok s.

(** A tool whose repository has two changed files: it prints the patch of
    both, or of a.txt alone when the command carries a path filter. *)
Definition patch_a : string :=
"diff --git a/a.txt b/a.txt
index 1111111..2222222 100644
--- a/a.txt
+++ b/a.txt
@@ -1,2 +1,2 @@
 kept
-old
+new
".

Definition patch_b : string :=
"diff --git a/b.txt b/b.txt
new file mode 100644
index 0000000..3333333
--- /dev/null
+++ b/b.txt
@@ -0,0 +1 @@
+hello
".

Definition git_two_files (cwd : string) (cmd : list string) : Completed :=
  if mem "--" cmd then mkCompleted 0 patch_a ""
  else mkCompleted 0 (patch_a +:+ patch_b) "".

(** A session with a repository, endpoint A and one expanded path. *)
Definition one_open_path : SessionState :=
  {| repo := Some "/srv/repo"; branch := Some "main";
     st_commit_a := Some "abc1234"; st_commit_b := None;
     open_paths := ["a.txt"]; git_flags := default_flags |}.

(** The messages that the turns of the batcher took from the queue. *)
Fixpoint received {D : Type} (turns : list (Waited D)) : list D :=
  match turns with
  | [] => []
  | Got d :: rest => d :: received rest
  | TimedOut :: rest => received rest
  end.

(** A line that reaches the last branch of the parse loop, where it is
    taken for the content of the open hunk. *)
Definition is_content_line (line : string) : bool :=
  negb (Str.startswith line "diff --git")
  && negb (Str.startswith line "new file mode")
  && negb (Str.startswith line "deleted file mode")
  && negb (Str.startswith line "--- " || Str.startswith line "+++ ")
  && negb (Str.startswith line "@@").

(** The parse of a diff that is already cut into lines. *)
Definition parse_diff_lines (lines : list string) : result (list DiffFile) :=
  try st := diff_loop diff_parse_init lines in Ok (diff_finish st).

(** The files that the loop has opened so far. *)
Definition files_so_far (st : DiffParse) : Z :=
  Z.of_nat (length (dp_files st))
  + match current_file st with Some _ => 1 | None => 0 end.

(** A property [Q] of a file together with a property [P] of its hunks,
    and the same of all that the parse loop holds. *)
Definition file_inv (P : DiffHunk -> Prop) (Q : DiffFile -> Prop)
    (f : DiffFile) : Prop :=
  Q f /\ Forall P (hunks f).

Definition loop_inv (P : DiffHunk -> Prop) (Q : DiffFile -> Prop)
    (st : DiffParse) : Prop :=
  Forall (file_inv P Q) (dp_files st)
  /\ (forall f, current_file st = Some f -> file_inv P Q f)
  /\ (forall h, current_hunk st = Some h -> P h).

(** The sum of an optional count over the entries of a summary, an unset
    count taken as 0. *)
Fixpoint sum_counts (f : FileChange -> option Z) (l : list FileChange) : Z :=
  match l with
  | [] => 0
  | fc :: rest => default 0 (f fc) + sum_counts f rest
  end.

(** The entries of the lines that have one, in the order of the lines. *)
Fixpoint summary_entries (lines : list string) : list FileChange :=
  match lines with
  | [] => []
  | line :: rest =>
      match parse_compact_summary_line line with
      | Some fc => fc :: summary_entries rest
      | None => summary_entries rest
      end
  end.

(** A character that is not white space. *)
Definition not_space (c : ascii) : bool := negb (Str.isspace c).

(** A line that [parse_git_tags] does not skip. *)
Definition not_blank (line : string) : bool := Str.truthy (Str.strip line).


(** A coroutine only appends to the send queue, and at most [n] messages. *)
Definition pushes {datetime A : Type} (n : nat) (m : M datetime A) : Prop :=
  forall s, exists evs,
    q_tx (fst (m s)) = q_tx s ++ evs /\ (length evs <= n)%nat.

(** A coroutine that returns has signalled a change. *)
Definition signals {datetime A : Type} (m : M datetime A) : Prop :=
  forall s a, snd (m s) = Ok a -> ev_state_change (fst (m s)) = true.

(** The events that carry a recomputed result. *)
Definition is_result_event {datetime : Type} (msg : Msg datetime) : bool :=
  match msg with
  | MsgDiff _ _ | MsgDiffSummary _ => true
  | _ => false
  end.

(** A coroutine leaves the state and the change event alone and appends at
    most [n] result events to the send queue. *)
Definition quiet {datetime A : Type} (n : nat) (m : M datetime A) : Prop :=
  forall s, exists evs,
    fst (m s) = mkSession (state s) (q_tx s ++ evs) (ev_state_change s)
    /\ (length evs <= n)%nat
    /\ Forall (fun ev => is_result_event ev = true) evs.

(** A directory with a [.git] among its directory names, reached from
    [dirpath] through directories that have none, and its path. *)
Inductive found_at : string -> Dir -> string -> Prop :=
| found_here (dirpath : string) (d : Dir) :
    ".git" ∈ dirnames d -> found_at dirpath d dirpath
| found_below (dirpath : string) (subdirs : list (string * Dir))
    (links : list string) (dirname : string) (sub : Dir) (repo_path : string) :
    ".git" ∉ dirnames (mkDir subdirs links) ->
    (dirname, sub) ∈ subdirs ->
    found_at (path_join dirpath dirname) sub repo_path ->
    found_at dirpath (mkDir subdirs links) repo_path.

(** A tool that prints a compact summary of two files. *)
Definition git_two_summaries (cwd : string) (cmd : list string) : Completed :=
  mkCompleted 0 " a.txt        | 2 +-
 b.txt (new)  | 1 +
 2 files changed, 2 insertions(+), 1 deletion(-)
" "".

(** How often a path is in a list. *)
Fixpoint occurrences (p : string) (l : list string) : nat :=
  match l with
  | [] => 0
  | q :: rest => (if String.eqb p q then 1 else 0) + occurrences p rest
  end.

(** * Properties *)

(** ** Strings *)

Lemma app_cons (c : ascii) (s t : string) :
  String c s +:+ t = String c (s +:+ t).
Proof. reflexivity. Qed.

Lemma app_empty (t : string) : "" +:+ t = t.
Proof. reflexivity. Qed.

Lemma app_nil_r (s : string) : s +:+ "" = s.
Proof.
  induction s as [|c s IH]; [reflexivity|]. rewrite app_cons, IH. reflexivity.
Qed.

Lemma app_assoc (s1 s2 s3 : string) : (s1 +:+ s2) +:+ s3 = s1 +:+ s2 +:+ s3.
Proof.
  induction s1 as [|c s1 IH]; [reflexivity|]. rewrite !app_cons, IH. reflexivity.
Qed.

Lemma length_app (s1 s2 : string) :
  String.length (s1 +:+ s2) = (String.length s1 + String.length s2)%nat.
Proof.
  induction s1 as [|c s1 IH]; [reflexivity|]. rewrite app_cons. simpl.
  rewrite IH. reflexivity.
Qed.

Lemma startswith_app_same (p r : string) : Str.startswith (p +:+ r) p = true.
Proof.
  unfold Str.startswith. induction p as [|c p IH].
  - destruct r; reflexivity.
  - rewrite app_cons. simpl. destruct (ascii_dec c c); [exact IH|contradiction].
Qed.

Lemma drop_app (p r : string) : Str.drop (String.length p) (p +:+ r) = r.
Proof. induction p as [|c p IH]; [reflexivity|]. rewrite app_cons. exact IH. Qed.

Lemma take_app (p r : string) : Str.take (String.length p) (p +:+ r) = p.
Proof.
  induction p as [|c p IH]; [reflexivity|]. rewrite app_cons. simpl.
  rewrite IH. reflexivity.
Qed.

Lemma take_drop (n : nat) (s : string) : Str.take n s +:+ Str.drop n s = s.
Proof.
  revert s. induction n as [|n IH]; intros [|c s]; simpl; try reflexivity.
  rewrite app_cons, IH. reflexivity.
Qed.

Lemma startswith_inv (s p : string) :
  Str.startswith s p = true -> s = p +:+ Str.drop (String.length p) s.
Proof.
  unfold Str.startswith. revert s. induction p as [|c p IH]; intros [|e s]; simpl;
    try reflexivity; try discriminate.
  destruct (ascii_dec c e) as [->|]; [|discriminate].
  intros H. rewrite app_cons, <- (IH s H). reflexivity.
Qed.

Lemma startswith_first_ne (line p q : string) (c d : ascii) :
  c <> d ->
  Str.startswith line (String c p) = true ->
  Str.startswith line (String d q) = false.
Proof.
  unfold Str.startswith. destruct line as [|e line]; cbn; [discriminate|].
  destruct (ascii_dec c e) as [->|Hce]; [|discriminate].
  intros Hed _. destruct (ascii_dec d e) as [->|]; [contradiction|reflexivity].
Qed.


Lemma startswith_empty (s : string) : Str.startswith s "" = true.
Proof. destruct s; reflexivity. Qed.

(** *** Decimal numerals *)

Lemma digit_not_space_int (c : ascii) :
  Str.isdigit c = true -> Str.isspace_int c = false.
Proof.
  destruct c as [[] [] [] [] [] [] [] []]; vm_compute; intros H;
    first [reflexivity | discriminate H].
Qed.

Lemma int_sign_digit (c : ascii) (r : string) :
  Str.isdigit c = true -> Str.int_sign (String c r) = (false, String c r).
Proof.
  destruct c as [[] [] [] [] [] [] [] []]; vm_compute; intros H;
    first [reflexivity | discriminate H].
Qed.

Lemma rstrip_int_digits (s : string) :
  all_in Str.isdigit s = true -> Str.rstrip_int s = s.
Proof.
  induction s as [|c s IH]; simpl; [reflexivity|].
  intros H. apply andb_true_iff in H as [Hc Hs].
  rewrite (IH Hs), (digit_not_space_int c Hc). reflexivity.
Qed.

Lemma int_scan_digits (s : string) (n : nat) (b : bool) :
  all_in Str.isdigit s = true -> s <> EmptyString \/ b = true ->
  Str.int_scan s n b = Some (n + String.length s)%nat.
Proof.
  revert n b. induction s as [|c s IH]; intros n b Hd Hb; simpl.
  - destruct Hb as [Hb| ->]; [contradiction|]. f_equal. lia.
  - simpl in Hd. apply andb_true_iff in Hd as [Hc Hs]. rewrite Hc.
    rewrite IH by auto. f_equal. lia.
Qed.

Lemma int_value_decimal (s : string) (acc : Z) :
  all_in Str.isdigit s = true -> Str.int_value s acc = decimal acc s.
Proof.
  revert acc. induction s as [|c s IH]; intros acc Hd; simpl; [reflexivity|].
  simpl in Hd. apply andb_true_iff in Hd as [Hc Hs]. rewrite Hc. apply IH, Hs.
Qed.

(** [int] of a numeral is its value, unless the numeral is over the limit. *)
Lemma int_number (s : string) :
  is_number s ->
  Str.int s = if within_limit s then Ok (number s)
              else Raise (Str.digit_limit_error (String.length s)).
Proof.
  intros [Hne Hd]. unfold Str.int, number, within_limit.
  destruct s as [|c s]; [contradiction|].
  pose proof Hd as Hd'. simpl in Hd'. apply andb_true_iff in Hd' as [Hc _].
  assert (Str.lstrip_int (String c s) = String c s) as ->.
  { simpl. rewrite (digit_not_space_int c Hc). reflexivity. }
  rewrite (rstrip_int_digits _ Hd), (int_sign_digit c s Hc).
  rewrite (int_scan_digits _ 0 false Hd) by (left; discriminate).
  rewrite Nat.add_0_l, Nat.ltb_antisym.
  destruct (String.length (String c s) <=? Str.int_max_str_digits)%nat;
    cbn [negb]; [|reflexivity].
  rewrite (int_value_decimal _ 0 Hd). reflexivity.
Qed.

(** The conversion of the four groups of a header, one after the other. *)
Lemma int_of_groups (a : string) (b : option string) (c : string)
    (d : option string) :
  is_number a -> is_count b -> is_number c -> is_count d ->
  (try old_start := int_of "group 1" (Some a) in
   try old_count := int_or_1 b in
   try new_start := int_of "group 3" (Some c) in
   try new_count := int_or_1 d in
   Ok (old_start, old_count, new_start, new_count))
  = match first_over_limit (numerals a b c d) with
    | None => Ok (number a, count_value b, number c, count_value d)
    | Some x => Raise (Str.digit_limit_error (String.length x))
    end.
Proof.
  intros Ha Hb Hc Hd. unfold numerals.
  assert (forall n, is_count n ->
            int_or_1 n = match first_over_limit (optional n) with
                         | None => Ok (count_value n)
                         | Some x => Raise (Str.digit_limit_error (String.length x))
                         end) as Hcount.
  { intros [x|] Hn; [|reflexivity]. specialize (Hn x eq_refl).
    unfold int_or_1, int_of. cbn [optional first_over_limit count_value].
    destruct x as [|ch x]; [destruct Hn as [[] _]; reflexivity|].
    cbn [Str.truthy Str.is_empty negb]. rewrite (int_number _ Hn).
    destruct (within_limit (String ch x)); reflexivity. }
  cbn [first_over_limit]. unfold int_of at 1. rewrite (int_number a Ha).
  destruct (within_limit a); cbn [rbind]; [|reflexivity].
  rewrite (Hcount b Hb).
  destruct b as [b|]; cbn [optional app first_over_limit].
  - destruct (within_limit b); cbn [rbind]; [|reflexivity].
    unfold int_of at 1. rewrite (int_number c Hc).
    destruct (within_limit c); cbn [rbind]; [|reflexivity].
    rewrite (Hcount d Hd). destruct d as [d|]; cbn [optional first_over_limit].
    + destruct (within_limit d); reflexivity.
    + reflexivity.
  - cbn [rbind]. unfold int_of at 1. rewrite (int_number c Hc).
    destruct (within_limit c); cbn [rbind]; [|reflexivity].
    rewrite (Hcount d Hd). destruct d as [d|]; cbn [optional first_over_limit].
    + destruct (within_limit d); reflexivity.
    + reflexivity.
Qed.

(** ** Regular expressions *)

Section ExecFacts.

Context {R : Type}.
Implicit Types (k : string -> Re.groups -> option R) (m : Re.groups).

Lemma exec_seq r1 r2 s m k :
  Re.exec (Re.Seq r1 r2) s m k
  = Re.exec r1 s m (fun s' m' => Re.exec r2 s' m' k).
Proof. reflexivity. Qed.

Lemma exec_opt r s m k :
  Re.exec (Re.Opt r) s m k
  = match Re.exec r s m k with Some x => Some x | None => k s m end.
Proof. reflexivity. Qed.

Lemma exec_lit_inv l s m k x :
  Re.exec (Re.Lit l) s m k = Some x ->
  exists r, s = l +:+ r /\ k r m = Some x.
Proof.
  simpl. destruct (Str.startswith s l) eqn:E; [|discriminate]. intros H.
  exists (Str.drop (String.length l) s). split; [apply startswith_inv, E|exact H].
Qed.

Lemma exec_lit_app l r m k : Re.exec (Re.Lit l) (l +:+ r) m k = k r m.
Proof. simpl. rewrite startswith_app_same, drop_app. reflexivity. Qed.

Lemma exec_plus_inv p s (k : string -> option R) x :
  Re.exec_plus p s k = Some x ->
  exists a r, s = a +:+ r /\ a <> "" /\ all_in p a = true /\ k r = Some x.
Proof.
  induction s as [|c s IH]; simpl; [discriminate|].
  destruct (p c) eqn:Ec; [|discriminate].
  destruct (Re.exec_plus p s k) as [y|] eqn:E.
  - intros [= ->]. destruct (IH eq_refl) as (a & r & -> & _ & Ha & Hk).
    exists (String c a), r. rewrite app_cons. simpl. rewrite Ec, Ha. auto.
  - intros Hk. exists (String c ""), s. simpl. rewrite Ec. auto.
Qed.

Lemma exec_plus_starts p s (k : string -> option R) :
  starts_in p s = false -> Re.exec_plus p s k = None.
Proof. destruct s as [|c s]; simpl; [reflexivity|]. intros ->. reflexivity. Qed.

Lemma exec_plus_total p s (k : string -> option R) :
  (forall t, k t <> None) -> starts_in p s = true -> Re.exec_plus p s k <> None.
Proof.
  intros Hk. destruct s as [|c s]; simpl; [discriminate|]. intros ->.
  destruct (Re.exec_plus p s k); [discriminate|apply Hk].
Qed.

(** With a continuation that never fails the first, longest run is kept. *)
Lemma exec_plus_total_inv p s (k : string -> option R) x :
  (forall t, k t <> None) ->
  Re.exec_plus p s k = Some x ->
  exists a r, s = a +:+ r /\ a <> "" /\ all_in p a = true
    /\ starts_in p r = false /\ k r = Some x.
Proof.
  intros Hk. induction s as [|c s IH]; simpl; [discriminate|].
  destruct (p c) eqn:Ec; [|discriminate].
  destruct (Re.exec_plus p s k) as [y|] eqn:E.
  - intros [= ->]. destruct (IH eq_refl) as (a & r & -> & _ & Ha & Hr & Hx).
    exists (String c a), r. rewrite app_cons. simpl. rewrite Ec, Ha. auto.
  - intros Hx. exists (String c ""), s. simpl. rewrite Ec.
    split; [reflexivity|]. split; [discriminate|]. split; [reflexivity|].
    split; [|exact Hx].
    destruct (starts_in p s) eqn:Es; [|reflexivity].
    exfalso. exact (exec_plus_total p s k Hk Es E).
Qed.

Lemma exec_plus_some p a r (k : string -> option R) :
  a <> "" -> all_in p a = true -> k r <> None ->
  Re.exec_plus p (a +:+ r) k <> None.
Proof.
  intros Hne Ha Hk. induction a as [|c a IH]; [contradiction|].
  rewrite app_cons. simpl in *. apply andb_true_iff in Ha as [Hc Ha]. rewrite Hc.
  destruct a as [|c' a].
  - rewrite app_empty. destruct (Re.exec_plus p r k); [discriminate|exact Hk].
  - destruct (Re.exec_plus p (String c' a +:+ r) k) eqn:E; [discriminate|].
    exfalso. apply IH; [discriminate|exact Ha|reflexivity].
Qed.

Lemma group_text (a r : string) :
  Str.take (String.length (a +:+ r) - String.length r) (a +:+ r) = a.
Proof.
  rewrite length_app.
  replace (String.length a + String.length r - String.length r)%nat
    with (String.length a) by lia.
  apply take_app.
Qed.

Lemma exec_group_inv n p s m k x :
  Re.exec (Re.Group n (Re.Plus p)) s m k = Some x ->
  exists a r, s = a +:+ r /\ a <> "" /\ all_in p a = true
    /\ k r ((n, a) :: m) = Some x.
Proof.
  simpl. intros H. apply exec_plus_inv in H as (a & r & -> & Hne & Ha & Hk).
  rewrite group_text in Hk. eauto 10.
Qed.

Lemma exec_group_total n p s m k :
  (forall t m', k t m' <> None) -> starts_in p s = true ->
  Re.exec (Re.Group n (Re.Plus p)) s m k <> None.
Proof. intros Hk Hs. simpl. apply exec_plus_total; auto. Qed.

Lemma exec_group_total_inv n p s m k x :
  (forall t m', k t m' <> None) ->
  Re.exec (Re.Group n (Re.Plus p)) s m k = Some x ->
  exists a r, s = a +:+ r /\ a <> "" /\ all_in p a = true
    /\ starts_in p r = false /\ k r ((n, a) :: m) = Some x.
Proof.
  simpl. intros Hk H.
  apply exec_plus_total_inv in H as (a & r & -> & Hne & Ha & Hr & Hx); [|auto].
  rewrite group_text in Hx. eauto 10.
Qed.

Lemma exec_group_some n p a r m k :
  a <> "" -> all_in p a = true -> (forall m', k r m' <> None) ->
  Re.exec (Re.Group n (Re.Plus p)) (a +:+ r) m k <> None.
Proof. intros Hne Ha Hk. simpl. apply exec_plus_some; auto. Qed.

Lemma exec_opt_total r s m k :
  (forall t m', k t m' <> None) -> Re.exec (Re.Opt r) s m k <> None.
Proof.
  intros Hk. rewrite exec_opt. destruct (Re.exec r s m k); [discriminate|apply Hk].
Qed.

End ExecFacts.

(** ** Hunk headers *)

Lemma number_starts (c r : string) :
  is_number c -> starts_in Str.isdigit (c +:+ r) = true.
Proof.
  intros [Hne Hd]. destruct c as [|x c]; [contradiction|].
  rewrite app_cons. simpl in *. apply andb_true_iff in Hd as [Hx _]. exact Hx.
Qed.

(** The part of the header from the blank before [+NEW_START] on. *)
Lemma new_range_inv (s : string) (m x : Re.groups) :
  Re.exec
    (Re.Seq (Re.Lit " +")
       (Re.Seq (Re.Group 3 (Re.Plus Str.isdigit))
          (Re.Opt (Re.Seq (Re.Lit ",") (Re.Group 4 (Re.Plus Str.isdigit))))))
    s m (fun _ m' => Some m') = Some x ->
  exists c d rest,
    s = " +" +:+ c +:+ count_text d +:+ rest
    /\ is_number c /\ is_count d /\ longest d rest
    /\ x = match d with
           | Some n => (4%nat, n) :: (3%nat, c) :: m
           | None => (3%nat, c) :: m
           end.
Proof.
  rewrite exec_seq. intros H.
  apply exec_lit_inv in H as (r1 & -> & H). rewrite exec_seq in H.
  apply exec_group_total_inv in H as (c & r2 & -> & Hne & Hc & Hr2 & H);
    [|intros t m'; apply exec_opt_total; discriminate].
  rewrite exec_opt in H.
  destruct (Re.exec (Re.Seq (Re.Lit ",") (Re.Group 4 (Re.Plus Str.isdigit)))
              r2 ((3%nat, c) :: m) (fun _ m' => Some m')) as [y|] eqn:E.
  - injection H as ->. rewrite exec_seq in E.
    apply exec_lit_inv in E as (r3 & -> & E).
    apply exec_group_total_inv in E as (d & rest & -> & Hdne & Hd & Hrest & E);
      [|discriminate].
    injection E as <-. exists c, (Some d), rest.
    split; [cbn [count_text]; rewrite app_assoc; reflexivity|].
    split; [split; assumption|].
    split; [intros n [= <-]; split; assumption|].
    split; [|reflexivity]. split; [exact Hrest|discriminate].
  - injection H as <-. exists c, None, r2.
    split; [reflexivity|]. split; [split; assumption|].
    split; [discriminate|]. split; [|reflexivity].
    split; [exact Hr2|]. intros _ t ->.
    destruct (starts_in Str.isdigit t) eqn:Et; [|reflexivity]. exfalso.
    rewrite exec_seq, exec_lit_app in E. revert E.
    apply exec_group_total; [discriminate|exact Et].
Qed.

Lemma new_range_some (c r : string) (m : Re.groups) :
  is_number c ->
  Re.exec
    (Re.Seq (Re.Lit " +")
       (Re.Seq (Re.Group 3 (Re.Plus Str.isdigit))
          (Re.Opt (Re.Seq (Re.Lit ",") (Re.Group 4 (Re.Plus Str.isdigit))))))
    (" +" +:+ c +:+ r) m (fun _ m' => Some m') <> None.
Proof.
  intros Hc. rewrite exec_seq, exec_lit_app, exec_seq.
  apply exec_group_total; [|apply number_starts, Hc].
  intros t m'. apply exec_opt_total. discriminate.
Qed.

(** A successful match gives a decomposition of the header, and its four
    numerals are the groups. *)
Lemma hunk_match_inv (s : string) (x : Re.groups) :
  Re.match_ hunk_header_re s = Some x ->
  exists a b c d rest,
    hunk_form s a b c d rest /\ longest d rest
    /\ Re.group x 1 = Some a /\ Re.group x 2 = b
    /\ Re.group x 3 = Some c /\ Re.group x 4 = d.
Proof.
  unfold Re.match_, hunk_header_re. rewrite exec_seq. intros H.
  apply exec_lit_inv in H as (r1 & -> & H). rewrite exec_seq in H.
  apply exec_group_inv in H as (a & r2 & -> & Hane & Ha & H).
  rewrite exec_seq, exec_opt in H.
  match type of H with
  | match ?e with _ => _ end = _ => destruct e as [y|] eqn:E
  end.
  - injection H as ->. rewrite exec_seq in E.
    apply exec_lit_inv in E as (r3 & -> & E).
    apply exec_group_inv in E as (b & r4 & -> & Hbne & Hb & E).
    apply new_range_inv in E as (c & d & rest & -> & Hc & Hd & Hl & ->).
    exists a, (Some b), c, d, rest.
    split.
    { split; [split; assumption|]. split; [intros n [= <-]; split; assumption|].
      split; [exact Hc|]. split; [exact Hd|].
      cbn [count_text]. rewrite !app_assoc. reflexivity. }
    split; [exact Hl|]. destruct d; repeat split; reflexivity.
  - apply new_range_inv in H as (c & d & rest & -> & Hc & Hd & Hl & ->).
    exists a, None, c, d, rest.
    split.
    { split; [split; assumption|]. split; [discriminate|].
      split; [exact Hc|]. split; [exact Hd|]. reflexivity. }
    split; [exact Hl|]. destruct d; repeat split; reflexivity.
Qed.

(** Every string of the form is matched. *)
Lemma hunk_match_some (s a : string) (b : option string) (c : string)
    (d : option string) (rest : string) :
  hunk_form s a b c d rest -> Re.match_ hunk_header_re s <> None.
Proof.
  intros ([Hane Ha] & Hb & Hc & _ & ->).
  unfold Re.match_, hunk_header_re.
  rewrite exec_seq, exec_lit_app, exec_seq.
  apply exec_group_some; [exact Hane|exact Ha|]. intros m'.
  rewrite exec_seq, exec_opt.
  match goal with
  | |- match ?e with _ => _ end <> _ => destruct e as [y|] eqn:E
  end; [discriminate|].
  destruct b as [b|]; cbn [count_text] in *.
  - exfalso. revert E. rewrite app_assoc, exec_seq, exec_lit_app.
    destruct (Hb b eq_refl) as [Hbne Hbd].
    apply exec_group_some; [exact Hbne|exact Hbd|].
    intros m''. apply new_range_some, Hc.
  - rewrite app_empty. apply new_range_some, Hc.
Qed.

(** The form, with its numerals taken as long as they can be, cuts a header
    in one way only. *)
Lemma append_inv_head (p s t : string) : p +:+ s = p +:+ t -> s = t.
Proof.
  induction p as [|c p IH]; [rewrite !app_empty; auto|].
  rewrite !app_cons. intros [= H]. apply IH, H.
Qed.

Lemma digits_prefix_unique (x x' r r' : string) :
  all_in Str.isdigit x = true -> all_in Str.isdigit x' = true ->
  starts_in Str.isdigit r = false -> starts_in Str.isdigit r' = false ->
  x +:+ r = x' +:+ r' -> x = x' /\ r = r'.
Proof.
  revert x'. induction x as [|c x IH]; intros [|c' x'] Hx Hx' Hr Hr';
    rewrite ?app_empty, ?app_cons.
  - auto.
  - intros ->. simpl in Hx', Hr. apply andb_true_iff in Hx' as [Hc _]. congruence.
  - intros <-. simpl in Hx, Hr'. apply andb_true_iff in Hx as [Hc _]. congruence.
  - intros [= <- H]. simpl in Hx, Hx'.
    apply andb_true_iff in Hx as [_ Hx]. apply andb_true_iff in Hx' as [_ Hx'].
    destruct (IH x' Hx Hx' Hr Hr' H) as [-> ->]. auto.
Qed.

Lemma count_text_starts (n : option string) (r : string) :
  starts_in Str.isdigit r = false ->
  starts_in Str.isdigit (count_text n +:+ r) = false.
Proof.
  destruct n as [x|]; cbn [count_text]; rewrite ?app_assoc, ?app_cons, ?app_empty;
    [reflexivity|auto].
Qed.

Lemma count_text_unique (n n' : option string) (r r' : string) :
  is_count n -> is_count n' ->
  starts_in Str.isdigit r = false -> starts_in Str.isdigit r' = false ->
  (n = None -> forall t, r = "," +:+ t -> starts_in Str.isdigit t = false) ->
  (n' = None -> forall t, r' = "," +:+ t -> starts_in Str.isdigit t = false) ->
  count_text n +:+ r = count_text n' +:+ r' -> n = n' /\ r = r'.
Proof.
  intros Hn Hn' Hr Hr' Hl Hl'.
  destruct n as [x|], n' as [x'|]; cbn [count_text];
    rewrite ?app_assoc, ?app_cons, ?app_empty.
  - intros [= H].
    apply digits_prefix_unique in H as [-> ->];
      [auto|apply (Hn x eq_refl)|apply (Hn' x' eq_refl)|exact Hr|exact Hr'].
  - intros H. exfalso.
    pose proof (Hl' eq_refl (x +:+ r)) as Ht.
    rewrite (number_starts x r (Hn x eq_refl)) in Ht.
    discriminate Ht. rewrite <- H, app_cons, app_empty. reflexivity.
  - intros H. exfalso.
    pose proof (Hl eq_refl (x' +:+ r')) as Ht.
    rewrite (number_starts x' r' (Hn' x' eq_refl)) in Ht.
    discriminate Ht. rewrite H, app_cons, app_empty. reflexivity.
  - auto.
Qed.

Lemma hunk_form_unique (s a a' : string) (b b' : option string) (c c' : string)
    (d d' : option string) (rest rest' : string) :
  hunk_form s a b c d rest -> longest d rest ->
  hunk_form s a' b' c' d' rest' -> longest d' rest' ->
  a = a' /\ b = b' /\ c = c' /\ d = d' /\ rest = rest'.
Proof.
  intros (Ha & Hb & Hc & Hd & Hs) [Hr Hl] (Ha' & Hb' & Hc' & Hd' & Hs') [Hr' Hl'].
  rewrite Hs in Hs'. apply append_inv_head in Hs'.
  assert (forall n x r, starts_in Str.isdigit (count_text n +:+ " +" +:+ x +:+ r) = false)
    as Hsep.
  { intros [n|] x r; cbn [count_text]; rewrite ?app_assoc, ?app_cons, ?app_empty;
      reflexivity. }
  destruct (digits_prefix_unique a a' _ _ (proj2 Ha) (proj2 Ha')
              (Hsep b c _) (Hsep b' c' _) Hs') as [<- H1].
  assert (b = b' /\ c +:+ count_text d +:+ rest = c' +:+ count_text d' +:+ rest')
    as [<- H2].
  { destruct b as [x|], b' as [x'|]; cbn [count_text] in H1;
      rewrite ?app_assoc, ?app_cons, ?app_empty in H1.
    - injection H1 as H1.
      apply digits_prefix_unique in H1 as [<- H2];
        [|apply (Hb x eq_refl)|apply (Hb' x' eq_refl)|reflexivity|reflexivity].
      injection H2 as H2. auto.
    - discriminate H1.
    - discriminate H1.
    - injection H1 as H1. auto. }
  destruct (digits_prefix_unique c c' _ _ (proj2 Hc) (proj2 Hc')
              (count_text_starts d rest Hr) (count_text_starts d' rest' Hr') H2)
    as [<- H3].
  destruct (count_text_unique d d' rest rest' Hd Hd' Hr Hr' Hl Hl' H3) as [<- <-].
  auto.
Qed.

(** The outcome of [parse_hunk_header] on a header of the form: the values
    of the numerals, or the error of [int] for the first numeral that is
    over the limit. *)
Lemma parse_hunk_header_match (header : string) (x : Re.groups) :
  Re.match_ hunk_header_re header = Some x ->
  exists a b c d rest,
    hunk_form header a b c d rest /\ longest d rest
    /\ parse_hunk_header header
       = match first_over_limit (numerals a b c d) with
         | None => Ok (number a, count_value b, number c, count_value d)
         | Some n => Raise (Str.digit_limit_error (String.length n))
         end.
Proof.
  intros E. unfold parse_hunk_header. rewrite E.
  apply hunk_match_inv in E
    as (a & b & c & d & rest & Hform & Hl & -> & -> & -> & ->).
  exists a, b, c, d, rest. split; [exact Hform|]. split; [exact Hl|].
  destruct Hform as (Ha & Hb & Hc & Hd & _).
  apply int_of_groups; assumption.
Qed.

Lemma parse_hunk_header_form (header a : string) (b : option string)
    (c : string) (d : option string) (rest : string) :
  hunk_form header a b c d rest -> longest d rest ->
  parse_hunk_header header
  = match first_over_limit (numerals a b c d) with
    | None => Ok (number a, count_value b, number c, count_value d)
    | Some n => Raise (Str.digit_limit_error (String.length n))
    end.
Proof.
  intros Hform Hl.
  destruct (Re.match_ hunk_header_re header) as [x|] eqn:E.
  - apply parse_hunk_header_match in E
      as (a' & b' & c' & d' & rest' & Hform' & Hl' & ->).
    destruct (hunk_form_unique _ _ _ _ _ _ _ _ _ _ _ Hform Hl Hform' Hl')
      as (-> & -> & -> & -> & _).
    reflexivity.
  - exfalso. exact (hunk_match_some _ _ _ _ _ _ Hform E).
Qed.

Lemma parse_hunk_header_no_form (header : string) :
  ~ matches_hunk_form header ->
  parse_hunk_header header = Raise (ValueError ("Invalid hunk header: " +:+ header)).
Proof.
  intros Hno. unfold parse_hunk_header.
  destruct (Re.match_ hunk_header_re header) as [x|] eqn:E; [|reflexivity].
  exfalso. apply Hno. apply hunk_match_inv in E as (a & b & c & d & rest & H & _).
  exists a, b, c, d, rest. exact H.
Qed.

Lemma matches_longest (header : string) :
  matches_hunk_form header ->
  exists a b c d rest, hunk_form header a b c d rest /\ longest d rest.
Proof.
  intros (a & b & c & d & rest & Hform).
  destruct (Re.match_ hunk_header_re header) as [x|] eqn:E.
  - apply hunk_match_inv in E as (a' & b' & c' & d' & rest' & H & Hl & _).
    exists a', b', c', d', rest'. auto.
  - exfalso. exact (hunk_match_some _ _ _ _ _ _ Hform E).
Qed.

(** C3, as amended. On a string that does not start with the form
    [@@ -OLD_START[,OLD_COUNT] +NEW_START[,NEW_COUNT]], [parse_hunk_header]
    raises the invalid-hunk-header [ValueError]. On a string that starts
    with the form, each numeral taken as long as it can be, it returns the
    values of the four numerals, with 1 for a count that is left out, when
    no numeral has more than 4300 digits; otherwise it raises the
    [ValueError] of [int] for the first numeral that has more. Every string
    that starts with the form does so with the numerals taken as long as
    they can be. [@@ -10,7 +12,9 @@] gives (10, 7, 12, 9) and
    [@@ -1 +1,2 @@] gives (1, 1, 1, 2). *)
Theorem parse_hunk_header_spec (header : string) :
  (~ matches_hunk_form header ->
   parse_hunk_header header
   = Raise (ValueError ("Invalid hunk header: " +:+ header)))
  /\ (forall a b c d rest,
        hunk_form header a b c d rest -> longest d rest ->
        parse_hunk_header header
        = match first_over_limit (numerals a b c d) with
          | None => Ok (number a, count_value b, number c, count_value d)
          | Some n => Raise (Str.digit_limit_error (String.length n))
          end)
  /\ (matches_hunk_form header ->
      exists a b c d rest, hunk_form header a b c d rest /\ longest d rest)
  /\ parse_hunk_header "@@ -10,7 +12,9 @@" = Ok (10, 7, 12, 9)
  /\ parse_hunk_header "@@ -1 +1,2 @@" = Ok (1, 1, 1, 2).
Proof.
  split; [apply parse_hunk_header_no_form|].
  split; [apply parse_hunk_header_form|].
  split; [apply matches_longest|].
  split; reflexivity.
Qed.

(** ** The compact summary *)

Lemma split_once_eq (sep s : string) :
  Str.split_once sep s =
  if Str.startswith s sep then Some ("", Str.drop (String.length sep) s)
  else match s with
       | EmptyString => None
       | String c s' =>
           match Str.split_once sep s' with
           | Some (a, b) => Some (String c a, b)
           | None => None
           end
       end.
Proof. destruct s; reflexivity. Qed.

Lemma contains_eq (sub s : string) :
  Str.contains sub s =
  Str.startswith s sub
  || match s with
     | EmptyString => false
     | String _ s' => Str.contains sub s'
     end.
Proof. destruct s; reflexivity. Qed.

Lemma split_once_first (sep s p q : string) :
  Str.split_once sep s = Some (p, q) -> first_split sep s p q.
Proof.
  revert p q. induction s as [|c s IH]; intros p q; rewrite split_once_eq.
  - destruct (Str.startswith "" sep) eqn:E; [|discriminate].
    intros [= <- <-]. split; [|intros; simpl; lia].
    rewrite app_empty. apply (startswith_inv "" sep E).
  - destruct (Str.startswith (String c s) sep) eqn:E.
    + intros [= <- <-]. split; [|intros; simpl; lia].
      rewrite app_empty. apply (startswith_inv _ sep E).
    + destruct (Str.split_once sep s) as [[a b]|] eqn:Es; [|discriminate].
      intros [= <- <-]. destruct (IH a b eq_refl) as [Hs Hmin].
      split; [rewrite app_cons, <- Hs; reflexivity|].
      intros [|c' p'] q' Hp.
      * rewrite app_empty in Hp. rewrite Hp, startswith_app_same in E.
        discriminate.
      * rewrite app_cons in Hp. injection Hp as _ Hp.
        specialize (Hmin p' q' Hp). simpl. lia.
Qed.

Lemma occurs_split_once (sep s : string) :
  occurs sep s -> exists p q, Str.split_once sep s = Some (p, q).
Proof.
  intros (p & q & ->). induction p as [|c p IH].
  - rewrite app_empty, split_once_eq, startswith_app_same. eauto.
  - rewrite app_cons, split_once_eq.
    destruct (Str.startswith (String c (p +:+ sep +:+ q)) sep); [eauto|].
    destruct IH as (a & b & ->). eauto.
Qed.

Lemma contains_occurs (sep s : string) :
  Str.contains sep s = true <-> occurs sep s.
Proof.
  split.
  - induction s as [|c s IH]; rewrite contains_eq.
    + rewrite orb_false_r. intros E. exists "", (Str.drop (String.length sep) "").
      rewrite app_empty. apply (startswith_inv "" sep E).
    + destruct (Str.startswith (String c s) sep) eqn:E; cbn [orb].
      * intros _. exists "", (Str.drop (String.length sep) (String c s)).
        rewrite app_empty. apply (startswith_inv _ sep E).
      * intros H. destruct (IH H) as (p & q & ->).
        exists (String c p), q. reflexivity.
  - intros (p & q & ->). induction p as [|c p IH].
    + rewrite app_empty, contains_eq, startswith_app_same. reflexivity.
    + rewrite app_cons, contains_eq, IH. apply orb_true_r.
Qed.

Lemma endswith_app (p suf : string) : Str.endswith (p +:+ suf) suf = true.
Proof.
  unfold Str.endswith. rewrite length_app.
  replace (String.length p + String.length suf - String.length suf)%nat
    with (String.length p) by lia.
  rewrite drop_app, String.eqb_refl, andb_true_r.
  apply Nat.leb_le. lia.
Qed.

Lemma drop_end_app (p suf : string) :
  Str.drop_end (String.length suf) (p +:+ suf) = p.
Proof. unfold Str.drop_end. apply group_text. Qed.

Lemma endswith_inv (s suf : string) :
  Str.endswith s suf = true -> s = Str.drop_end (String.length suf) s +:+ suf.
Proof.
  unfold Str.endswith, Str.drop_end. intros H.
  apply andb_true_iff in H as [_ H]. apply String.eqb_eq in H.
  transitivity (Str.take (String.length s - String.length suf) s
                +:+ Str.drop (String.length s - String.length suf) s).
  - symmetry. apply take_drop.
  - rewrite H. reflexivity.
Qed.

Lemma drop_add (p r : string) (n : nat) :
  Str.drop (String.length p + n) (p +:+ r) = Str.drop n r.
Proof. induction p as [|c p IH]; [reflexivity|]. rewrite app_cons. exact IH. Qed.

(** A string cannot end both ways. *)
Lemma new_gone_exclusive (p p' : string) : p +:+ " (gone)" <> p' +:+ " (new)".
Proof.
  intros H.
  assert (String.length p + 5 = String.length p' + 4)%nat as Hlen.
  { apply (f_equal String.length) in H. rewrite !length_app in H. simpl in H. lia. }
  apply (f_equal (Str.drop (String.length p + 5))) in H.
  rewrite Hlen in H at 2. rewrite !drop_add in H. discriminate.
Qed.

Lemma contains_char_cons (c d : ascii) (s : string) :
  Str.contains (String c "") (String d s)
  = if ascii_dec c d then true else Str.contains (String c "") s.
Proof.
  rewrite contains_eq. unfold Str.startswith at 1. simpl.
  destruct (ascii_dec c d); [|reflexivity].
  fold (Str.startswith s ""). rewrite startswith_empty. reflexivity.
Qed.

Lemma contains_char_lstrip (c : ascii) (s : string) :
  Str.isspace c = false ->
  Str.contains (String c "") (Str.lstrip s) = Str.contains (String c "") s.
Proof.
  intros Hc. induction s as [|d s IH]; [reflexivity|].
  cbn [Str.lstrip]. destruct (Str.isspace d) eqn:Ed; [|reflexivity].
  rewrite IH, contains_char_cons.
  destruct (ascii_dec c d) as [->|]; [congruence|reflexivity].
Qed.

Lemma contains_char_rstrip (c : ascii) (s : string) :
  Str.isspace c = false ->
  Str.contains (String c "") (Str.rstrip s) = Str.contains (String c "") s.
Proof.
  intros Hc. induction s as [|d s IH]; [reflexivity|].
  cbn [Str.rstrip]. rewrite contains_char_cons.
  destruct (Str.isspace d && Str.is_empty (Str.rstrip s)) eqn:E.
  - apply andb_true_iff in E as [Ed Ee].
    destruct (ascii_dec c d) as [->|]; [congruence|].
    rewrite <- IH. destruct (Str.rstrip s); [reflexivity|discriminate].
  - rewrite contains_char_cons, IH. reflexivity.
Qed.

Lemma contains_char_strip (c : ascii) (s : string) :
  Str.isspace c = false ->
  Str.contains (String c "") (Str.strip s) = Str.contains (String c "") s.
Proof.
  intros Hc. unfold Str.strip.
  rewrite contains_char_rstrip, contains_char_lstrip by exact Hc. reflexivity.
Qed.

(** The fields that the file part decides. *)
Lemma summary_line_fields (line lft rgt : string) :
  Str.contains "|" (Str.strip line) = true ->
  Str.split_once "|" (Str.strip line) = Some (lft, rgt) ->
  exists fc,
    parse_compact_summary_line line = Some fc
    /\ (path fc, fc_change_type fc, old_path fc)
       = file_part_fields (Str.strip lft).
Proof.
  intros Hc Hs. unfold parse_compact_summary_line. rewrite Hc, Hs.
  assert (Str.truthy (Str.strip line) = true) as ->.
  { destruct (Str.strip line); [discriminate Hc|reflexivity]. }
  cbn [negb].
  destruct (file_part_fields (Str.strip lft)) as [[p t] o].
  destruct (Str.startswith (Str.strip rgt) "Bin").
  - eexists. split; reflexivity.
  - destruct (summary_counts (Str.strip rgt)) as [[x y] z].
    eexists. split; reflexivity.
Qed.

(** C6. A compact-summary line that contains [|] (and so is not blank) is
    parsed into an entry, and the trimmed text on the left of the first [|]
    decides the change type. If it contains [ => ] the type is renamed, and
    the prior and the new path are the trimmed texts before and after the
    first [ => ]. If not, and it ends with [ (new)], the type is added and
    the path is the rest, trimmed; if it ends with [ (gone)], the type is
    deleted and the path is the rest, trimmed; otherwise the type is
    modified and the path is the whole left part. The line
    [ renamed.txt => new_name.txt | 0] gives renamed, prior path
    renamed.txt, path new_name.txt and 0 changes. *)
Theorem compact_summary_change_type :
  (forall line : string,
     occurs "|" line ->
     exists fc lft rgt,
       parse_compact_summary_line line = Some fc
       /\ first_split "|" (Str.strip line) lft rgt
       /\ let left := Str.strip lft in
          (occurs " => " left ->
           exists p q,
             first_split " => " left p q
             /\ fc_change_type fc = RENAMED
             /\ old_path fc = Some (Str.strip p) /\ path fc = Str.strip q)
          /\ (~ occurs " => " left ->
              forall p, left = p +:+ " (new)" ->
              fc_change_type fc = ADDED
              /\ path fc = Str.strip p /\ old_path fc = None)
          /\ (~ occurs " => " left ->
              forall p, left = p +:+ " (gone)" ->
              fc_change_type fc = DELETED
              /\ path fc = Str.strip p /\ old_path fc = None)
          /\ (~ occurs " => " left ->
              (forall p, left <> p +:+ " (new)") ->
              (forall p, left <> p +:+ " (gone)") ->
              fc_change_type fc = MODIFIED
              /\ path fc = left /\ old_path fc = None))
  /\ parse_compact_summary_line " renamed.txt => new_name.txt | 0"
     = Some {| path := "new_name.txt"; fc_change_type := RENAMED;
               old_path := Some "renamed.txt"; mode_change := None;
               is_binary := false; additions := Some 0; deletions := Some 0;
               changes := Some 0 |}.
Proof.
  split; [|reflexivity].
  intros line Hocc.
  assert (Str.contains "|" (Str.strip line) = true) as Hc.
  { rewrite contains_char_strip by reflexivity. apply contains_occurs, Hocc. }
  destruct (occurs_split_once "|" (Str.strip line)) as (lft & rgt & Hs);
    [apply contains_occurs, Hc|].
  destruct (summary_line_fields line lft rgt Hc Hs) as (fc & Hfc & Hfields).
  exists fc, lft, rgt. split; [exact Hfc|].
  split; [apply split_once_first, Hs|].
  intros left. fold left in Hfields. unfold file_part_fields in Hfields.
  destruct (Str.contains " => " left) eqn:Earrow.
  - apply contains_occurs in Earrow.
    destruct (occurs_split_once " => " left Earrow) as (p & q & Hpq).
    rewrite Hpq in Hfields. injection Hfields as Hp Ht Ho.
    split; [|split; [|split]; intros Hn; contradiction].
    intros _. exists p, q. split; [apply split_once_first, Hpq|]. auto.
  - assert (~ occurs " => " left) as Hno.
    { intros Ho. apply contains_occurs in Ho. congruence. }
    split; [intros Ho; contradiction|].
    destruct (Str.endswith left " (new)") eqn:Enew.
    { injection Hfields as Hp Ht Ho. apply endswith_inv in Enew.
      split; [|split].
      - intros _ p Hl. rewrite Hl in Hp.
        pose proof (drop_end_app p " (new)") as Hd.
        cbn [String.length] in Hd. rewrite Hd in Hp. auto.
      - intros _ p Hl. exfalso. rewrite Hl in Enew.
        exact (new_gone_exclusive _ _ Enew).
      - intros _ Hnew _. exfalso. exact (Hnew _ Enew). }
    destruct (Str.endswith left " (gone)") eqn:Egone.
    { injection Hfields as Hp Ht Ho. apply endswith_inv in Egone.
      split; [|split].
      - intros _ p Hl. rewrite Hl, endswith_app in Enew. discriminate.
      - intros _ p Hl. rewrite Hl in Hp.
        pose proof (drop_end_app p " (gone)") as Hd.
        cbn [String.length] in Hd. rewrite Hd in Hp. auto.
      - intros _ _ Hgone. exfalso. exact (Hgone _ Egone). }
    injection Hfields as Hp Ht Ho.
    split; [|split].
    + intros _ p Hl. rewrite Hl, endswith_app in Enew. discriminate.
    + intros _ p Hl. rewrite Hl, endswith_app in Egone. discriminate.
    + auto.
Qed.

(** ** Branch listings *)

(** What the loop body takes for the mark of the current branch is a
    leading [*] of the trimmed line, with or without a blank after it. *)
Lemma parse_branch_line_current (line : string) (b : GitBranch) :
  parse_branch_line line = Ok b ->
  is_current b = Str.startswith (Str.strip line) "*".
Proof.
  unfold parse_branch_line.
  generalize (Str.startswith (Str.strip line) "*") as cur. intros cur.
  generalize (if cur then Str.strip (Str.drop 2 (Str.strip line))
              else Str.strip line) as l. intros l.
  destruct (Str.contains "->" l).
  - destruct (Str.split_once "->" l) as [[n t]|]; [|discriminate].
    destruct (Str.startswith (Str.strip n) "remotes/").
    + destruct (second_segment (Str.strip n)); cbn; [|discriminate].
      intros [= <-]. reflexivity.
    + cbn. intros [= <-]. reflexivity.
  - destruct (Str.startswith l "remotes/").
    + destruct (second_segment l); cbn; [|discriminate].
      intros [= <-]. reflexivity.
    + cbn. intros [= <-]. reflexivity.
Qed.

Lemma split_from_found (c : ascii) (sep s : string) :
  Str.contains (String c sep) s = true ->
  snd (Str.split_from (String c sep) 0 s) <> [].
Proof.
  induction s as [|d s IH]; [discriminate|].
  rewrite contains_eq. cbn [Str.split_from].
  destruct (Str.startswith (String d s) (String c sep)); cbn [orb].
  - intros _.
    destruct (Str.split_from (String c sep) (String.length (String c sep) - 1) s).
    cbn. discriminate.
  - intros H. specialize (IH H).
    destruct (Str.split_from (String c sep) 0 s). cbn in *. exact IH.
Qed.

(** [parts[1]] exists for a name that starts with [remotes/]. *)
Lemma second_segment_ok (s : string) :
  Str.startswith s "remotes/" = true -> exists x, second_segment s = Ok x.
Proof.
  intros H. unfold second_segment, Str.split.
  assert (Str.contains "/" s = true) as Hc.
  { apply contains_occurs. exists "remotes", (Str.drop 8 s).
    apply (startswith_inv s "remotes/" H). }
  pose proof (split_from_found "/" "" s Hc) as Hne.
  destruct (Str.split_from "/" 0 s) as [t [|x ts]]; [contradiction|eauto].
Qed.

Lemma parse_branch_line_total (line : string) :
  exists b, parse_branch_line line = Ok b.
Proof.
  unfold parse_branch_line.
  generalize (Str.startswith (Str.strip line) "*") as cur. intros cur.
  generalize (if cur then Str.strip (Str.drop 2 (Str.strip line))
              else Str.strip line) as l. intros l.
  destruct (Str.contains "->" l) eqn:Ec.
  - apply contains_occurs, occurs_split_once in Ec as (n & t & ->).
    destruct (Str.startswith (Str.strip n) "remotes/") eqn:Er; cbn; [|eauto].
    destruct (second_segment_ok _ Er) as [x ->]. cbn. eauto.
  - destruct (Str.startswith l "remotes/") eqn:Er; cbn; [|eauto].
    destruct (second_segment_ok _ Er) as [x ->]. cbn. eauto.
Qed.

Lemma for_each_total {A B : Type} (f : A -> result B) (l : list A) :
  (forall x, exists y, f x = Ok y) ->
  exists ys, for_each f l = Ok ys /\ Forall2 (fun x y => f x = Ok y) l ys.
Proof.
  intros Hf. induction l as [|x l (ys & E & Hall)]; cbn.
  - exists []. split; [reflexivity|constructor].
  - destruct (Hf x) as [y Hy]. rewrite Hy, E. cbn.
    exists (y :: ys). split; [reflexivity|constructor; assumption].
Qed.

(** *** White space at the two ends, and lines *)

Lemma all_in_lstrip (p : ascii -> bool) (s : string) :
  all_in p s = true -> all_in p (Str.lstrip s) = true.
Proof.
  induction s as [|c s IH]; cbn [Str.lstrip]; [auto|]. intros H.
  destruct (Str.isspace c); [|exact H].
  cbn [all_in] in H. apply andb_true_iff in H as [_ H]. auto.
Qed.

Lemma all_in_rstrip (p : ascii -> bool) (s : string) :
  all_in p s = true -> all_in p (Str.rstrip s) = true.
Proof.
  induction s as [|c s IH]; cbn [Str.rstrip all_in]; [auto|]. intros H.
  apply andb_true_iff in H as [Hc Hs].
  destruct (Str.isspace c && Str.is_empty (Str.rstrip s)); [reflexivity|].
  cbn [all_in]. rewrite Hc, (IH Hs). reflexivity.
Qed.

Lemma all_in_strip (p : ascii -> bool) (s : string) :
  all_in p s = true -> all_in p (Str.strip s) = true.
Proof. intros H. apply all_in_rstrip, all_in_lstrip, H. Qed.

Lemma all_in_drop (p : ascii -> bool) (n : nat) (s : string) :
  all_in p s = true -> all_in p (Str.drop n s) = true.
Proof.
  revert s. induction n as [|n IH]; intros [|c s]; cbn [Str.drop all_in]; auto.
  intros H. apply andb_true_iff in H as [_ H]. auto.
Qed.

Lemma all_in_split_once (p : ascii -> bool) (sep s a b : string) :
  Str.split_once sep s = Some (a, b) -> all_in p s = true -> all_in p a = true.
Proof.
  revert a b. induction s as [|c s IH]; intros a b; rewrite split_once_eq.
  - destruct (Str.startswith "" sep); [|discriminate].
    intros [= <- _]. reflexivity.
  - destruct (Str.startswith (String c s) sep); [intros [= <- _]; reflexivity|].
    destruct (Str.split_once sep s) as [[a' b']|] eqn:E; [|discriminate].
    intros [= <- _] H. cbn [all_in] in *. apply andb_true_iff in H as [Hc Hs].
    rewrite Hc, (IH a' b' eq_refl Hs). reflexivity.
Qed.

Lemma lstrip_idem (s : string) : Str.lstrip (Str.lstrip s) = Str.lstrip s.
Proof.
  induction s as [|c s IH]; cbn [Str.lstrip]; [reflexivity|].
  destruct (Str.isspace c) eqn:E; [exact IH|]. cbn [Str.lstrip]. rewrite E.
  reflexivity.
Qed.

Lemma rstrip_idem (s : string) : Str.rstrip (Str.rstrip s) = Str.rstrip s.
Proof.
  induction s as [|c s IH]; cbn [Str.rstrip]; [reflexivity|].
  destruct (Str.isspace c && Str.is_empty (Str.rstrip s)) eqn:E; [reflexivity|].
  cbn [Str.rstrip]. rewrite IH, E. reflexivity.
Qed.

Lemma lstrip_rstrip (s : string) :
  Str.lstrip (Str.rstrip s) = Str.rstrip (Str.lstrip s).
Proof.
  induction s as [|c s IH]; [reflexivity|]. cbn [Str.rstrip Str.lstrip].
  destruct (Str.isspace c) eqn:E; cbn [andb].
  - rewrite <- IH. destruct (Str.rstrip s) as [|d r]; cbn [Str.is_empty];
      [reflexivity|]. cbn [Str.lstrip]. rewrite E. reflexivity.
  - cbn [Str.lstrip Str.rstrip]. rewrite E. reflexivity.
Qed.

Lemma strip_lstrip (s : string) : Str.strip (Str.lstrip s) = Str.strip s.
Proof. unfold Str.strip. rewrite lstrip_idem. reflexivity. Qed.

Lemma strip_rstrip (s : string) : Str.strip (Str.rstrip s) = Str.strip s.
Proof. unfold Str.strip. rewrite lstrip_rstrip, rstrip_idem. reflexivity. Qed.

Lemma lstrip_app (a b : string) :
  Str.lstrip a <> "" -> Str.lstrip (a +:+ b) = Str.lstrip a +:+ b.
Proof.
  induction a as [|c a IH]; [intros H; contradiction|].
  rewrite app_cons. cbn [Str.lstrip].
  destruct (Str.isspace c); [exact IH|]. intros _. rewrite app_cons. reflexivity.
Qed.

Lemma rstrip_app (a b : string) :
  Str.rstrip b <> "" -> Str.rstrip (a +:+ b) = a +:+ Str.rstrip b.
Proof.
  intros Hb. induction a as [|c a IH]; [rewrite !app_empty; reflexivity|].
  rewrite !app_cons. cbn [Str.rstrip]. rewrite IH.
  destruct (a +:+ Str.rstrip b) as [|d r] eqn:E.
  - exfalso. destruct a; [rewrite app_empty in E; contradiction|].
    rewrite app_cons in E. discriminate E.
  - cbn [Str.is_empty]. rewrite andb_false_r. reflexivity.
Qed.

Lemma rstrip_newline (a : string) :
  Str.rstrip (a +:+ String "010" "") = Str.rstrip a.
Proof.
  induction a as [|c a IH]; [reflexivity|].
  rewrite app_cons. cbn [Str.rstrip]. rewrite IH. reflexivity.
Qed.

Lemma splitlines_line (l rest : string) :
  no_linebreak l = true ->
  Str.splitlines (l +:+ String "010" rest) = l :: Str.splitlines rest.
Proof.
  induction l as [|c l IH]; [intros _; rewrite app_empty; reflexivity|].
  unfold no_linebreak. cbn [all_in]. intros H.
  apply andb_true_iff in H as [Hc Hl]. apply negb_true_iff in Hc.
  rewrite app_cons. cbn [Str.splitlines]. rewrite Hc, (IH Hl). reflexivity.
Qed.

Lemma splitlines_last (l : string) :
  no_linebreak l = true -> l <> "" -> Str.splitlines l = [l].
Proof.
  induction l as [|c l IH]; [intros _ H; contradiction|].
  unfold no_linebreak. cbn [all_in]. intros H _.
  apply andb_true_iff in H as [Hc Hl]. apply negb_true_iff in Hc.
  cbn [Str.splitlines]. rewrite Hc.
  destruct l as [|d l']; [reflexivity|].
  rewrite (IH Hl) by discriminate. reflexivity.
Qed.

(** The lines that the loop of a parser gets from an output that holds
    lines without a boundary inside, none of them blank: the same lines, up
    to the white space that was trimmed from the two ends of the output. *)
Lemma rstrip_unlines (lines : list string) :
  lines <> [] ->
  Forall (fun l => Str.rstrip l <> "" /\ no_linebreak l = true) lines ->
  Str.rstrip (unlines lines) <> ""
  /\ Forall2 (fun line l' => l' = line \/ l' = Str.rstrip line) lines
       (Str.splitlines (Str.rstrip (unlines lines))).
Proof.
  induction lines as [|l [|l2 ls] IH]; [intros H; contradiction| |];
    intros _ Hall; apply Forall_cons in Hall as [[Hne Hlb] Hall].
  - cbn [unlines]. rewrite rstrip_newline. split; [exact Hne|].
    rewrite splitlines_last; [|apply all_in_rstrip, Hlb|exact Hne].
    constructor; [right; reflexivity|constructor].
  - destruct (IH ltac:(discriminate) Hall) as [Hu Hrest].
    change (unlines (l :: l2 :: ls))
      with (l +:+ String "010" (unlines (l2 :: ls))).
    assert (Str.rstrip (String "010" (unlines (l2 :: ls)))
            = String "010" (Str.rstrip (unlines (l2 :: ls)))) as Hn.
    { cbn [Str.rstrip].
      destruct (Str.rstrip (unlines (l2 :: ls))); [contradiction|].
      cbn [Str.is_empty]. rewrite andb_false_r. reflexivity. }
    rewrite rstrip_app by (rewrite Hn; discriminate). rewrite Hn.
    split.
    + destruct l; [rewrite app_empty|rewrite app_cons]; discriminate.
    + rewrite (splitlines_line _ _ Hlb).
      constructor; [left; reflexivity|exact Hrest].
Qed.

Lemma strip_unlines (lines : list string) :
  Forall (fun l => Str.strip l <> "" /\ no_linebreak l = true) lines ->
  Forall2 (fun line l' => Str.strip l' = Str.strip line) lines
    (Str.splitlines (Str.strip (unlines lines))).
Proof.
  destruct lines as [|l ls]; [intros _; constructor|].
  intros Hall.
  assert (Forall (fun l => Str.rstrip l <> "" /\ no_linebreak l = true) ls)
    as Hls.
  { apply Forall_cons in Hall as [_ Hall]. eapply Forall_impl; [exact Hall|].
    intros x [Hx Hlb]. split; [|exact Hlb]. intros E. apply Hx.
    unfold Str.strip. rewrite <- lstrip_rstrip, E. reflexivity. }
  apply Forall_cons in Hall as [[Hne Hlb] _].
  assert (Str.lstrip l <> "") as Hl.
  { intros E. apply Hne. unfold Str.strip. rewrite E. reflexivity. }
  change (Str.strip (unlines (l :: ls)))
    with (Str.rstrip (Str.lstrip (l +:+ String "010" (unlines ls)))).
  rewrite (lstrip_app _ _ Hl).
  change (Str.lstrip l +:+ String "010" (unlines ls))
    with (unlines (Str.lstrip l :: ls)).
  destruct (rstrip_unlines (Str.lstrip l :: ls)) as [_ H]; [discriminate| |].
  { apply Forall_cons. split; [|exact Hls].
    split; [exact Hne|apply all_in_lstrip, Hlb]. }
  destruct (Str.splitlines (Str.rstrip (unlines (Str.lstrip l :: ls))))
    as [|y ys]; inversion H as [|? ? ? ? Hxy Hrest]; subst.
  constructor.
  - destruct Hxy as [->| ->]; [apply strip_lstrip|].
    rewrite strip_rstrip. apply strip_lstrip.
  - eapply Forall2_impl; [exact Hrest|].
    intros x' y' [->| ->]; [reflexivity|apply strip_rstrip].
Qed.

(** *** The mark of the current branch *)

Lemma no_star_head (s : string) :
  no_star s = true -> Str.startswith s "*" = false.
Proof.
  intros H. destruct (Str.startswith s "*") eqn:E; [|reflexivity].
  apply startswith_inv in E. rewrite E, app_cons in H. discriminate H.
Qed.

Lemma no_star_removeprefix (s p : string) :
  no_star s = true -> no_star (Str.removeprefix s p) = true.
Proof.
  intros H. unfold Str.removeprefix.
  destruct (Str.startswith s p); [apply all_in_drop, H|exact H].
Qed.

(** The text that the loop body goes on with has no [*], and neither has
    the name it takes from it. *)
Lemma parse_branch_line_name (line : string) (b : GitBranch) :
  parse_branch_line line = Ok b ->
  no_star (if Str.startswith (Str.strip line) "*"
           then Str.strip (Str.drop 2 (Str.strip line))
           else Str.strip line) = true ->
  no_star (name b) = true.
Proof.
  unfold parse_branch_line.
  generalize (Str.startswith (Str.strip line) "*") as cur. intros cur.
  generalize (if cur then Str.strip (Str.drop 2 (Str.strip line))
              else Str.strip line) as l. intros l.
  destruct (Str.contains "->" l).
  - destruct (Str.split_once "->" l) as [[n t]|] eqn:En; [|discriminate].
    destruct (Str.startswith (Str.strip n) "remotes/").
    + destruct (second_segment (Str.strip n)); cbn; [|discriminate].
      intros [= <-] Hl. cbn [name].
      apply no_star_removeprefix, all_in_strip, (all_in_split_once _ _ _ _ _ En Hl).
    + cbn. intros [= <-] Hl. cbn [name].
      apply no_star_removeprefix, all_in_strip, (all_in_split_once _ _ _ _ _ En Hl).
  - destruct (Str.startswith l "remotes/").
    + destruct (second_segment l); cbn; [|discriminate].
      intros [= <-] Hl. cbn [name]. apply no_star_removeprefix, Hl.
    + cbn. intros [= <-] Hl. cbn [name]. apply no_star_removeprefix, Hl.
Qed.

Lemma startswith_cons (c : ascii) (s p : string) :
  Str.startswith (String c s) (String c p) = Str.startswith s p.
Proof.
  unfold Str.startswith. cbn [String.prefix].
  destruct (ascii_dec c c); [reflexivity|contradiction].
Qed.

Lemma startswith_cons_ne (c d : ascii) (s p : string) :
  c <> d -> Str.startswith (String c s) (String d p) = false.
Proof.
  intros H. unfold Str.startswith. cbn [String.prefix].
  destruct (ascii_dec d c) as [->|]; [contradiction|reflexivity].
Qed.

Lemma listing_line_mark (line : string) :
  listing_line line ->
  Str.strip line <> ""
  /\ no_linebreak line = true
  /\ Str.startswith (Str.strip line) "*" = Str.startswith line "* "
  /\ no_star (if Str.startswith (Str.strip line) "*"
              then Str.strip (Str.drop 2 (Str.strip line))
              else Str.strip line) = true.
Proof.
  intros (mark & text & -> & Hm & Hne & Hlb & Hst).
  destruct Hm as [->|[->| ->]]; rewrite !app_cons, app_empty.
  - assert (Str.strip (String "*" (String " " text))
            = String "*" (Str.rstrip (String " " text))) as -> by reflexivity.
    rewrite !startswith_cons, !startswith_empty.
    split; [discriminate|]. split; [exact Hlb|]. split; [reflexivity|].
    apply all_in_strip. apply (all_in_drop _ 1 (Str.rstrip (String " " text))).
    apply all_in_rstrip. exact Hst.
  - assert (Str.strip (String " " (String " " text)) = Str.strip text)
      as -> by reflexivity.
    rewrite (no_star_head _ (all_in_strip _ _ Hst)).
    rewrite (startswith_cons_ne " " "*") by discriminate.
    split; [exact Hne|]. split; [exact Hlb|].
    split; [reflexivity|]. apply all_in_strip, Hst.
  - assert (Str.strip (String "+" (String " " text))
            = String "+" (Str.rstrip (String " " text))) as -> by reflexivity.
    rewrite !(startswith_cons_ne "+" "*") by discriminate.
    split; [discriminate|]. split; [exact Hlb|]. split; [reflexivity|].
    change (no_star (Str.rstrip (String " " text)) = true).
    apply all_in_rstrip. exact Hst.
Qed.

Lemma Forall2_with_left {A B : Type} (P : A -> Prop) (R : A -> B -> Prop)
    (l : list A) (k : list B) :
  Forall P l -> Forall2 R l k -> Forall2 (fun x y => P x /\ R x y) l k.
Proof.
  intros HP HR. induction HR as [|x y l k Hxy HR IH]; [constructor|].
  apply Forall_cons in HP as [Hx HP]. constructor; auto.
Qed.

(** C9. In a listing of branches as the tool prints it, a line that starts
    with the mark [* ] gives a branch that is the current one and whose name
    has no [*] left, so it does not start with the mark; every other line
    gives a branch that is not the current one. The parse returns one
    branch for every line. *)
Theorem current_branch_marker (lines : list string) :
  Forall listing_line lines ->
  exists bs,
    parse_git_branches (unlines lines) = Ok bs
    /\ Forall2 (fun line b =>
         if Str.startswith line "* "
         then is_current b = true
              /\ no_star (name b) = true
              /\ Str.startswith (name b) "* " = false
         else is_current b = false) lines bs.
Proof.
  intros Hall. unfold parse_git_branches.
  destruct (for_each_total parse_branch_line
              (Str.splitlines (Str.strip (unlines lines)))
              parse_branch_line_total) as (bs & E & Hbs).
  exists bs. split; [exact E|].
  assert (Forall2 (fun line l' => listing_line line
                                  /\ Str.strip l' = Str.strip line) lines
            (Str.splitlines (Str.strip (unlines lines)))) as Hlines.
  { apply Forall2_with_left; [exact Hall|]. apply strip_unlines.
    eapply Forall_impl; [exact Hall|]. intros l Hl.
    destruct (listing_line_mark l Hl) as (H1 & H2 & _). auto. }
  eapply Forall2_trans; [|exact Hlines|exact Hbs].
  intros line l' b [Hl Hs] Hb. cbn in Hb.
  destruct (listing_line_mark line Hl) as (_ & _ & Hcur & Hstar).
  pose proof (parse_branch_line_current l' b Hb) as Hc.
  pose proof (parse_branch_line_name l' b Hb) as Hn.
  rewrite Hs in Hc, Hn. rewrite Hcur in Hc. specialize (Hn Hstar).
  destruct (Str.startswith line "* "); [|exact Hc].
  split; [exact Hc|]. split; [exact Hn|].
  destruct (Str.startswith (name b) "* ") eqn:E'; [|reflexivity].
  apply startswith_inv in E'. rewrite E', !app_cons in Hn. discriminate Hn.
Qed.

(** ** The unified diff parse *)

Lemma count_lines_app p (l1 l2 : list string) :
  count_lines p (l1 ++ l2) = count_lines p l1 + count_lines p l2.
Proof. induction l1 as [|x l1 IH]; cbn; [reflexivity|]. rewrite IH. lia. Qed.

Lemma add_content_ok (line : string) (h : DiffHunk) :
  counts_ok h -> counts_ok (add_content line h).
Proof.
  intros [Ha Hr]. unfold add_content, counts_ok.
  fold (is_added line). fold (is_removed line).
  destruct (is_added line) eqn:Eadd.
  - assert (is_removed line = false) as Erem.
    { unfold is_added, is_removed in *. apply andb_true_iff in Eadd as [E _].
      rewrite (startswith_first_ne line "" "" "+" "-") by (discriminate || exact E).
      reflexivity. }
    cbn. rewrite !count_lines_app. cbn. rewrite Eadd, Erem. lia.
  - destruct (is_removed line) eqn:Erem; cbn; rewrite !count_lines_app; cbn;
      rewrite Eadd, Erem; lia.
Qed.

Lemma append_hunk_ok (st : DiffParse) :
  parse_ok st -> forall f, append_hunk st = Some f -> file_ok f.
Proof.
  intros (_ & Hf & Hh) f. unfold append_hunk.
  destruct (current_hunk st) as [h|], (current_file st) as [g|]; intros E;
    try discriminate; try (apply Hf; exact E).
  injection E as <-. unfold file_ok. cbn.
  apply Forall_app. split; [apply (Hf g eq_refl)|].
  apply Forall_cons_2; [apply (Hh h eq_refl)|apply Forall_nil_2].
Qed.

Lemma append_file_ok (fs : list DiffFile) (f : option DiffFile) :
  Forall file_ok fs -> (forall g, f = Some g -> file_ok g) ->
  Forall file_ok (append_file fs f).
Proof.
  intros Hfs Hf. destruct f as [g|]; cbn; [|exact Hfs].
  apply Forall_app. split; [exact Hfs|].
  apply Forall_cons_2; [auto|apply Forall_nil_2].
Qed.

Lemma diff_parse_init_ok : parse_ok diff_parse_init.
Proof.
  unfold parse_ok; cbn. split; [apply Forall_nil_2|].
  split; discriminate.
Qed.

Lemma diff_step_ok (st st' : DiffParse) (line : string) :
  parse_ok st -> diff_step st line = Ok st' -> parse_ok st'.
Proof.
  intros Hst. pose proof Hst as (Hfs & Hf & Hh). unfold diff_step.
  destruct (Str.startswith line "diff --git").
  { intros [= <-]. split; [|split]; cbn.
    - apply append_file_ok; [exact Hfs|apply append_hunk_ok, Hst].
    - intros f [= <-]. apply Forall_nil_2.
    - discriminate. }
  destruct (Str.startswith line "new file mode").
  { intros [= <-]. split; [|split]; cbn; auto.
    destruct (current_file st) as [g|]; cbn; intros f [= <-]. apply (Hf g eq_refl). }
  destruct (Str.startswith line "deleted file mode").
  { intros [= <-]. split; [|split]; cbn; auto.
    destruct (current_file st) as [g|]; cbn; intros f [= <-]. apply (Hf g eq_refl). }
  destruct (Str.startswith line "--- " || Str.startswith line "+++ ").
  { destruct (current_file st) as [g|] eqn:Eg; [|intros [= <-]; exact Hst].
    destruct (negb (Str.truthy (file_path g))); [|intros [= <-]; exact Hst].
    destruct (Str.startswith line "+++ b/");
      [|destruct (Str.startswith line "--- a/"); [|intros [= <-]; exact Hst]];
      intros [= <-]; (split; [|split]); cbn; auto;
      intros f [= <-]; apply (Hf g eq_refl). }
  destruct (Str.startswith line "@@").
  { destruct (parse_hunk_header (Str.strip line)) as [[[[a b] c] d]|e]; cbn;
      [|discriminate].
    intros [= <-]. split; [|split]; cbn; auto.
    - apply append_hunk_ok, Hst.
    - intros h [= <-]. split; reflexivity. }
  destruct (current_hunk st) as [h|] eqn:Eh; intros [= <-]; [|exact Hst].
  split; [|split]; cbn; auto.
  intros h' [= <-]. apply add_content_ok, (Hh h eq_refl).
Qed.

Lemma diff_loop_ok (lines : list string) (st st' : DiffParse) :
  parse_ok st -> diff_loop st lines = Ok st' -> parse_ok st'.
Proof.
  revert st. induction lines as [|line rest IH]; intros st Hst; cbn.
  - intros [= <-]. exact Hst.
  - destruct (diff_step st line) as [st1|e] eqn:E; cbn; [|discriminate].
    apply IH. eapply diff_step_ok; eauto.
Qed.

Lemma parse_diff_ok (out : string) (fs : list DiffFile) :
  parse_diff out = Ok fs -> Forall file_ok fs.
Proof.
  unfold parse_diff.
  destruct (diff_loop diff_parse_init (Str.splitlines out)) as [st|e] eqn:E;
    cbn; [|discriminate].
  intros [= <-]. apply diff_loop_ok in E; [|apply diff_parse_init_ok].
  unfold diff_finish. apply append_file_ok; [apply E|apply append_hunk_ok, E].
Qed.

(** C4. In every diff that [get_git_diff] or [get_commit_diff] returns,
    whatever text the tool printed, each hunk's count of added lines is the
    number of its content lines that start with + but not with +++, and its
    count of removed lines the number of those that start with - but not
    with ---. *)
Theorem hunk_counts_match_content
    (run : string -> list string -> Completed) (repo a b : string)
    (flags : GitFlags) (paths : option (list string)) (d : GitDiff) :
  get_git_diff run repo a b flags paths = Ok d
  \/ get_commit_diff run repo a flags paths = Ok d ->
  Forall (fun f =>
    Forall (fun h =>
      added_lines h = count_lines is_added (content h)
      /\ removed_lines h = count_lines is_removed (content h)) (hunks f))
    (files d).
Proof.
  intros [H|H]; revert H; unfold get_git_diff, get_commit_diff;
    match goal with
    | |- context [communicate ?r ?w ?c ?p] => destruct (communicate r w c p) as [out|e]
    end; cbn; try discriminate;
    destruct (parse_diff out) as [fs|e] eqn:E; cbn; try discriminate;
    intros [= <-]; cbn; apply (parse_diff_ok out fs E).
Qed.

(** *** The path of a file *)






(** ** The session engine *)

Section EngineFacts.

Variable run : string -> list string -> Completed.
Variable datetime : Type.
Variable fromisoformat : string -> result datetime.

Local Abbreviation handle := (handle_client_msg run datetime fromisoformat).
Local Abbreviation handle_loop :=
  (handle_client_msg_loop run datetime fromisoformat).

Lemma preserves_ret {A} P (a : A) : preserves P (ret datetime a).
Proof. intros s H. exact H. Qed.

Lemma preserves_lift {A} P (r : result A) : preserves P (lift datetime r).
Proof. intros s H. exact H. Qed.

Lemma preserves_put P msg : preserves P (put datetime msg).
Proof. intros s H. exact H. Qed.

Lemma preserves_ev_set P : preserves P (ev_set datetime).
Proof. intros s H. exact H. Qed.

Lemma preserves_ev_clear P : preserves P (ev_clear datetime).
Proof. intros s H. exact H. Qed.

Lemma preserves_update (P : SessionState -> Prop) f :
  (forall st, P st -> P (f st)) -> preserves P (update datetime f).
Proof. intros Hf s H. cbn. auto. Qed.

Lemma preserves_bind {A B} P (m : M datetime A) (k : A -> M datetime B) :
  preserves P m -> (forall a, preserves P (k a)) ->
  preserves P (bind datetime m k).
Proof.
  intros Hm Hk s H. unfold bind.
  specialize (Hm s H). destruct (m s) as [s' [a|e]]; cbn in *.
  - apply Hk, Hm.
  - exact Hm.
Qed.

Lemma preserves_if {A} P (b : bool) (m1 m2 : M datetime A) :
  preserves P m1 -> preserves P m2 -> preserves P (if b then m1 else m2).
Proof. destruct b; auto. Qed.

Local Ltac keeps :=
  repeat first
    [ apply preserves_bind; [ | intros ? ]
    | apply preserves_if
    | apply preserves_ret | apply preserves_lift | apply preserves_put
    | apply preserves_ev_set | apply preserves_ev_clear ].

Lemma send_diff_keeps P paths st : preserves P (send_diff run datetime paths st).
Proof. unfold send_diff. keeps. Qed.

Lemma send_diff_summary_keeps P st :
  preserves P (send_diff_summary run datetime st).
Proof. unfold send_diff_summary. keeps. Qed.

Lemma send_repo_data_keeps P r b :
  preserves P (send_repo_data run datetime fromisoformat r b).
Proof. unfold send_repo_data. keeps. Qed.

(** A pass of the change watcher writes nothing to the session state. *)
Lemma handle_state_changes_keeps P state_prev :
  preserves P (handle_state_changes run datetime state_prev).
Proof.
  unfold handle_state_changes.
  apply preserves_bind; [apply preserves_put|intros _].
  intros s H. unfold bind at 1, get_state. cbn [fst snd].
  revert s H. apply preserves_bind; [|intros _; apply preserves_ev_clear].
  intros s0. apply preserves_if.
  - apply preserves_bind; [apply send_diff_summary_keeps|intros _].
    destruct (open_paths _); [apply preserves_ret|apply send_diff_keeps].
  - apply preserves_if; [apply send_diff_keeps|apply preserves_ret].
Qed.

(** Every command keeps the context line count at or above zero. *)
Lemma handle_keeps_ctx msg :
  preserves (fun st => 0 <= context_lines (git_flags st)) (handle msg).
Proof.
  destruct msg; cbn [handle_client_msg];
    try solve [ keeps;
                try (apply preserves_update; intros st H; cbn; lia);
                try apply send_repo_data_keeps;
                try apply send_diff_keeps ].
  (* context-dec: the guard is what keeps the count from going below zero *)
  intros s H. unfold bind, get_state. cbn [fst snd].
  destruct (0 <? context_lines (git_flags (state s))) eqn:E; cbn.
  - apply Z.ltb_lt in E. lia.
  - exact H.
Qed.

Lemma handle_loop_keeps P msgs :
  (forall msg, preserves P (handle msg)) -> preserves P (handle_loop msgs).
Proof.
  intros Hh. induction msgs as [|msg rest IH]; cbn [handle_client_msg_loop].
  - apply preserves_ret.
  - apply preserves_bind; auto.
Qed.

(** What the three context commands do to a session. *)
Lemma context_inc_effect (s : Session datetime) :
  handle MsgContextInc s =
  (mkSession (with_git_flags (set_context_lines (ctx s + 1) (git_flags (state s)))
                (state s)) (q_tx s) true, Ok tt).
Proof. reflexivity. Qed.

Lemma context_dec_effect (s : Session datetime) :
  handle MsgContextDec s =
  if 0 <? ctx s then
    (mkSession (with_git_flags (set_context_lines (ctx s - 1) (git_flags (state s)))
                  (state s)) (q_tx s) true, Ok tt)
  else (s, Ok tt).
Proof.
  cbn. unfold bind, get_state, ctx. cbn.
  destruct (0 <? context_lines (git_flags (state s))); reflexivity.
Qed.

Lemma context_reset_effect (s : Session datetime) :
  handle MsgContextReset s =
  if ctx s =? 3 then (s, Ok tt)
  else
    (mkSession (with_git_flags (set_context_lines 3 (git_flags (state s)))
                  (state s)) (q_tx s) true, Ok tt).
Proof.
  cbn. unfold bind, get_state, ctx. cbn.
  destruct (context_lines (git_flags (state s)) =? 3); reflexivity.
Qed.

(** C8. From the initial session state, whose context line count is 3, the
    count is at least 0 after every sequence of commands, whether the
    sequence runs to its end or stops at a command that raises. In every
    session reached that way context-inc adds 1, context-dec subtracts 1
    unless the count is 0 and then leaves it, and context-reset makes it 3,
    leaving the whole session untouched when it is 3 already. *)
Theorem context_lines_never_negative (msgs : list (Msg datetime)) :
  let s := fst (handle_loop msgs (session_init datetime)) in
  ctx (session_init datetime) = 3
  /\ 0 <= ctx s
  /\ ctx (fst (handle MsgContextInc s)) = ctx s + 1
  /\ ctx (fst (handle MsgContextDec s)) = (if ctx s =? 0 then 0 else ctx s - 1)
  /\ ctx (fst (handle MsgContextReset s)) = 3
  /\ (if ctx s =? 3 then handle MsgContextReset s = (s, Ok tt) else True).
Proof.
  intros s.
  assert (Hs : 0 <= ctx s).
  { apply (handle_loop_keeps (fun st => 0 <= context_lines (git_flags st))).
    - apply handle_keeps_ctx.
    - cbn. lia. }
  split; [reflexivity|]. split; [exact Hs|].
  rewrite context_inc_effect, context_dec_effect, context_reset_effect.
  repeat split.
  - destruct (0 <? ctx s) eqn:E1, (ctx s =? 0) eqn:E2; cbn [fst]; unfold ctx in *;
      cbn; try reflexivity; lia.
  - destruct (ctx s =? 3) eqn:E; cbn [fst]; unfold ctx in *; cbn; lia.
  - destruct (ctx s =? 3); auto.
Qed.

(** *** Expanded paths *)

Lemma mem_spec (x : string) (l : list string) : mem x l = true <-> x ∈ l.
Proof.
  unfold mem. induction l as [|y l IH]; cbn.
  - split; [discriminate | intros H; inversion H].
  - rewrite orb_true_iff, IH, String.eqb_eq, elem_of_cons. tauto.
Qed.

Lemma mem_false (x : string) (l : list string) : mem x l = false <-> x ∉ l.
Proof.
  rewrite <- mem_spec. destruct (mem x l); split; intros H; try discriminate;
    try reflexivity; exfalso; apply H; reflexivity.
Qed.

Lemma remove_first_absent (x : string) (l : list string) :
  x ∉ l -> remove_first x l = l.
Proof.
  induction l as [|y l IH]; cbn; intros H; [reflexivity|].
  apply not_elem_of_cons in H as [Hxy Hl].
  destruct (String.eqb x y) eqn:E.
  - apply String.eqb_eq in E. contradiction.
  - f_equal. auto.
Qed.

Lemma elem_of_remove_first (x z : string) (l : list string) :
  z ∈ remove_first x l -> z ∈ l.
Proof.
  induction l as [|y l IH]; cbn; [auto|].
  destruct (String.eqb x y); rewrite !elem_of_cons; intuition.
Qed.

Lemma NoDup_remove_first (x : string) (l : list string) :
  NoDup l -> NoDup (remove_first x l).
Proof.
  induction 1 as [|y l Hy Hl IH]; cbn; [constructor|].
  destruct (String.eqb x y); [exact Hl|].
  constructor; [|exact IH]. intros Hin. apply Hy.
  eapply elem_of_remove_first, Hin.
Qed.

Lemma remove_first_set (x : string) (l : list string) :
  NoDup l ->
  (list_to_set (remove_first x l) : gset string) = list_to_set l ∖ {[ x ]}.
Proof.
  induction 1 as [|y l Hy Hl IH]; cbn.
  - set_solver.
  - destruct (String.eqb x y) eqn:E.
    + apply String.eqb_eq in E. subst y.
      assert (x ∉ (list_to_set l : gset string)) by (rewrite elem_of_list_to_set; exact Hy).
      set_solver.
    + apply String.eqb_neq in E. cbn. rewrite IH. set_solver.
Qed.

Lemma list_apply_NoDup (l : list string) (o : PathOp) :
  NoDup l -> NoDup (list_apply l o).
Proof.
  intros Hl. destruct o as [p|p]; cbn.
  - destruct (mem p l) eqn:E; [exact Hl|].
    apply mem_false in E. apply NoDup_app. repeat split; auto.
    + intros x Hx Hx'. apply list_elem_of_singleton in Hx'. subst. contradiction.
    + apply NoDup_singleton.
  - apply NoDup_remove_first, Hl.
Qed.

Lemma list_apply_set (l : list string) (o : PathOp) :
  NoDup l ->
  (list_to_set (list_apply l o) : gset string) = set_apply (list_to_set l) o.
Proof.
  intros Hl. destruct o as [p|p]; cbn.
  - destruct (mem p l) eqn:E.
    + apply mem_spec in E.
      assert (p ∈ (list_to_set l : gset string)) by (rewrite elem_of_list_to_set; exact E).
      set_solver.
    + rewrite list_to_set_app_L. cbn. set_solver.
  - apply remove_first_set, Hl.
Qed.

Lemma open_path_effect p (s : Session datetime) :
  handle (MsgOpenPath p) s =
  (mkSession (with_open_paths (list_apply (open_paths (state s)) (Expand p))
                (state s)) (q_tx s) true, Ok tt).
Proof.
  cbn. unfold bind, get_state. cbn.
  destruct (mem p (open_paths (state s))); cbn; [|reflexivity].
  destruct s as [[] ? ?]; reflexivity.
Qed.

Lemma close_path_effect p (s : Session datetime) :
  handle (MsgClosePath p) s =
  (mkSession (with_open_paths (list_apply (open_paths (state s)) (Collapse p))
                (state s)) (q_tx s)
     (if mem p (open_paths (state s)) then true else ev_state_change s), Ok tt).
Proof.
  cbn. unfold bind, get_state. cbn.
  destruct (mem p (open_paths (state s))) eqn:E; cbn; [reflexivity|].
  apply mem_false in E. rewrite remove_first_absent by exact E.
  destruct s as [[] ? ?]; reflexivity.
Qed.

Lemma path_cmds_effect (ops : list PathOp) (s : Session datetime) :
  snd (handle_loop (map path_cmd ops) s) = Ok tt
  /\ open_paths (state (fst (handle_loop (map path_cmd ops) s)))
     = foldl list_apply (open_paths (state s)) ops.
Proof.
  revert s. induction ops as [|o ops IH]; intros s; cbn [map handle_client_msg_loop foldl].
  - split; reflexivity.
  - unfold bind.
    destruct o as [p|p]; cbn [path_cmd];
      [rewrite open_path_effect | rewrite close_path_effect];
      match goal with |- context [handle_loop _ ?s'] => specialize (IH s') end;
      exact IH.
Qed.

Lemma foldl_list_apply_NoDup (ops : list PathOp) (l : list string) :
  NoDup l -> NoDup (foldl list_apply l ops).
Proof.
  revert l. induction ops as [|o ops IH]; intros l Hl; cbn; [exact Hl|].
  apply IH, list_apply_NoDup, Hl.
Qed.

Lemma foldl_list_apply_set (ops : list PathOp) (l : list string) :
  NoDup l ->
  (list_to_set (foldl list_apply l ops) : gset string)
  = foldl set_apply (list_to_set l) ops.
Proof.
  revert l. induction ops as [|o ops IH]; intros l Hl; cbn; [reflexivity|].
  rewrite IH by (apply list_apply_NoDup, Hl).
  rewrite list_apply_set by exact Hl. reflexivity.
Qed.

(** C7, as amended. A sequence of open-path and close-path commands, applied
    to a session whose expanded paths hold no duplicate, runs to its end
    without raising; the expanded paths then still hold no duplicate, and as
    a set they are the net effect of the operations taken in order (expand
    adds the path, collapse removes it). Expanding a path that is present
    and collapsing a path that is absent leave the expanded paths as they
    are. *)
Theorem expanded_paths_net_effect (ops : list PathOp) (s : Session datetime) :
  NoDup (open_paths (state s)) ->
  let r := handle_loop (map path_cmd ops) s in
  let final := open_paths (state (fst r)) in
  snd r = Ok tt
  /\ NoDup final
  /\ (list_to_set final : gset string)
     = foldl set_apply (list_to_set (open_paths (state s))) ops
  /\ (forall p, p ∈ final ->
        open_paths (state (fst (handle (MsgOpenPath p) (fst r)))) = final)
  /\ (forall p, p ∉ final ->
        open_paths (state (fst (handle (MsgClosePath p) (fst r)))) = final).
Proof.
  intros Hnd r final.
  destruct (path_cmds_effect ops s) as [Hok Hfin].
  fold r in Hok, Hfin. fold final in Hfin.
  split; [exact Hok|]. rewrite Hfin.
  split; [apply foldl_list_apply_NoDup, Hnd|].
  split; [apply foldl_list_apply_set, Hnd|].
  rewrite <- Hfin. split; intros p Hp.
  - rewrite open_path_effect. cbn. fold final.
    apply mem_spec in Hp. rewrite Hp. reflexivity.
  - rewrite close_path_effect. cbn. fold final.
    apply remove_first_absent, Hp.
Qed.

(** *** Diff targets *)

(** C10. With endpoint A unset, whatever endpoint B is, and likewise with no
    repository selected, [send_diff] and [send_diff_summary] return without
    raising and leave the session as it was: the send queue gets no diff and
    no diff-summary event. *)
Theorem no_endpoint_a_no_diff (paths : option (list string))
    (st : SessionState) (s : Session datetime) :
  st_commit_a st = None \/ repo st = None ->
  send_diff run datetime paths st s = (s, Ok tt)
  /\ send_diff_summary run datetime st s = (s, Ok tt).
Proof.
  intros [H|H]; unfold send_diff, send_diff_summary; rewrite H; cbn;
    rewrite ?andb_false_r; cbn; split; reflexivity.
Qed.

(** The diff that a get-diff command asks the tool for. *)
Lemma send_diff_effect (paths : option (list string)) (st : SessionState)
    (s : Session datetime) :
  send_diff run datetime paths st s =
  if truthy_opt (repo st) && truthy_opt (st_commit_a st) then
    match (if truthy_opt (st_commit_b st)
           then get_git_diff run (the (repo st)) (the (st_commit_a st))
                  (the (st_commit_b st)) (git_flags st) paths
           else get_commit_diff run (the (repo st)) (the (st_commit_a st))
                  (git_flags st) paths) with
    | Ok diff =>
        (mkSession (state s)
           (q_tx s ++ [MsgDiff diff (bool_decide (paths <> None))])
           (ev_state_change s), Ok tt)
    | Raise e => (s, Raise e)
    end
  else (s, Ok tt).
Proof.
  unfold send_diff.
  destruct (truthy_opt (repo st) && truthy_opt (st_commit_a st)) eqn:E1;
    destruct (truthy_opt (st_commit_b st)) eqn:E2; cbn [andb];
    unfold bind, lift, put, ret;
    repeat match goal with
           | |- context [match ?r with Ok _ => _ | Raise _ => _ end] =>
               destruct r
           end; reflexivity.
Qed.

(** The two diff functions in terms of the one call of the tool. *)
Lemma get_git_diff_run (repo a b : string) (flags : GitFlags)
    (paths : option (list string)) :
  get_git_diff run repo a b flags paths
  = let proc := run repo (("git" :: "diff" :: view_options flags
                             ++ space_option flags ++ [a; b])
                          ++ path_args paths) in
    if returncode proc =? 0 then
      match parse_diff (stdout proc) with
      | Ok fs => Ok (mkGitDiff a b fs)
      | Raise e => Raise e
      end
    else Raise (RuntimeError ("Git diff failed: " +:+ stderr proc)).
Proof.
  unfold get_git_diff, communicate, view_options, space_option.
  destruct (ignore_all_space flags); cbn [app];
    destruct (returncode _ =? 0); cbn [negb rbind]; try reflexivity;
    destruct (parse_diff _); reflexivity.
Qed.

Lemma get_commit_diff_run (repo commit : string) (flags : GitFlags)
    (paths : option (list string)) :
  get_commit_diff run repo commit flags paths
  = let proc := run repo (("git" :: "show" :: view_options flags
                             ++ "--pretty=format:" :: space_option flags)
                          ++ path_args paths) in
    if returncode proc =? 0 then
      match parse_diff (stdout proc) with
      | Ok fs => Ok (mkGitDiff commit commit fs)
      | Raise e => Raise e
      end
    else Raise (RuntimeError ("Git show failed: " +:+ stderr proc)).
Proof.
  unfold get_commit_diff, communicate, view_options, space_option.
  destruct (ignore_all_space flags); cbn [app];
    destruct (returncode _ =? 0); cbn [negb rbind]; try reflexivity;
    destruct (parse_diff _); reflexivity.
Qed.

(** C2, as amended. Handling get-diff changes no field of the session state
    and does not signal a change. When the repository or endpoint A is
    unset, nothing is pushed. Otherwise what happens is given by one run of
    the tool in the repository: [git diff] with the view options and the
    endpoints A and B when B is set, [git show] when it is not; in both
    cases the command ends with [--] and the path list of the command when
    that list is not empty, and has no path filter when the list is empty
    or none was given, whatever paths are open. When the tool exits with
    status 0 and its output parses, exactly one diff event is pushed, which
    holds the files parsed from the output and whose partial flag is true
    exactly when a path list was given; otherwise nothing is pushed and the
    command raises. *)
Theorem get_diff_effect (s : Session datetime) :
  let st := state s in
  exists opts : list string,
    (if truthy_opt (st_commit_b st)
     then opts = "git" :: "diff" :: view_options (git_flags st)
                   ++ space_option (git_flags st)
                   ++ [the (st_commit_a st); the (st_commit_b st)]
     else exists rest, opts = "git" :: "show" :: rest)
    /\ forall paths : option (list string),
         let r := handle (MsgGetDiff paths) s in
         let filter := match paths with
                       | Some (p :: ps) => "--" :: p :: ps
                       | _ => []
                       end in
         let proc := run (the (repo st)) (opts ++ filter) in
         state (fst r) = st
         /\ ev_state_change (fst r) = ev_state_change s
         /\ if truthy_opt (repo st) && truthy_opt (st_commit_a st) then
              if returncode proc =? 0 then
                match parse_diff (stdout proc) with
                | Ok fs =>
                    exists d,
                      files d = fs
                      /\ (truthy_opt (st_commit_b st) = true ->
                          from_commit d = the (st_commit_a st)
                          /\ to_commit d = the (st_commit_b st))
                      /\ q_tx (fst r)
                         = q_tx s ++ [MsgDiff d (bool_decide (paths <> None))]
                      /\ snd r = Ok tt
                | Raise e => q_tx (fst r) = q_tx s /\ snd r = Raise e
                end
              else
                q_tx (fst r) = q_tx s
                /\ exists what,
                     snd r = Raise (RuntimeError (what +:+ " failed: " +:+ stderr proc))
            else q_tx (fst r) = q_tx s /\ snd r = Ok tt.
Proof.
  intros st.
  assert (forall paths, fst (handle (MsgGetDiff paths) s)
                        = fst (send_diff run datetime paths st s)
                        /\ snd (handle (MsgGetDiff paths) s)
                           = snd (send_diff run datetime paths st s)) as Hh.
  { intros paths. cbn [handle_client_msg]. unfold bind, get_state. cbn [fst snd].
    fold st. destruct (send_diff run datetime paths st s) as [s' [[]|e]];
      split; reflexivity. }
  destruct (truthy_opt (st_commit_b st)) eqn:EB.
  - eexists. split; [reflexivity|].
    intros paths r filter proc. subst r. destruct (Hh paths) as [-> ->].
    rewrite send_diff_effect, EB.
    destruct (truthy_opt (repo st) && truthy_opt (st_commit_a st));
      [|cbn; auto].
    rewrite get_git_diff_run. unfold path_args. fold filter. cbv zeta. fold proc.
    destruct (returncode proc =? 0).
    + destruct (parse_diff (stdout proc)) as [fs|e]; cbn; [|auto].
      split; [reflexivity|]. split; [reflexivity|].
      exists (mkGitDiff (the (st_commit_a st)) (the (st_commit_b st)) fs).
      split; [reflexivity|]. split; [auto|]. split; reflexivity.
    + cbn. split; [reflexivity|]. split; [reflexivity|]. split; [reflexivity|].
      exists "Git diff". reflexivity.
  - exists ("git" :: "show" :: view_options (git_flags st)
              ++ "--pretty=format:" :: space_option (git_flags st)).
    split; [eexists; reflexivity|].
    intros paths r filter proc. subst r. destruct (Hh paths) as [-> ->].
    rewrite send_diff_effect, EB.
    destruct (truthy_opt (repo st) && truthy_opt (st_commit_a st));
      [|cbn; auto].
    rewrite get_commit_diff_run. unfold path_args. fold filter. cbv zeta. fold proc.
    destruct (returncode proc =? 0).
    + destruct (parse_diff (stdout proc)) as [fs|e]; cbn; [|auto].
      split; [reflexivity|]. split; [reflexivity|].
      exists (mkGitDiff (the (st_commit_a st)) (the (st_commit_a st)) fs).
      split; [reflexivity|]. split; [discriminate|]. split; reflexivity.
    + cbn. split; [reflexivity|]. split; [reflexivity|]. split; [reflexivity|].
      exists "Git show". reflexivity.
Qed.

(** *** The change watcher *)

Lemma new_paths_of_same (l : list string) : new_paths_of l l = ∅.
Proof. unfold new_paths_of. set_solver. Qed.

(** C1, the failing input. Endpoint B was unset at the snapshot and is now
    set, to the value that endpoint A has: the watcher pushes the
    session-state echo and nothing else, no change summary and no diff of
    the expanded path, although a repository and endpoint A are set. *)
Theorem watcher_misses_commit_b (q : list (Msg datetime)) :
  st_commit_b resync_now <> st_commit_b resync_prev
  /\ handle (MsgSetCommitB "abc1234") (mkSession resync_prev q false)
     = (mkSession resync_now q true, Ok tt)
  /\ handle_state_changes run datetime resync_prev (mkSession resync_now q true)
     = (mkSession resync_now (q ++ [MsgSessionState]) false, Ok tt).
Proof.
  split; [discriminate|]. split; [reflexivity|].
  unfold handle_state_changes, bind, put, get_state, ev_clear. cbn.
  rewrite new_paths_of_same.
  rewrite bool_decide_eq_false_2 by (intros H; apply H; reflexivity).
  reflexivity.
Qed.

End EngineFacts.

(** A session with endpoint B set, endpoint A unset and a repository. *)
Lemma no_endpoint_a_no_diff_witness :
  let st := mkSessionState (Some "/srv/repo") (Some "main") None
              (Some "abc1234") ["a.txt"] default_flags in
  (st_commit_a st = None \/ repo st = None)
  /\ send_diff git_silent string (Some ["a.txt"]) st (session_init string)
     = (session_init string, Ok tt)
  /\ send_diff_summary git_silent string st (session_init string)
     = (session_init string, Ok tt).
Proof.
  intros st. split; [left; reflexivity|].
  apply (no_endpoint_a_no_diff git_silent string (Some ["a.txt"]) st).
  left; reflexivity.
Defined.

(** Expanding a, b and a again, then collapsing a and an absent c, from the
    initial session. *)
Lemma expanded_paths_net_effect_witness :
  let ops := [Expand "a"; Expand "b"; Expand "a"; Collapse "a"; Collapse "c"] in
  let s := session_init string in
  let r := handle_client_msg_loop git_silent string iso_text (map path_cmd ops) s in
  NoDup (open_paths (state s))
  /\ open_paths (state (fst r)) = ["b"]
  /\ (list_to_set (open_paths (state (fst r))) : gset string)
     = foldl set_apply (list_to_set (open_paths (state s))) ops.
Proof.
  intros ops s r. split; [constructor|]. split; [reflexivity|].
  apply (expanded_paths_net_effect git_silent string iso_text ops s).
  constructor.
Defined.

(** A listing of two local branches, the second one current, and the
    symbolic ref of a remote. *)
Lemma current_branch_marker_witness :
  let lines := ["  dev"; "* main"; "  remotes/origin/HEAD -> origin/main"] in
  Forall listing_line lines
  /\ exists bs,
       parse_git_branches (unlines lines) = Ok bs
       /\ map is_current bs = [false; true; false]
       /\ map name bs = ["dev"; "main"; "origin/HEAD"].
Proof.
  intros lines.
  assert (Forall listing_line lines) as H.
  { apply Forall_cons_2; [|apply Forall_cons_2; [|apply Forall_cons_2;
                                                   [|apply Forall_nil_2]]].
    - exists "  ", "dev". split; [reflexivity|]. split; [auto|].
      split; [discriminate|]. split; reflexivity.
    - exists "* ", "main". split; [reflexivity|]. split; [auto|].
      split; [discriminate|]. split; reflexivity.
    - exists "  ", "remotes/origin/HEAD -> origin/main".
      split; [reflexivity|]. split; [auto|].
      split; [discriminate|]. split; reflexivity. }
  split; [exact H|].
  destruct (current_branch_marker lines H) as (bs & E & _).
  exists bs. split; [exact E|].
  vm_compute in E. injection E as <-. split; reflexivity.
Defined.

(** C7, the counterexample. A set-open-paths command stores the list it is
    given, here one that names a.txt twice. The close-path command that
    follows takes one of the two entries away: a.txt is still expanded,
    whereas the net effect of collapsing a.txt on the set is the empty
    set. *)
Lemma expanded_paths_counterexample :
  let s := fst (handle_client_msg git_silent string iso_text
                  (MsgSetOpenPaths ["a.txt"; "a.txt"]) (session_init string)) in
  let ops := [Collapse "a.txt"] in
  let r := handle_client_msg_loop git_silent string iso_text (map path_cmd ops) s in
  open_paths (state s) = ["a.txt"; "a.txt"]
  /\ snd r = Ok tt
  /\ open_paths (state (fst r)) = ["a.txt"]
  /\ (list_to_set (open_paths (state (fst r))) : gset string)
     <> foldl set_apply (list_to_set (open_paths (state s))) ops.
Proof.
  intros s ops r. split; [reflexivity|]. split; [reflexivity|].
  split; [reflexivity|].
  assert (open_paths (state (fst r)) = ["a.txt"]) as -> by reflexivity.
  assert (open_paths (state s) = ["a.txt"; "a.txt"]) as -> by reflexivity.
  cbn [ops foldl set_apply]. intros H.
  assert ("a.txt" ∈ (list_to_set ["a.txt"] : gset string)) as Hin by set_solver.
  rewrite H in Hin. set_solver.
Qed.

(** A header with the heading of a section after the form. *)
Lemma parse_hunk_header_spec_witness :
  let header := "@@ -10,7 +12,9 @@ def f():" in
  hunk_form header "10" (Some "7") "12" (Some "9") " @@ def f():"
  /\ longest (Some "9") " @@ def f():"
  /\ parse_hunk_header header = Ok (10, 7, 12, 9).
Proof.
  intros header.
  assert (hunk_form header "10" (Some "7") "12" (Some "9") " @@ def f():") as Hf.
  { split; [split; [discriminate|reflexivity]|].
    split; [intros x [= <-]; split; [discriminate|reflexivity]|].
    split; [split; [discriminate|reflexivity]|].
    split; [intros x [= <-]; split; [discriminate|reflexivity]|].
    reflexivity. }
  assert (longest (Some "9") " @@ def f():") as Hl.
  { split; [reflexivity|discriminate]. }
  split; [exact Hf|]. split; [exact Hl|].
  destruct (parse_hunk_header_spec header) as (_ & H & _).
  rewrite (H _ _ _ _ _ Hf Hl). reflexivity.
Defined.

(** C3, the counterexample. A header whose first numeral has 4301 digits
    starts with the form, yet [parse_hunk_header] does not return, and what
    it raises is not the invalid-hunk-header error but the [ValueError] of
    [int] for a literal that is too long. *)
Lemma parse_hunk_header_counterexample :
  matches_hunk_form long_header
  /\ parse_hunk_header long_header = Raise (Str.digit_limit_error 4301)
  /\ Str.digit_limit_error 4301
     <> ValueError ("Invalid hunk header: " +:+ long_header).
Proof.
  assert (hunk_form long_header (copies 4301 "1") None "1" None " @@") as Hf.
  { split; [split; [intros H; vm_compute in H; discriminate H
                   |vm_compute; reflexivity]|].
    split; [intros x [=]|].
    split; [split; [discriminate|reflexivity]|].
    split; [intros x [=]|]. vm_compute. reflexivity. }
  assert (longest None " @@") as Hl.
  { split; [reflexivity|]. intros _ t H.
    rewrite app_cons, app_empty in H. discriminate H. }
  split; [exists (copies 4301 "1"), None, "1", None, " @@"; exact Hf|].
  split.
  - rewrite (parse_hunk_header_form _ _ _ _ _ _ Hf Hl). vm_compute. reflexivity.
  - intros H. vm_compute in H. discriminate H.
Qed.

(** C2, the counterexample. In the initial session, which has no repository,
    a get-diff command pushes no event at all; and in a session whose only
    expanded path is a.txt, a get-diff command without a path list pushes
    the diff of the whole change, b.txt included. *)
Lemma get_diff_counterexample :
  q_tx (fst (handle_client_msg git_two_files string iso_text (MsgGetDiff None)
               (session_init string))) = []
  /\ exists d,
       q_tx (fst (handle_client_msg git_two_files string iso_text
                    (MsgGetDiff None) (mkSession one_open_path [] false)))
       = [MsgDiff d false]
       /\ map file_path (files d) = ["a.txt"; "b.txt"].
Proof.
  split; [reflexivity|].
  eexists. split; vm_compute; reflexivity.
Qed.

(** A patch of two files from the sample tool. *)
Lemma hunk_counts_match_content_witness :
  exists d,
    get_git_diff git_two_files "/srv/repo" "abc1234" "def5678" default_flags None
    = Ok d
    /\ length (files d) = 2%nat
    /\ Forall (fun f =>
         Forall (fun h =>
           added_lines h = count_lines is_added (content h)
           /\ removed_lines h = count_lines is_removed (content h)) (hunks f))
         (files d).
Proof.
  eexists. split; [vm_compute; reflexivity|]. split; [reflexivity|].
  apply (hunk_counts_match_content git_two_files "/srv/repo" "abc1234" "def5678"
           default_flags None).
  left. vm_compute. reflexivity.
Defined.



(** The line of a new file. *)
Lemma compact_summary_change_type_witness :
  let line := " new_file.py (new) | 25 +++++++++++++++++++++++++" in
  occurs "|" line
  /\ exists fc, parse_compact_summary_line line = Some fc.
Proof.
  intros line.
  assert (occurs "|" line) as Hocc.
  { exists " new_file.py (new) ", " 25 +++++++++++++++++++++++++". reflexivity. }
  split; [exact Hocc|].
  destruct (proj1 compact_summary_change_type line Hocc)
    as (fc & _ & _ & Hfc & _).
  exists fc. exact Hfc.
Defined.

(** * Further properties *)

(** ** The outbound batcher *)

Section Batcher.

Context {D : Type}.
Implicit Types (st : SendLoop D) (turns : list (Waited D)).

Lemma send_loop_cons max st w turns :
  send_loop max st (w :: turns) =
  (fst (send_loop max (fst (send_loop_turn max st w)) turns),
   match snd (send_loop_turn max st w) with
   | Some b => b :: snd (send_loop max (fst (send_loop_turn max st w)) turns)
   | None => snd (send_loop max (fst (send_loop_turn max st w)) turns)
   end).
Proof.
  cbn [send_loop]. destruct (send_loop_turn max st w) as [st' sent].
  cbn [fst snd]. destruct (send_loop max st' turns) as [st'' more]. reflexivity.
Qed.

Lemma send_loop_app max st turns1 turns2 :
  send_loop max st (turns1 ++ turns2) =
  (fst (send_loop max (fst (send_loop max st turns1)) turns2),
   snd (send_loop max st turns1)
   ++ snd (send_loop max (fst (send_loop max st turns1)) turns2)).
Proof.
  revert st. induction turns1 as [|w turns1 IH]; intros st.
  - cbn. destruct (send_loop max st turns2); reflexivity.
  - rewrite <- app_comm_cons, !send_loop_cons, IH. cbn [fst snd].
    destruct (snd (send_loop_turn max st w)); reflexivity.
Qed.

(** What one turn does to the messages in hand. *)
Lemma send_loop_turn_keeps max st w :
  match snd (send_loop_turn max st w) with
  | Some b => b ++ buffer (fst (send_loop_turn max st w))
  | None => buffer (fst (send_loop_turn max st w))
  end = buffer st ++ received [w].
Proof.
  unfold send_loop_turn.
  destruct w as [d|]; cbn [buffer timeout received];
    match goal with |- context [if ?c then _ else _] => destruct c end;
    cbn [fst snd buffer]; rewrite ?List.app_nil_r; reflexivity.
Qed.

Lemma received_cons (w : Waited D) turns :
  received (w :: turns) = received [w] ++ received turns.
Proof. destruct w; reflexivity. Qed.

(** X1. The batcher neither loses, repeats nor reorders a message: the
    payloads written, one after the other, followed by what is still in the
    buffer, are the messages the buffer held at the start followed by the
    messages taken from the queue, in the order they were taken. *)
Theorem send_loop_preserves_order (max : Z) st turns :
  concat (snd (send_loop max st turns)) ++ buffer (fst (send_loop max st turns))
  = buffer st ++ received turns.
Proof.
  revert st. induction turns as [|w turns IH]; intros st.
  - cbn. rewrite List.app_nil_r. reflexivity.
  - rewrite send_loop_cons, received_cons. cbn [fst snd].
    pose proof (send_loop_turn_keeps max st w) as Hturn.
    specialize (IH (fst (send_loop_turn max st w))).
    destruct (snd (send_loop_turn max st w)) as [b|].
    + cbn [concat]. rewrite <- List.app_assoc, IH, List.app_assoc, Hturn, <- List.app_assoc.
      reflexivity.
    + rewrite IH, Hturn, <- List.app_assoc. reflexivity.
Qed.

Lemma send_loop_turn_bounds max st w :
  1 <= max -> Z.of_nat (length (buffer st)) < max ->
  Z.of_nat (length (buffer (fst (send_loop_turn max st w)))) < max
  /\ match snd (send_loop_turn max st w) with
     | Some b => (1 <= Z.of_nat (length b) <= max)
     | None => True
     end.
Proof.
  intros Hmax Hlen. unfold send_loop_turn.
  destruct w as [d|]; cbn [buffer timeout].
  - destruct (max <=? Z.of_nat (length (buffer st ++ [d]))) eqn:E; cbn [orb].
    + cbn [fst snd buffer length]. rewrite List.length_app in *. cbn [length] in *.
      split; lia.
    + apply Z.leb_gt in E.
      destruct (timeout st && nonempty (buffer st ++ [d]));
        cbn [fst snd buffer length]; rewrite ?List.length_app in *; cbn [length] in *;
        split; lia.
  - destruct (max <=? Z.of_nat (length (buffer st))) eqn:E; cbn [orb andb].
    + apply Z.leb_le in E. lia.
    + destruct (buffer st) as [|x l] eqn:Eb; cbn [nonempty fst snd buffer];
        [cbn; split; [lia|exact I]|].
      cbn [length] in *. split; [cbn; lia|lia].
Qed.

(** X2. With a positive chunk size and a buffer that starts below it, every
    payload written holds at least one message and at most the chunk size,
    and the buffer stays below the chunk size. *)
Theorem send_loop_chunk_bounds (max : Z) st turns :
  1 <= max -> Z.of_nat (length (buffer st)) < max ->
  Forall (fun b => (1 <= Z.of_nat (length b) <= max))
    (snd (send_loop max st turns))
  /\ Z.of_nat (length (buffer (fst (send_loop max st turns)))) < max.
Proof.
  intros Hmax. revert st. induction turns as [|w turns IH]; intros st Hlen.
  - cbn. split; [apply Forall_nil_2|exact Hlen].
  - rewrite send_loop_cons. cbn [fst snd].
    destruct (send_loop_turn_bounds max st w Hmax Hlen) as [Hlen' Hb].
    destruct (IH _ Hlen') as [Hall Hfin].
    split; [|exact Hfin].
    destruct (snd (send_loop_turn max st w)); [apply Forall_cons_2|]; assumption.
Qed.

(** Messages that arrive without a time-out in between and do not fill the
    buffer are only collected. *)
Lemma send_loop_collects max (b ds : list D) :
  Z.of_nat (length b + length ds) < max ->
  send_loop max (mkSendLoop b false) (map Got ds)
  = (mkSendLoop (b ++ ds) false, []).
Proof.
  revert b. induction ds as [|d ds IH]; intros b Hlen.
  - cbn. rewrite List.app_nil_r. reflexivity.
  - cbn [map]. rewrite send_loop_cons. unfold send_loop_turn.
    cbn [buffer timeout andb orb].
    assert ((max <=? Z.of_nat (length (b ++ [d]))) = false) as ->.
    { apply Z.leb_gt. rewrite List.length_app. cbn [length] in *. lia. }
    cbn [orb fst snd]. rewrite IH.
    + rewrite <- List.app_assoc. reflexivity.
    + rewrite List.length_app. cbn [length] in *. lia.
Qed.

(** X3. When as many messages as the chunk size arrive without a time-out
    in between, the first payload written is exactly these messages, and
    the loop goes on as from its start. *)
Theorem send_loop_first_chunk (max : Z) (ds : list D) turns :
  1 <= max -> Z.of_nat (length ds) = max ->
  send_loop max send_loop_init (map Got ds ++ turns)
  = (fst (send_loop max send_loop_init turns),
     ds :: snd (send_loop max send_loop_init turns)).
Proof.
  intros Hmax Hlen.
  destruct (exists_last (l := ds)) as (front & d & ->).
  { intros ->. cbn in Hlen. lia. }
  rewrite List.length_app in Hlen. cbn [length] in Hlen.
  rewrite map_app, <- List.app_assoc. cbn [map app].
  rewrite send_loop_app. unfold send_loop_init at 1 2 3.
  rewrite send_loop_collects by (cbn [length]; lia).
  cbn [fst snd app]. rewrite send_loop_cons. unfold send_loop_turn.
  cbn [buffer timeout].
  assert ((max <=? Z.of_nat (length (front ++ [d]))) = true) as ->.
  { apply Z.leb_le. rewrite List.length_app. cbn [length]. lia. }
  cbn [orb fst snd]. reflexivity.
Qed.

Lemma send_loop_turn_idle max (f : bool) :
  1 <= max ->
  send_loop_turn max (mkSendLoop (@nil D) f) TimedOut = (mkSendLoop [] true, None).
Proof.
  intros Hmax. unfold send_loop_turn. cbn [buffer timeout length].
  replace (max <=? Z.of_nat 0) with false by (symmetry; apply Z.leb_gt; lia).
  reflexivity.
Qed.

Lemma send_loop_idle max (n : nat) :
  1 <= max -> (0 < n)%nat ->
  send_loop max send_loop_init (replicate n (@TimedOut D))
  = (mkSendLoop [] true, []).
Proof.
  intros Hmax Hn. unfold send_loop_init. generalize false as f.
  destruct n as [|k]; [lia|]. clear Hn.
  induction k as [|k IH]; intros f.
  - cbn [replicate]. rewrite send_loop_cons, send_loop_turn_idle by exact Hmax.
    reflexivity.
  - change (replicate (S (S k)) (@TimedOut D))
      with (@TimedOut D :: replicate (S k) TimedOut).
    rewrite send_loop_cons, send_loop_turn_idle by exact Hmax.
    cbn [fst snd]. rewrite IH. reflexivity.
Qed.

(** X4. The time-out flag is not cleared by a time-out that finds the buffer
    empty: after an idle wait of any length, the next message is written at
    once, as a payload of its own. *)
Theorem send_loop_after_idle (max : Z) (n : nat) (d : D) :
  1 <= max -> (0 < n)%nat ->
  send_loop max send_loop_init (replicate n TimedOut ++ [Got d])
  = (send_loop_init, [[d]]).
Proof.
  intros Hmax Hn. rewrite send_loop_app, send_loop_idle by assumption.
  cbn [fst snd app]. rewrite send_loop_cons. unfold send_loop_turn.
  cbn [buffer timeout app andb nonempty]. rewrite orb_true_r. reflexivity.
Qed.

End Batcher.

(** ** The unified diff parse, continued *)

(** The outcomes of [parse_hunk_header]. *)
Lemma first_over_limit_some (l : list string) (x : string) :
  first_over_limit l = Some x ->
  (Str.int_max_str_digits < String.length x)%nat.
Proof.
  induction l as [|y l IH]; cbn [first_over_limit]; [discriminate|].
  destruct (within_limit y) eqn:E; [exact IH|].
  intros [= <-]. unfold within_limit in E. apply Nat.leb_gt in E. exact E.
Qed.

Lemma parse_hunk_header_ok_inv (header : string) (r : Z * Z * Z * Z) :
  parse_hunk_header header = Ok r ->
  exists a b c d rest,
    hunk_form header a b c d rest /\ longest d rest
    /\ first_over_limit (numerals a b c d) = None
    /\ r = (number a, count_value b, number c, count_value d).
Proof.
  intros Hr.
  destruct (Re.match_ hunk_header_re header) as [x|] eqn:E.
  - apply parse_hunk_header_match in E as (a & b & c & d & rest & Hf & Hl & Hp).
    exists a, b, c, d, rest. rewrite Hr in Hp.
    destruct (first_over_limit (numerals a b c d)); [discriminate|].
    injection Hp as ->. auto.
  - unfold parse_hunk_header in Hr. rewrite E in Hr. discriminate.
Qed.

Lemma parse_hunk_header_raise (header : string) (e : exn) :
  parse_hunk_header header = Raise e ->
  (e = ValueError ("Invalid hunk header: " +:+ header) /\ ~ matches_hunk_form header)
  \/ (matches_hunk_form header
      /\ exists n, (Str.int_max_str_digits < n)%nat /\ e = Str.digit_limit_error n).
Proof.
  intros Hr.
  destruct (Re.match_ hunk_header_re header) as [x|] eqn:E.
  - right.
    apply parse_hunk_header_match in E as (a & b & c & d & rest & Hf & Hl & Hp).
    split; [exists a, b, c, d, rest; exact Hf|].
    rewrite Hr in Hp.
    destruct (first_over_limit (numerals a b c d)) as [n|] eqn:En; [|discriminate].
    injection Hp as ->. exists (String.length n).
    split; [apply (first_over_limit_some _ _ En)|reflexivity].
  - left. unfold parse_hunk_header in Hr. rewrite E in Hr. injection Hr as <-.
    split; [reflexivity|].
    intros (a & b & c & d & rest & Hform).
    exact (hunk_match_some _ _ _ _ _ _ Hform E).
Qed.

Lemma parse_hunk_header_ok_iff (header : string) :
  (exists r, parse_hunk_header header = Ok r) <-> hunk_header_ok header.
Proof.
  split.
  - intros [r Hr]. apply parse_hunk_header_ok_inv in Hr
      as (a & b & c & d & rest & Hf & Hl & Hn & _).
    exists a, b, c, d, rest. auto.
  - intros (a & b & c & d & rest & Hf & Hl & Hn).
    rewrite (parse_hunk_header_form _ _ _ _ _ _ Hf Hl), Hn. eauto.
Qed.

Lemma digit_value_nonneg (c : ascii) : Str.isdigit c = true -> 0 <= Str.digit_value c.
Proof.
  unfold Str.isdigit, Str.digit_value. intros H.
  apply andb_true_iff in H as [H _]. apply Nat.leb_le in H. lia.
Qed.

Lemma decimal_nonneg (s : string) (acc : Z) :
  0 <= acc -> all_in Str.isdigit s = true -> 0 <= decimal acc s.
Proof.
  revert acc. induction s as [|c s IH]; intros acc Hacc Hd; cbn in *; [exact Hacc|].
  apply andb_true_iff in Hd as [Hc Hs]. apply IH; [|exact Hs].
  pose proof (digit_value_nonneg c Hc). lia.
Qed.

Lemma count_value_nonneg (n : option string) : is_count n -> 0 <= count_value n.
Proof.
  destruct n as [x|]; cbn; [|lia]. intros H. destruct (H x eq_refl) as [_ Hd].
  apply decimal_nonneg; [lia|exact Hd].
Qed.

Lemma parse_hunk_header_nonneg (header : string) (a b c d : Z) :
  parse_hunk_header header = Ok (a, b, c, d) ->
  0 <= a /\ 0 <= b /\ 0 <= c /\ 0 <= d.
Proof.
  intros E. apply parse_hunk_header_ok_inv in E
    as (x & y & z & w & rest & (Hx & Hy & Hz & Hw & _) & _ & _ & E).
  injection E as -> -> -> ->.
  repeat split;
    try (apply decimal_nonneg; [lia|apply Hx || apply Hz]);
    apply count_value_nonneg; assumption.
Qed.

(** A line that opens a hunk takes none of the branches before. *)
Lemma hunk_line_branch (line : string) :
  Str.startswith line "@@" = true ->
  Str.startswith line "diff --git" = false
  /\ Str.startswith line "new file mode" = false
  /\ Str.startswith line "deleted file mode" = false
  /\ Str.startswith line "--- " || Str.startswith line "+++ " = false.
Proof.
  intros H.
  rewrite (startswith_first_ne line _ "iff --git" "@" "d" ltac:(discriminate) H).
  rewrite (startswith_first_ne line _ "ew file mode" "@" "n" ltac:(discriminate) H).
  rewrite (startswith_first_ne line _ "eleted file mode" "@" "d" ltac:(discriminate) H).
  rewrite (startswith_first_ne line _ "-- " "@" "-" ltac:(discriminate) H).
  rewrite (startswith_first_ne line _ "++ " "@" "+" ltac:(discriminate) H).
  auto.
Qed.

(** The only turn of the loop that can raise is a hunk line with a header
    that does not parse. *)
Lemma diff_step_raise (st : DiffParse) (line : string) (e : exn) :
  diff_step st line = Raise e ->
  Str.startswith line "@@" = true
  /\ parse_hunk_header (Str.strip line) = Raise e.
Proof.
  unfold diff_step.
  destruct (Str.startswith line "diff --git"); [discriminate|].
  destruct (Str.startswith line "new file mode"); [discriminate|].
  destruct (Str.startswith line "deleted file mode"); [discriminate|].
  destruct (Str.startswith line "--- " || Str.startswith line "+++ ").
  { destruct (current_file st) as [f|]; [|discriminate].
    destruct (negb (Str.truthy (file_path f))); [|discriminate].
    destruct (Str.startswith line "+++ b/"); [discriminate|].
    destruct (Str.startswith line "--- a/"); discriminate. }
  destruct (Str.startswith line "@@").
  - destruct (parse_hunk_header (Str.strip line)) as [[[[a b] c] d]|e'];
      cbn; [discriminate|]. intros [= ->]. auto.
  - destruct (current_hunk st); discriminate.
Qed.

Lemma diff_step_hunk_line (st : DiffParse) (line : string) :
  Str.startswith line "@@" = true ->
  diff_step st line =
  try (old_start, old_count, new_start, new_count) :=
    parse_hunk_header (Str.strip line) in
  Ok {| dp_files := dp_files st;
        current_file := append_hunk st;
        current_hunk :=
          Some (mkDiffHunk (Str.strip line) old_start old_count
                  new_start new_count [] 0 0) |}.
Proof.
  intros H. destruct (hunk_line_branch line H) as (H1 & H2 & H3 & H4).
  unfold diff_step. rewrite H1, H2, H3, H4, H. reflexivity.
Qed.

Lemma diff_loop_ok_iff (lines : list string) (st : DiffParse) :
  (exists st', diff_loop st lines = Ok st')
  <-> Forall (fun l => Str.startswith l "@@" = true ->
                       hunk_header_ok (Str.strip l)) lines.
Proof.
  revert st. induction lines as [|line rest IH]; intros st; cbn [diff_loop].
  - split; [intros _; apply Forall_nil_2|eauto].
  - rewrite Forall_cons. destruct (diff_step st line) as [st1|e] eqn:E; cbn [rbind].
    + rewrite IH. split; [|tauto]. intros Hrest. split; [|exact Hrest].
      intros Hh. apply parse_hunk_header_ok_iff.
      rewrite (diff_step_hunk_line st line Hh) in E.
      destruct (parse_hunk_header (Str.strip line)); [eauto|discriminate].
    + split; [intros [st' H]; discriminate|]. intros [Hline _]. exfalso.
      apply diff_step_raise in E as [Hh E].
      apply Hline, parse_hunk_header_ok_iff in Hh as [r Hr]. congruence.
Qed.

Lemma diff_loop_raise (lines : list string) (st : DiffParse) (e : exn) :
  diff_loop st lines = Raise e ->
  exists l, l ∈ lines /\ Str.startswith l "@@" = true
    /\ parse_hunk_header (Str.strip l) = Raise e.
Proof.
  revert st. induction lines as [|line rest IH]; intros st; cbn [diff_loop];
    [discriminate|].
  destruct (diff_step st line) as [st1|e1] eqn:E; cbn [rbind].
  - intros H. destruct (IH _ H) as (l & Hl & Hrest). exists l.
    split; [apply elem_of_cons; auto|exact Hrest].
  - intros [= ->]. apply diff_step_raise in E as [Hh E]. exists line.
    split; [apply elem_of_cons; auto|]. split; [exact Hh|exact E].
Qed.

(** X5. The parse of a diff returns exactly when every line that starts with
    [@@] carries, once trimmed, a header of the hunk form none of whose
    numerals has more than 4300 digits. Otherwise it raises what
    [parse_hunk_header] raises on such a line: the invalid-hunk-header
    [ValueError] when the line has not the form, and the [ValueError] of
    [int] for a numeral of more than 4300 digits when it has. No other line
    can make it fail. *)
Theorem parse_diff_fails_only_on_headers (out : string) :
  ((exists fs, parse_diff out = Ok fs)
   <-> Forall (fun l => Str.startswith l "@@" = true ->
                        hunk_header_ok (Str.strip l)) (Str.splitlines out))
  /\ (forall e, parse_diff out = Raise e ->
      exists l, l ∈ Str.splitlines out /\ Str.startswith l "@@" = true
        /\ parse_hunk_header (Str.strip l) = Raise e
        /\ ((e = ValueError ("Invalid hunk header: " +:+ Str.strip l)
             /\ ~ matches_hunk_form (Str.strip l))
            \/ (matches_hunk_form (Str.strip l)
                /\ exists n, (4300 < n)%nat /\ e = Str.digit_limit_error n))).
Proof.
  unfold parse_diff. split.
  - rewrite <- (diff_loop_ok_iff (Str.splitlines out) diff_parse_init).
    destruct (diff_loop diff_parse_init (Str.splitlines out)); cbn [rbind];
      split; intros [x H]; try discriminate; eauto.
  - intros e.
    destruct (diff_loop diff_parse_init (Str.splitlines out)) eqn:E; cbn [rbind];
      [discriminate|]. intros [= ->].
    apply diff_loop_raise in E as (l & Hin & Hh & Hr).
    exists l. split; [exact Hin|]. split; [exact Hh|]. split; [exact Hr|].
    apply parse_hunk_header_raise, Hr.
Qed.

(** *** Invariants of the loop

    A property of hunks that holds of a fresh hunk and is kept by a content
    line, and a property of files that holds of a fresh file and is kept by
    what the loop does to a file, hold of everything the parse returns. *)

Section DiffInvariant.

Variable P : DiffHunk -> Prop.
Variable Q : DiffFile -> Prop.

Hypothesis P_new : forall line a b c d,
  Str.startswith line "@@" = true ->
  parse_hunk_header (Str.strip line) = Ok (a, b, c, d) ->
  P (mkDiffHunk (Str.strip line) a b c d [] 0 0).
Hypothesis P_add : forall line h,
  is_content_line line = true -> P h -> P (add_content line h).
Hypothesis Q_new : Q (mkDiffFile "" "modified" []).
Hypothesis Q_type : forall t f,
  t = "added" \/ t = "deleted" -> Q f -> Q (set_change_type t f).
Hypothesis Q_path : forall p f, Q f -> Q (set_file_path p f).
Hypothesis Q_hunk : forall f h,
  Q f -> Q (mkDiffFile (file_path f) (change_type f) (hunks f ++ [h])).

Local Abbreviation file_inv := (file_inv P Q).
Local Abbreviation loop_inv := (loop_inv P Q).

Lemma append_hunk_inv (st : DiffParse) :
  loop_inv st -> forall f, append_hunk st = Some f -> file_inv f.
Proof.
  intros (_ & Hf & Hh) f. unfold append_hunk.
  destruct (current_hunk st) as [h|], (current_file st) as [g|]; intros E;
    try discriminate; try (apply Hf; exact E).
  injection E as <-. destruct (Hf g eq_refl) as [Hq Hp].
  split; [apply Q_hunk, Hq|]. cbn.
  apply Forall_app. split; [exact Hp|].
  apply Forall_cons_2; [apply (Hh h eq_refl)|apply Forall_nil_2].
Qed.

Lemma append_file_inv (fs : list DiffFile) (f : option DiffFile) :
  Forall file_inv fs -> (forall g, f = Some g -> file_inv g) ->
  Forall file_inv (append_file fs f).
Proof.
  intros Hfs Hf. destruct f as [g|]; cbn; [|exact Hfs].
  apply Forall_app. split; [exact Hfs|].
  apply Forall_cons_2; [auto|apply Forall_nil_2].
Qed.

Lemma diff_step_inv (st st' : DiffParse) (line : string) :
  loop_inv st -> diff_step st line = Ok st' -> loop_inv st'.
Proof.
  intros Hst. pose proof Hst as (Hfs & Hf & Hh).
  destruct (Str.startswith line "@@") eqn:Ehunk.
  { rewrite (diff_step_hunk_line st line Ehunk).
    destruct (parse_hunk_header (Str.strip line)) as [[[[a b] c] d]|e] eqn:E;
      cbn; [|discriminate].
    intros [= <-]. split; [|split]; cbn; auto.
    - apply append_hunk_inv, Hst.
    - intros h [= <-]. apply P_new; assumption. }
  unfold diff_step. rewrite Ehunk.
  destruct (Str.startswith line "diff --git") eqn:E1.
  { intros [= <-]. split; [|split]; cbn.
    - apply append_file_inv; [exact Hfs|apply append_hunk_inv, Hst].
    - intros f [= <-]. split; [exact Q_new|apply Forall_nil_2].
    - discriminate. }
  destruct (Str.startswith line "new file mode") eqn:E2.
  { intros [= <-]. split; [|split]; cbn; auto.
    destruct (current_file st) as [g|]; cbn; intros f [= <-].
    destruct (Hf g eq_refl) as [Hq Hp]. split; [apply Q_type; auto|exact Hp]. }
  destruct (Str.startswith line "deleted file mode") eqn:E3.
  { intros [= <-]. split; [|split]; cbn; auto.
    destruct (current_file st) as [g|]; cbn; intros f [= <-].
    destruct (Hf g eq_refl) as [Hq Hp]. split; [apply Q_type; auto|exact Hp]. }
  destruct (Str.startswith line "--- " || Str.startswith line "+++ ") eqn:E4.
  { destruct (current_file st) as [g|] eqn:Eg; [|intros [= <-]; exact Hst].
    destruct (negb (Str.truthy (file_path g))); [|intros [= <-]; exact Hst].
    destruct (Hf g eq_refl) as [Hq Hp].
    destruct (Str.startswith line "+++ b/");
      [|destruct (Str.startswith line "--- a/"); [|intros [= <-]; exact Hst]];
      intros [= <-]; (split; [|split]); cbn; auto;
      intros f [= <-]; (split; [apply Q_path, Hq|exact Hp]). }
  destruct (current_hunk st) as [h|] eqn:Eh; intros [= <-]; [|exact Hst].
  split; [|split]; cbn; auto.
  intros h' [= <-]. apply P_add; [|apply (Hh h eq_refl)].
  unfold is_content_line. rewrite E1, E2, E3, E4, Ehunk. reflexivity.
Qed.

Lemma diff_loop_inv (lines : list string) (st st' : DiffParse) :
  loop_inv st -> diff_loop st lines = Ok st' -> loop_inv st'.
Proof.
  revert st. induction lines as [|line rest IH]; intros st Hst; cbn.
  - intros [= <-]. exact Hst.
  - destruct (diff_step st line) as [st1|e] eqn:E; cbn; [|discriminate].
    apply IH. eapply diff_step_inv; eauto.
Qed.

Lemma parse_diff_inv (out : string) (fs : list DiffFile) :
  parse_diff out = Ok fs -> Forall file_inv fs.
Proof.
  unfold parse_diff.
  destruct (diff_loop diff_parse_init (Str.splitlines out)) as [st|e] eqn:E;
    cbn; [|discriminate].
  intros [= <-]. apply diff_loop_inv in E.
  - unfold diff_finish. apply append_file_inv; [apply E|apply append_hunk_inv, E].
  - split; [apply Forall_nil_2|]. split; discriminate.
Qed.

End DiffInvariant.

Lemma add_content_header (line : string) (h : DiffHunk) :
  header (add_content line h) = header h
  /\ old_start (add_content line h) = old_start h
  /\ old_count (add_content line h) = old_count h
  /\ new_start (add_content line h) = new_start h
  /\ new_count (add_content line h) = new_count h
  /\ content (add_content line h) = content h ++ [line].
Proof.
  unfold add_content.
  destruct (Str.startswith line "+" && negb (Str.startswith line "+++"));
    [|destruct (Str.startswith line "-" && negb (Str.startswith line "---"))];
    cbn; auto 10.
Qed.

(** X6. Every hunk of a parsed diff keeps the header line it was opened
    with: parsing its header again gives its four numbers, and none of them
    is negative. *)
Theorem hunk_numbers_from_header (out : string) (fs : list DiffFile) :
  parse_diff out = Ok fs ->
  Forall (fun f =>
    Forall (fun h =>
      parse_hunk_header (header h)
      = Ok (old_start h, old_count h, new_start h, new_count h)
      /\ 0 <= old_start h /\ 0 <= old_count h
      /\ 0 <= new_start h /\ 0 <= new_count h) (hunks f)) fs.
Proof.
  intros H.
  eapply Forall_impl;
    [refine (parse_diff_inv
               (fun h => parse_hunk_header (header h)
                         = Ok (old_start h, old_count h, new_start h, new_count h)
                         /\ 0 <= old_start h /\ 0 <= old_count h
                         /\ 0 <= new_start h /\ 0 <= new_count h)
               (fun _ => True) _ _ I (fun _ _ _ _ => I) (fun _ _ _ => I)
               (fun _ _ _ => I) out fs H)
    |intros f [_ Hf]; exact Hf].
  - intros line a b c d _ E. cbn. split; [exact E|].
    apply (parse_hunk_header_nonneg _ _ _ _ _ E).
  - intros line h _ Hh.
    destruct (add_content_header line h) as (-> & -> & -> & -> & -> & _).
    exact Hh.
Qed.

(** X7. A hunk's content never holds a line that one of the earlier branches
    of the loop takes: no line starting with [--- ] or [+++ ] (so a removed
    line whose text starts with [-- ], or an added one whose text starts
    with [++ ], is left out of the hunk and of its counts), no mode line,
    no [diff --git] line and no [@@] line. The change type of every file is
    one of modified, added and deleted. *)
Theorem hunk_content_lines (out : string) (fs : list DiffFile) :
  parse_diff out = Ok fs ->
  Forall (fun f =>
    (change_type f = "modified" \/ change_type f = "added"
     \/ change_type f = "deleted")
    /\ Forall (fun h =>
         Forall (fun line => is_content_line line = true) (content h))
         (hunks f)) fs.
Proof.
  intros H.
  refine (parse_diff_inv
            (fun h => Forall (fun line => is_content_line line = true) (content h))
            (fun f => change_type f = "modified" \/ change_type f = "added"
                      \/ change_type f = "deleted")
            _ _ _ _ _ _ out fs H).
  - intros line a b c d _ _. apply Forall_nil_2.
  - intros line h Hline Hh.
    destruct (add_content_header line h) as (_ & _ & _ & _ & _ & ->).
    apply Forall_app. split; [exact Hh|].
    apply Forall_cons_2; [exact Hline|apply Forall_nil_2].
  - auto.
  - intros t f [-> | ->] _; cbn; auto.
  - intros p0 f Hf. exact Hf.
  - intros f h Hf. exact Hf.
Qed.

(** *** Files *)

Lemma diff_finish_length (st : DiffParse) :
  Z.of_nat (length (diff_finish st)) = files_so_far st.
Proof.
  unfold diff_finish, files_so_far, append_file, append_hunk.
  destruct (current_hunk st), (current_file st); cbn [length];
    rewrite ?List.length_app; cbn [length]; lia.
Qed.

Lemma append_hunk_some (st : DiffParse) :
  match append_hunk st, current_file st with
  | Some _, Some _ | None, None => True
  | _, _ => False
  end.
Proof. unfold append_hunk. destruct (current_hunk st), (current_file st); exact I. Qed.

Lemma diff_step_files (st st' : DiffParse) (line : string) :
  diff_step st line = Ok st' ->
  files_so_far st'
  = files_so_far st + (if Str.startswith line "diff --git" then 1 else 0).
Proof.
  unfold diff_step, files_so_far.
  pose proof (append_hunk_some st) as Ha.
  destruct (Str.startswith line "diff --git").
  { intros [= <-]. cbn. unfold append_file.
    destruct (append_hunk st), (current_file st); try contradiction;
      rewrite ?List.length_app; cbn [length]; lia. }
  destruct (Str.startswith line "new file mode");
    [intros [= <-]; cbn; destruct (current_file st); cbn; lia|].
  destruct (Str.startswith line "deleted file mode");
    [intros [= <-]; cbn; destruct (current_file st); cbn; lia|].
  destruct (Str.startswith line "--- " || Str.startswith line "+++ ").
  { destruct (current_file st) as [g|] eqn:Eg; [|intros [= <-]; rewrite Eg; lia].
    destruct (negb (Str.truthy (file_path g))); [|intros [= <-]; rewrite Eg; lia].
    destruct (Str.startswith line "+++ b/");
      [|destruct (Str.startswith line "--- a/"); [|intros [= <-]; rewrite Eg; lia]];
      intros [= <-]; cbn; lia. }
  destruct (Str.startswith line "@@").
  { destruct (parse_hunk_header (Str.strip line)) as [[[[a b] c] d]|e]; cbn;
      [|discriminate].
    intros [= <-]. cbn.
    destruct (append_hunk st), (current_file st); try contradiction; lia. }
  destruct (current_hunk st); intros [= <-]; cbn; lia.
Qed.

Lemma diff_loop_files (lines : list string) (st st' : DiffParse) :
  diff_loop st lines = Ok st' ->
  files_so_far st'
  = files_so_far st
    + count_lines (fun l => Str.startswith l "diff --git") lines.
Proof.
  revert st. induction lines as [|line rest IH]; intros st; cbn.
  - intros [= <-]. lia.
  - destruct (diff_step st line) as [st1|e] eqn:E; cbn; [|discriminate].
    intros H. rewrite (IH _ H), (diff_step_files _ _ _ E). lia.
Qed.

(** X8. A parsed diff has one file for every line that starts with
    [diff --git], no more and no fewer; an output without such a line gives
    no file at all, whatever else it holds. *)
Theorem one_file_per_header_line (out : string) (fs : list DiffFile) :
  parse_diff out = Ok fs ->
  Z.of_nat (length fs)
  = count_lines (fun l => Str.startswith l "diff --git") (Str.splitlines out).
Proof.
  unfold parse_diff.
  destruct (diff_loop diff_parse_init (Str.splitlines out)) as [st|e] eqn:E;
    cbn; [|discriminate].
  intros [= <-]. rewrite diff_finish_length, (diff_loop_files _ _ _ E).
  reflexivity.
Qed.

(** Lines before the first file header leave no file behind. *)
Lemma diff_loop_preamble (pre : list string) (st st' : DiffParse) :
  Forall (fun l => Str.startswith l "diff --git" = false) pre ->
  current_file st = None ->
  diff_loop st pre = Ok st' ->
  dp_files st' = dp_files st /\ current_file st' = None.
Proof.
  revert st. induction pre as [|line rest IH]; intros st Hpre Hf; cbn.
  - intros [= <-]. auto.
  - apply Forall_cons in Hpre as [Hline Hrest].
    destruct (diff_step st line) as [st1|e] eqn:E; cbn; [|discriminate].
    intros H.
    assert (dp_files st1 = dp_files st /\ current_file st1 = None) as [H1 H2].
    { revert E. unfold diff_step, append_hunk. rewrite Hline, Hf.
      destruct (Str.startswith line "new file mode"); [intros [= <-]; auto|].
      destruct (Str.startswith line "deleted file mode"); [intros [= <-]; auto|].
      destruct (Str.startswith line "--- " || Str.startswith line "+++ ");
        [intros [= <-]; auto|].
      destruct (Str.startswith line "@@").
      - destruct (parse_hunk_header (Str.strip line)) as [[[[a b] c] d]|e]; cbn;
          [|discriminate].
        intros [= <-]. cbn. destruct (current_hunk st); auto.
      - destruct (current_hunk st); intros [= <-]; auto. }
    destruct (IH st1 Hrest H2 H) as [H3 H4]. split; congruence.
Qed.

(** X9. What stands before the first [diff --git] line is not part of the
    result: when those lines pass the loop, the parse of the whole is the
    parse of the lines from the first [diff --git] line on. *)
Theorem preamble_is_ignored (pre : list string) (line : string)
    (rest : list string) (st : DiffParse) :
  Forall (fun l => Str.startswith l "diff --git" = false) pre ->
  Str.startswith line "diff --git" = true ->
  diff_loop diff_parse_init pre = Ok st ->
  parse_diff_lines (pre ++ line :: rest) = parse_diff_lines (line :: rest).
Proof.
  intros Hpre Hline Hloop. unfold parse_diff_lines.
  destruct (diff_loop_preamble pre diff_parse_init st Hpre eq_refl Hloop)
    as [Hfs Hf].
  assert (forall l1 l2 s,
            diff_loop s (l1 ++ l2) = try s' := diff_loop s l1 in diff_loop s' l2)
    as Happ.
  { induction l1 as [|x l1 IH]; intros l2 s; cbn; [reflexivity|].
    destruct (diff_step s x); cbn; [apply IH|reflexivity]. }
  rewrite Happ, Hloop. cbn [rbind diff_loop].
  assert (diff_step st line = diff_step diff_parse_init line) as ->; [|reflexivity].
  unfold diff_step, append_hunk. rewrite Hline, Hfs, Hf. cbn.
  destruct (current_hunk st); reflexivity.
Qed.

(** ** Branch and tag listings, continued *)

(** The remote is set exactly for a remote branch. *)
Lemma parse_branch_line_remote (line : string) (b : GitBranch) :
  parse_branch_line line = Ok b ->
  match remote b with
  | Some _ => is_remote b = true
  | None => is_remote b = false
  end.
Proof.
  unfold parse_branch_line.
  generalize (Str.startswith (Str.strip line) "*") as cur. intros cur.
  generalize (if cur then Str.strip (Str.drop 2 (Str.strip line))
              else Str.strip line) as l. intros l.
  destruct (Str.contains "->" l).
  - destruct (Str.split_once "->" l) as [[n t]|]; [|discriminate].
    destruct (Str.startswith (Str.strip n) "remotes/").
    + destruct (second_segment (Str.strip n)); cbn; [|discriminate].
      intros [= <-]. reflexivity.
    + cbn. intros [= <-]. reflexivity.
  - destruct (Str.startswith l "remotes/").
    + destruct (second_segment l); cbn; [|discriminate].
      intros [= <-]. reflexivity.
    + cbn. intros [= <-]. reflexivity.
Qed.

(** X10. [parse_git_branches] never raises, whatever the text: it returns
    one branch for every line of the trimmed text, an empty line included;
    each branch is the current one exactly when its trimmed line starts with
    [*], and has a remote exactly when it is a remote branch. *)
Theorem parse_git_branches_total (output : string) :
  exists bs,
    parse_git_branches output = Ok bs
    /\ Forall2 (fun line b =>
         is_current b = Str.startswith (Str.strip line) "*"
         /\ match remote b with
            | Some _ => is_remote b = true
            | None => is_remote b = false
            end) (Str.splitlines (Str.strip output)) bs.
Proof.
  unfold parse_git_branches.
  destruct (for_each_total parse_branch_line
              (Str.splitlines (Str.strip output)) parse_branch_line_total)
    as (bs & E & Hall).
  exists bs. split; [exact E|].
  eapply Forall2_impl; [exact Hall|]. intros line b Hb. cbn in Hb.
  split; [apply parse_branch_line_current, Hb
         |apply (parse_branch_line_remote line), Hb].
Qed.

Lemma lstrip_head (s : string) :
  match Str.lstrip s with
  | EmptyString => True
  | String c _ => Str.isspace c = false
  end.
Proof.
  induction s as [|c s IH]; cbn; [exact I|].
  destruct (Str.isspace c) eqn:E; [exact IH|exact E].
Qed.

Lemma strip_head (s : string) :
  match Str.strip s with
  | EmptyString => True
  | String c _ => Str.isspace c = false
  end.
Proof.
  unfold Str.strip. pose proof (lstrip_head s) as H.
  destruct (Str.lstrip s) as [|c r]; cbn; [exact I|].
  rewrite H. cbn. exact H.
Qed.

Lemma split_ws_once_name (s : string) :
  all_in not_space (fst (Str.split_ws_once s)) = true.
Proof.
  induction s as [|c s IH]; cbn; [reflexivity|].
  destruct (Str.isspace c) eqn:E; [reflexivity|].
  destruct (Str.split_ws_once s) as [t r]. cbn in *.
  unfold not_space at 1. rewrite E, IH. reflexivity.
Qed.

(** X11. [parse_git_tags] returns one tag for every line that is not blank,
    and the name of every tag is non-empty and free of white space. *)
Theorem parse_git_tags_names (output : string) :
  Z.of_nat (length (parse_git_tags output))
  = count_lines not_blank (Str.splitlines (Str.strip output))
  /\ Forall (fun t => tag_name t <> "" /\ all_in not_space (tag_name t) = true)
       (parse_git_tags output).
Proof.
  unfold parse_git_tags.
  induction (Str.splitlines (Str.strip output)) as [|line rest [IHn IHf]];
    cbn [parse_git_tags_lines count_lines].
  - split; [reflexivity|apply Forall_nil_2].
  - unfold not_blank at 1, Str.truthy.
    pose proof (strip_head line) as Hh.
    destruct (Str.strip line) as [|c r] eqn:E; cbn [Str.is_empty negb].
    + split; [lia|exact IHf].
    + pose proof (split_ws_once_name (String c r)) as Hn.
      cbn [Str.split_ws_once] in *. rewrite Hh in *.
      destruct (Str.split_ws_once r) as [t m]. cbn [fst] in Hn.
      cbn [length]. split; [lia|].
      apply Forall_cons_2; [|exact IHf]. cbn. split; [discriminate|exact Hn].
Qed.

(** ** The compact summary, continued *)

Lemma count_nonneg (c : ascii) (s : string) : 0 <= Str.count c s.
Proof.
  induction s as [|d s IH]; cbn; [lia|]. destruct (Ascii.eqb c d); lia.
Qed.

(** X12. [parse_compact_summary_line] gives no entry exactly for the lines
    without a [|], the blank ones among them. *)
Theorem summary_line_skipped (line : string) :
  parse_compact_summary_line line = None <-> ~ occurs "|" line.
Proof.
  rewrite <- contains_occurs, <- (contains_char_strip "|" line) by reflexivity.
  destruct (Str.contains "|" (Str.strip line)) eqn:Hc.
  - split; [|intros H; exfalso; apply H; reflexivity].
    destruct (occurs_split_once "|" (Str.strip line)) as (lft & rgt & Hs);
      [apply contains_occurs, Hc|].
    destruct (summary_line_fields line lft rgt Hc Hs) as (fc & -> & _).
    discriminate.
  - split; [intros _; discriminate|]. intros _.
    unfold parse_compact_summary_line. rewrite Hc.
    destruct (negb (Str.truthy (Str.strip line))); reflexivity.
Qed.

(** X13. In every entry of the compact summary the mode change is unset; a
    binary entry has no count; the three counts are set together or not at
    all; and the additions and deletions, when set, are the numbers of [+]
    and of [-] characters of the trimmed text on the right of the first
    [|], so they are not negative. *)
Theorem summary_line_counts (line : string) (fc : FileChange) :
  parse_compact_summary_line line = Some fc ->
  exists lft rgt,
    Str.split_once "|" (Str.strip line) = Some (lft, rgt)
    /\ mode_change fc = None
    /\ is_binary fc = Str.startswith (Str.strip rgt) "Bin"
    /\ (is_binary fc = true ->
        additions fc = None /\ deletions fc = None /\ changes fc = None)
    /\ ((additions fc = None /\ deletions fc = None /\ changes fc = None)
        \/ (exists n, changes fc = Some n
            /\ additions fc = Some (Str.count "+" (Str.strip rgt))
            /\ deletions fc = Some (Str.count "-" (Str.strip rgt))
            /\ 0 <= Str.count "+" (Str.strip rgt)
            /\ 0 <= Str.count "-" (Str.strip rgt))).
Proof.
  unfold parse_compact_summary_line.
  destruct (negb (Str.truthy (Str.strip line))); [discriminate|].
  destruct (negb (Str.contains "|" (Str.strip line))); [discriminate|].
  destruct (Str.split_once "|" (Str.strip line)) as [[lft rgt]|]; [|discriminate].
  destruct (file_part_fields (Str.strip lft)) as [[p t] o].
  destruct (Str.startswith (Str.strip rgt) "Bin") eqn:Eb.
  - intros [= <-]. exists lft, rgt. cbn. rewrite Eb. auto 10.
  - unfold summary_counts.
    destruct (Str.split_ws (Str.strip rgt)) as [|part0 parts];
      [|destruct (Str.int part0) as [n|]];
      intros [= <-]; exists lft, rgt; cbn; rewrite Eb;
      (split; [reflexivity|]); (split; [reflexivity|]); (split; [reflexivity|]);
      (split; [discriminate|]); auto.
    right. exists n. pose proof (count_nonneg "+" (Str.strip rgt)).
    pose proof (count_nonneg "-" (Str.strip rgt)). auto 10.
Qed.

Lemma add_if_truthy_sum (total : Z) (n : option Z) :
  add_if_truthy total n = total + default 0 n.
Proof.
  destruct n as [k|]; cbn; [|lia].
  destruct (k =? 0) eqn:E; [apply Z.eqb_eq in E; lia|reflexivity].
Qed.

Lemma summary_loop_sums (lines : list string) (fs : list FileChange) (ta td : Z) :
  summary_loop lines (fs, ta, td)
  = (fs ++ summary_entries lines,
     ta + sum_counts additions (summary_entries lines),
     td + sum_counts deletions (summary_entries lines)).
Proof.
  revert fs ta td. induction lines as [|line rest IH]; intros fs ta td;
    cbn [summary_loop summary_entries].
  - rewrite List.app_nil_r. cbn. f_equal; [f_equal|]; lia.
  - destruct (parse_compact_summary_line line) as [fc|]; [|apply IH].
    rewrite IH, !add_if_truthy_sum, <- List.app_assoc.
    cbn. f_equal; [f_equal|]; lia.
Qed.

(** X14. A summary that [git_diff_compact_summary] returns is labelled with
    A and B, or with A's parent ([A^]) and A when endpoint B is unset or
    empty; the tool was asked for the compact summary of exactly the two
    labels and exited with status 0. The entries are those of the lines of
    its output that have a [|], in their order; the file count is their
    number, and the two totals are the sums of the additions and of the
    deletions of the entries, an unset count taken as 0. *)
Theorem summary_totals (run : string -> list string -> Completed)
    (repo a : string) (b : option string) (sm : GitDiffSummary) :
  git_diff_compact_summary run repo a b = Ok sm ->
  total_files_changed sm = Z.of_nat (length (summary_files sm))
  /\ total_additions sm = sum_counts additions (summary_files sm)
  /\ total_deletions sm = sum_counts deletions (summary_files sm)
  /\ (let proc := run repo ["git"; "diff"; "--compact-summary";
                            commit_a sm; commit_b sm] in
      returncode proc = 0
      /\ summary_files sm
         = summary_entries (Str.split (String "010" "") (stdout proc)))
  /\ (if truthy_opt b then commit_a sm = a /\ Some (commit_b sm) = b
      else commit_a sm = a +:+ "^" /\ commit_b sm = a).
Proof.
  unfold git_diff_compact_summary.
  set (labels := match b with
                 | Some b0 => if Str.truthy b0 then (a, b0) else (a +:+ "^", a)
                 | None => (a +:+ "^", a)
                 end).
  assert (if truthy_opt b then fst labels = a /\ Some (snd labels) = b
          else fst labels = a +:+ "^" /\ snd labels = a) as Hl.
  { subst labels. destruct b as [b0|]; cbn; [|auto].
    destruct (Str.truthy b0); cbn; auto. }
  destruct labels as [ca cb]. cbn [fst snd] in Hl.
  unfold communicate.
  destruct (returncode (run repo ["git"; "diff"; "--compact-summary"; ca; cb])
            =? 0) eqn:Erc; cbn [negb rbind]; [|discriminate].
  rewrite summary_loop_sums.
  cbn [app]. intros [= <-]. cbn.
  split; [reflexivity|]. split; [lia|]. split; [lia|].
  split; [|exact Hl]. split; [apply Z.eqb_eq, Erc|reflexivity].
Qed.

(** ** The session engine, continued *)

Section EngineMore.

Variable run : string -> list string -> Completed.
Variable datetime : Type.
Variable fromisoformat : string -> result datetime.

Local Abbreviation handle := (handle_client_msg run datetime fromisoformat).

(** *** The send queue *)

Lemma pushes_weaken {A} (n n' : nat) (m : M datetime A) :
  (n <= n')%nat -> pushes n m -> pushes n' m.
Proof.
  intros Hn Hm s. destruct (Hm s) as (evs & E & Hl). exists evs. split; [exact E|lia].
Qed.

Lemma pushes_ret {A} (a : A) : pushes 0 (ret datetime a).
Proof. intros s. exists []. cbn. rewrite List.app_nil_r. auto. Qed.

Lemma pushes_lift {A} (r : result A) : pushes 0 (lift datetime r).
Proof. intros s. exists []. cbn. rewrite List.app_nil_r. auto. Qed.

Lemma pushes_update f : pushes 0 (update datetime f).
Proof. intros s. exists []. cbn. rewrite List.app_nil_r. auto. Qed.

Lemma pushes_ev_set : pushes 0 (ev_set datetime).
Proof. intros s. exists []. cbn. rewrite List.app_nil_r. auto. Qed.

Lemma pushes_ev_clear : pushes 0 (ev_clear datetime).
Proof. intros s. exists []. cbn. rewrite List.app_nil_r. auto. Qed.

Lemma pushes_get_state : pushes 0 (get_state datetime).
Proof. intros s. exists []. cbn. rewrite List.app_nil_r. auto. Qed.

Lemma pushes_put msg : pushes 1 (put datetime msg).
Proof. intros s. exists [msg]. cbn. auto. Qed.

Lemma pushes_bind {A B} (n1 n2 : nat) (m : M datetime A) (k : A -> M datetime B) :
  pushes n1 m -> (forall a, pushes n2 (k a)) -> pushes (n1 + n2) (bind datetime m k).
Proof.
  intros Hm Hk s. unfold bind. destruct (Hm s) as (evs1 & E1 & Hl1).
  destruct (m s) as [s1 [a|e]]; cbn [fst snd] in *.
  - destruct (Hk a s1) as (evs2 & E2 & Hl2). exists (evs1 ++ evs2).
    rewrite E2, E1, <- List.app_assoc, List.length_app. split; [reflexivity|lia].
  - exists evs1. split; [exact E1|lia].
Qed.

Lemma pushes_if {A} (n : nat) (b : bool) (m1 m2 : M datetime A) :
  pushes n m1 -> pushes n m2 -> pushes n (if b then m1 else m2).
Proof. destruct b; auto. Qed.

Local Ltac pushes_step :=
  first
    [ apply pushes_ret | apply pushes_lift | apply pushes_update
    | apply pushes_ev_set | apply pushes_ev_clear | apply pushes_get_state
    | apply pushes_put ].

Lemma send_diff_pushes paths st : pushes 1 (send_diff run datetime paths st).
Proof.
  unfold send_diff. repeat apply pushes_if;
    try (apply (pushes_bind 0 1); [pushes_step|intros ?; pushes_step]).
  apply (pushes_weaken 0); [lia|pushes_step].
Qed.

Lemma send_diff_summary_pushes st :
  pushes 1 (send_diff_summary run datetime st).
Proof.
  unfold send_diff_summary. repeat apply pushes_if;
    try (apply (pushes_bind 0 1); [pushes_step|intros ?; pushes_step]).
  apply (pushes_weaken 0); [lia|pushes_step].
Qed.

Lemma send_repo_data_pushes r b :
  pushes 4 (send_repo_data run datetime fromisoformat r b).
Proof.
  unfold send_repo_data.
  apply (pushes_bind 0 4); [pushes_step|intros ?].
  apply (pushes_bind 0 4); [pushes_step|intros ?].
  apply (pushes_bind 0 4); [pushes_step|intros ?].
  apply (pushes_bind 1 3); [pushes_step|intros ?].
  apply (pushes_bind 1 2); [pushes_step|intros ?].
  apply (pushes_bind 1 1); [pushes_step|intros ?]. pushes_step.
Qed.

Lemma handle_pushes msg : pushes 4 (handle msg).
Proof.
  destruct msg; cbn [handle_client_msg];
    try (apply (pushes_weaken 0); [lia|]; solve
           [ pushes_step
           | apply (pushes_bind 0 0); [pushes_step|intros ?; pushes_step]
           | apply (pushes_bind 0 0); [pushes_step|intros ?];
             apply pushes_if;
             [apply (pushes_bind 0 0); [pushes_step|intros ?; pushes_step]
             |pushes_step]
           | apply (pushes_bind 0 0); [pushes_step|intros ?];
             apply (pushes_bind 0 0); [|intros ?; pushes_step];
             apply pushes_if; pushes_step ]).
  - (* repo-select *)
    apply (pushes_bind 0 4); [pushes_step|intros ?].
    apply pushes_if; [|apply (pushes_weaken 0); [lia|pushes_step]].
    apply (pushes_bind 0 4); [pushes_step|intros ?].
    apply (pushes_bind 0 4); [pushes_step|intros ?].
    apply (pushes_bind 0 4); [pushes_step|intros ?].
    apply (pushes_bind 0 4); [pushes_step|intros ?].
    apply (pushes_bind 0 4); [pushes_step|intros ?].
    apply (pushes_bind 4 0); [apply send_repo_data_pushes|intros ?; pushes_step].
  - (* branch-select *)
    apply (pushes_bind 0 4); [pushes_step|intros ?].
    apply pushes_if; [|apply (pushes_weaken 0); [lia|pushes_step]].
    apply (pushes_bind 0 4); [pushes_step|intros ?].
    apply (pushes_bind 4 0); [|intros ?; pushes_step].
    apply (pushes_weaken 1); [lia|]. apply pushes_if.
    + apply (pushes_bind 0 1); [pushes_step|intros ?; pushes_step].
    + apply (pushes_weaken 0); [lia|pushes_step].
  - (* get-diff *)
    apply (pushes_bind 0 4); [pushes_step|intros ?].
    apply (pushes_weaken 1); [lia|apply send_diff_pushes].
Qed.

Lemma handle_state_changes_pushes state_prev :
  pushes 3 (handle_state_changes run datetime state_prev).
Proof.
  unfold handle_state_changes.
  apply (pushes_bind 1 2); [pushes_step|intros ?].
  apply (pushes_bind 0 2); [pushes_step|intros st].
  apply (pushes_bind 2 0); [|intros ?; pushes_step].
  apply pushes_if.
  - apply (pushes_bind 1 1); [apply send_diff_summary_pushes|intros ?].
    destruct (open_paths st); [apply (pushes_weaken 0); [lia|pushes_step]|].
    apply send_diff_pushes.
  - apply (pushes_weaken 1); [lia|]. apply pushes_if; [apply send_diff_pushes|].
    apply (pushes_weaken 0); [lia|pushes_step].
Qed.

(** X15. Neither a command nor a pass of the change watcher removes or
    reorders what is in the send queue: a command appends at most four
    events, a pass of the watcher at most three, also when they raise. *)
Theorem send_queue_only_grows (msg : Msg datetime) (state_prev : SessionState)
    (s : Session datetime) :
  (exists evs, q_tx (fst (handle msg s)) = q_tx s ++ evs /\ (length evs <= 4)%nat)
  /\ (exists evs,
        q_tx (fst (handle_state_changes run datetime state_prev s))
        = q_tx s ++ evs /\ (length evs <= 3)%nat).
Proof.
  split; [apply handle_pushes|apply handle_state_changes_pushes].
Qed.

(** *** Commands that only edit the state *)


Lemma signals_bind_ev_set {A} (m : M datetime A) :
  signals (bind datetime m (fun _ => ev_set datetime)).
Proof.
  intros s a. unfold bind. destruct (m s) as [s' [x|e]]; cbn; [auto|discriminate].
Qed.

Lemma signals_ev_set : signals (ev_set datetime).
Proof. intros s a _. reflexivity. Qed.

Lemma signals_bind {A B} (m : M datetime A) (k : A -> M datetime B) :
  (forall a, signals (k a)) -> signals (bind datetime m k).
Proof.
  intros Hk s b. unfold bind. destruct (m s) as [s' [a|e]]; cbn [fst snd].
  - apply Hk.
  - discriminate.
Qed.

Lemma bind_eq {A B} (m : M datetime A) (k : A -> M datetime B)
    (s : Session datetime) :
  bind datetime m k s =
  match m s with
  | (s', Ok a) => k a s'
  | (s', Raise e) => (s', Raise e)
  end.
Proof. reflexivity. Qed.

Lemma bind_update {B} f (k : unit -> M datetime B) (s : Session datetime) :
  bind datetime (update datetime f) k s
  = k tt (mkSession (f (state s)) (q_tx s) (ev_state_change s)).
Proof. reflexivity. Qed.

Lemma bind_lift_ok {A B} (a : A) (k : A -> M datetime B) (s : Session datetime) :
  bind datetime (lift datetime (Ok a)) k s = k a s.
Proof. reflexivity. Qed.

Lemma bind_lift_raise {A B} (e : exn) (k : A -> M datetime B)
    (s : Session datetime) :
  bind datetime (lift datetime (Raise e)) k s = (s, Raise e).
Proof. reflexivity. Qed.

Lemma bind_put {B} msg (k : unit -> M datetime B) (s : Session datetime) :
  bind datetime (put datetime msg) k s
  = k tt (mkSession (state s) (q_tx s ++ [msg]) (ev_state_change s)).
Proof. reflexivity. Qed.

Lemma bind_get_state {B} (k : SessionState -> M datetime B)
    (s : Session datetime) :
  bind datetime (get_state datetime) k s = k (state s) s.
Proof. reflexivity. Qed.

(** X17. A command that returns and has changed the session state has set
    the change event. *)
Theorem change_is_signalled (msg : Msg datetime) (s : Session datetime) :
  snd (handle msg s) = Ok tt ->
  state (fst (handle msg s)) = state s
  \/ ev_state_change (fst (handle msg s)) = true.
Proof.
  assert (forall (m : M datetime unit) s0,
            signals m -> snd (m s0) = Ok tt ->
            state (fst (m s0)) = state s0 \/ ev_state_change (fst (m s0)) = true)
    as Hsig.
  { intros m s0 Hm Hok. right. exact (Hm s0 tt Hok). }
  destruct msg; cbn [handle_client_msg];
    try (intros _; left; reflexivity);
    try (apply Hsig; apply signals_bind_ev_set).
  - (* repo-select *)
    rewrite !bind_get_state.
    destruct (negb (opt_eqb (repo (state s)) (Some repo0))); [|auto].
    apply Hsig. repeat (apply signals_bind; intros ?). apply signals_ev_set.
  - (* branch-select *)
    rewrite !bind_get_state.
    destruct (negb (opt_eqb (branch (state s)) (Some branch0))); [|auto].
    apply Hsig. apply signals_bind; intros ?. apply signals_bind_ev_set.
  - (* get-diff *)
    intros _. left. rewrite !bind_get_state.
    apply (send_diff_keeps run datetime (fun st => st = state s) paths (state s) s).
    reflexivity.
  - (* close-path *)
    rewrite !bind_get_state.
    destruct (mem path0 (open_paths (state s))); [|auto].
    apply Hsig. apply signals_bind_ev_set.
  - (* context-dec *)
    rewrite !bind_get_state.
    destruct (0 <? context_lines (git_flags (state s))); [|auto].
    apply Hsig. apply signals_bind_ev_set.
  - (* context-reset *)
    rewrite !bind_get_state.
    destruct (negb (context_lines (git_flags (state s)) =? 3)); [|auto].
    apply Hsig. apply signals_bind_ev_set.
Qed.

(** X18. Swapping the endpoints twice gives back the session state. *)
Theorem swap_commits_twice (s : Session datetime) :
  state (fst (handle MsgSwapCommits (fst (handle MsgSwapCommits s)))) = state s
  /\ st_commit_a (state (fst (handle MsgSwapCommits s))) = st_commit_b (state s)
  /\ st_commit_b (state (fst (handle MsgSwapCommits s))) = st_commit_a (state s).
Proof. destruct s as [[r b ca cb ps fl] q ev]. repeat split. Qed.

(** *** Selecting a repository *)

Lemma first_current_is_current (bs : list GitBranch) (b : GitBranch) :
  first_current bs = Some b -> is_current b = true /\ b ∈ bs.
Proof.
  induction bs as [|x bs IH]; cbn; [discriminate|].
  destruct (is_current x) eqn:E.
  - intros [= <-]. split; [exact E|apply elem_of_cons; auto].
  - intros H. destruct (IH H). split; [assumption|apply elem_of_cons; auto].
Qed.

Lemma get_current_branch_current (r : string) (b : GitBranch) :
  get_current_branch run r = Ok b ->
  is_current b = true
  /\ exists bs, get_list_of_branches run r = Ok bs /\ b ∈ bs.
Proof.
  unfold get_current_branch.
  destruct (get_list_of_branches run r) as [bs|e]; cbn; [|discriminate].
  destruct (first_current bs) as [x|] eqn:E; [|discriminate].
  intros [= <-]. apply first_current_is_current in E as [H1 H2]. eauto.
Qed.

Lemma send_repo_data_effect (r : string) (b : option string)
    (s : Session datetime) :
  send_repo_data run datetime fromisoformat r b s =
  match get_list_of_branches run r with
  | Raise e => (s, Raise e)
  | Ok branches =>
  match get_list_of_tags run r with
  | Raise e => (s, Raise e)
  | Ok tags =>
  match get_git_log run datetime fromisoformat r b 25 with
  | Raise e => (s, Raise e)
  | Ok commits =>
      (mkSession (state s)
         (q_tx s ++ [MsgBranches branches; MsgTags (take 50 tags);
                     MsgCommits commits; MsgSessionState])
         (ev_state_change s), Ok tt)
  end end end.
Proof.
  unfold send_repo_data, bind, lift, put.
  destruct (get_list_of_branches run r); [|reflexivity].
  destruct (get_list_of_tags run r); [|reflexivity].
  destruct (get_git_log run datetime fromisoformat r b 25); [|reflexivity].
  cbn. rewrite <- !List.app_assoc. reflexivity.
Qed.

(** X19. Selecting the repository that is already selected does nothing at
    all. Selecting another one clears both endpoints and sets the
    repository whether or not the command succeeds, and leaves the expanded
    paths and the view options as they were. When it returns, the branch is
    the name of a branch that the listing marks as current, exactly four
    events were appended (branches, at most 50 tags, commits, session-state
    echo, in this order) and the change is signalled. When it raises,
    nothing was appended and no change is signalled. *)
Theorem repo_select_effect (r : string) (s : Session datetime) :
  let res := handle (MsgRepoSelect r) s in
  if opt_eqb (repo (state s)) (Some r) then res = (s, Ok tt)
  else
    repo (state (fst res)) = Some r
    /\ st_commit_a (state (fst res)) = None
    /\ st_commit_b (state (fst res)) = None
    /\ open_paths (state (fst res)) = open_paths (state s)
    /\ git_flags (state (fst res)) = git_flags (state s)
    /\ match snd res with
       | Ok _ =>
           ev_state_change (fst res) = true
           /\ exists b branches tags commits,
                get_current_branch run r = Ok b /\ is_current b = true
                /\ branch (state (fst res)) = Some (name b)
                /\ get_list_of_tags run r = Ok tags
                /\ q_tx (fst res)
                   = q_tx s ++ [MsgBranches branches; MsgTags (take 50 tags);
                                MsgCommits commits; MsgSessionState]
       | Raise _ =>
           q_tx (fst res) = q_tx s
           /\ ev_state_change (fst res) = ev_state_change s
       end.
Proof.
  intros res. subst res. cbn [handle_client_msg]. rewrite !bind_get_state.
  destruct (opt_eqb (repo (state s)) (Some r)); cbn [negb]; [reflexivity|].
  rewrite !bind_update. cbn [state q_tx ev_state_change].
  destruct (get_current_branch run r) as [b|e] eqn:Eb.
  2: { rewrite !bind_lift_raise. cbn. repeat split; reflexivity. }
  rewrite !bind_lift_ok, !bind_update, !bind_eq, !send_repo_data_effect.
  cbn [state q_tx ev_state_change].
  destruct (get_list_of_branches run r) as [bs|e];
    [|cbn; repeat split; reflexivity].
  destruct (get_list_of_tags run r) as [tags|e] eqn:Et;
    [|cbn; repeat split; reflexivity].
  destruct (get_git_log run datetime fromisoformat r None 25) as [cs|e];
    [|cbn; repeat split; reflexivity].
  cbn. repeat split.
  exists b, bs, tags, cs.
  destruct (get_current_branch_current r b Eb) as [Hc _]. auto 10.
Qed.

(** *** The change watcher, continued *)

Lemma send_diff_summary_effect (st : SessionState) (s : Session datetime) :
  send_diff_summary run datetime st s =
  if truthy_opt (repo st) && truthy_opt (st_commit_a st) then
    match git_diff_compact_summary run (the (repo st)) (the (st_commit_a st))
            (if truthy_opt (st_commit_b st) then st_commit_b st else None) with
    | Ok diff =>
        (mkSession (state s) (q_tx s ++ [MsgDiffSummary diff])
           (ev_state_change s), Ok tt)
    | Raise e => (s, Raise e)
    end
  else (s, Ok tt).
Proof.
  unfold send_diff_summary.
  destruct (truthy_opt (repo st) && truthy_opt (st_commit_a st)) eqn:E1;
    destruct (truthy_opt (st_commit_b st)) eqn:E2; cbn [andb];
    unfold bind, lift, put, ret;
    repeat match goal with
           | |- context [match ?r with Ok _ => _ | Raise _ => _ end] =>
               destruct r
           end; reflexivity.
Qed.

Lemma quiet_weaken {A} (n n' : nat) (m : M datetime A) :
  (n <= n')%nat -> quiet n m -> quiet n' m.
Proof.
  intros Hn Hm s. destruct (Hm s) as (evs & E & Hl & Hr). exists evs.
  split; [exact E|]. split; [lia|exact Hr].
Qed.

Lemma quiet_ret {A} (a : A) : quiet 0 (ret datetime a).
Proof.
  intros s. exists []. cbn. rewrite List.app_nil_r.
  split; [destruct s; reflexivity|]. split; [lia|apply Forall_nil_2].
Qed.

Lemma quiet_if {A} (n : nat) (b : bool) (m1 m2 : M datetime A) :
  quiet n m1 -> quiet n m2 -> quiet n (if b then m1 else m2).
Proof. destruct b; auto. Qed.

Lemma quiet_bind {A B} (n1 n2 : nat) (m : M datetime A) (k : A -> M datetime B) :
  quiet n1 m -> (forall a, quiet n2 (k a)) -> quiet (n1 + n2) (bind datetime m k).
Proof.
  intros Hm Hk s. rewrite bind_eq. destruct (Hm s) as (evs1 & E1 & Hl1 & Hr1).
  destruct (m s) as [s1 [a|e]]; cbn [fst snd] in *.
  - destruct (Hk a s1) as (evs2 & E2 & Hl2 & Hr2). exists (evs1 ++ evs2).
    rewrite E2, E1. cbn [state q_tx ev_state_change].
    rewrite <- List.app_assoc, List.length_app.
    split; [reflexivity|]. split; [lia|apply Forall_app; auto].
  - exists evs1. split; [exact E1|]. split; [lia|exact Hr1].
Qed.

Lemma quiet_send_diff paths st : quiet 1 (send_diff run datetime paths st).
Proof.
  intros s. rewrite send_diff_effect.
  destruct (truthy_opt (repo st) && truthy_opt (st_commit_a st));
    [destruct (if truthy_opt (st_commit_b st) then _ else _) as [d|e]|];
    cbn [fst].
  - eexists. split; [reflexivity|]. split; [cbn; lia|].
    apply Forall_cons_2; [reflexivity|apply Forall_nil_2].
  - apply (quiet_weaken 0 1 (ret datetime tt)); [lia|apply quiet_ret].
  - apply (quiet_weaken 0 1 (ret datetime tt)); [lia|apply quiet_ret].
Qed.

Lemma quiet_send_diff_summary st :
  quiet 1 (send_diff_summary run datetime st).
Proof.
  intros s. rewrite send_diff_summary_effect.
  destruct (truthy_opt (repo st) && truthy_opt (st_commit_a st));
    [destruct (git_diff_compact_summary run _ _ _) as [d|e]|]; cbn [fst].
  - eexists. split; [reflexivity|]. split; [cbn; lia|].
    apply Forall_cons_2; [reflexivity|apply Forall_nil_2].
  - apply (quiet_weaken 0 1 (ret datetime tt)); [lia|apply quiet_ret].
  - apply (quiet_weaken 0 1 (ret datetime tt)); [lia|apply quiet_ret].
Qed.

(** X20. A pass of the change watcher never writes to the session state. It
    appends the session-state echo first and after it at most two events,
    which are change summaries or diffs. When it returns the change event
    is cleared; when it raises the event is left as it was. *)
Theorem watcher_pass_shape (state_prev : SessionState) (s : Session datetime) :
  let res := handle_state_changes run datetime state_prev s in
  state (fst res) = state s
  /\ (exists evs,
        q_tx (fst res) = q_tx s ++ MsgSessionState :: evs
        /\ (length evs <= 2)%nat
        /\ Forall (fun ev => is_result_event ev = true) evs)
  /\ match snd res with
     | Ok _ => ev_state_change (fst res) = false
     | Raise _ => ev_state_change (fst res) = ev_state_change s
     end.
Proof.
  intros res. subst res. unfold handle_state_changes.
  rewrite bind_put, bind_get_state. cbn [state].
  match goal with
  | |- context [bind datetime ?m (fun _ => ev_clear datetime) ?s1] =>
      assert (quiet 2 m) as Hm; [|rewrite (bind_eq m); destruct (Hm s1)
                                    as (evs & E & Hl & Hr); destruct (m s1)
                                    as [s2 [x|e]]]
  end.
  - apply quiet_if.
    + apply (quiet_bind 1 1); [apply quiet_send_diff_summary|intros _].
      destruct (open_paths (state s));
        [apply (quiet_weaken 0); [lia|apply quiet_ret]|apply quiet_send_diff].
    + apply (quiet_weaken 1); [lia|].
      apply quiet_if; [apply quiet_send_diff|].
      apply (quiet_weaken 0); [lia|apply quiet_ret].
  - cbn [fst] in E. subst s2. cbn. split; [reflexivity|]. split; [|reflexivity].
    exists evs. rewrite <- List.app_assoc. auto.
  - cbn [fst] in E. subst s2. cbn. split; [reflexivity|]. split; [|reflexivity].
    exists evs. rewrite <- List.app_assoc. auto.
Qed.

(** *** Diff requests *)

Lemma app_one_ne {A} (l : list A) (x : A) : l <> l ++ [x].
Proof.
  intros H. apply (f_equal length) in H. rewrite List.length_app in H.
  cbn in H. lia.
Qed.

(** X21. A get-diff command with an empty path list asks the tool for the
    same diff as a get-diff command without a path list, that of the whole
    change: the two push the same diff, the one flagged partial and the
    other not, or both push nothing. *)
Theorem get_diff_empty_path_list (s : Session datetime) (d : GitDiff) :
  snd (handle (MsgGetDiff (Some [])) s) = snd (handle (MsgGetDiff None) s)
  /\ (q_tx (fst (handle (MsgGetDiff (Some [])) s)) = q_tx s ++ [MsgDiff d true]
      <-> q_tx (fst (handle (MsgGetDiff None) s)) = q_tx s ++ [MsgDiff d false]).
Proof.
  cbn [handle_client_msg]. rewrite !bind_get_state, !send_diff_effect.
  change (get_git_diff run (the (repo (state s))) (the (st_commit_a (state s)))
            (the (st_commit_b (state s))) (git_flags (state s)) (Some []))
    with (get_git_diff run (the (repo (state s))) (the (st_commit_a (state s)))
            (the (st_commit_b (state s))) (git_flags (state s)) None).
  change (get_commit_diff run (the (repo (state s))) (the (st_commit_a (state s)))
            (git_flags (state s)) (Some []))
    with (get_commit_diff run (the (repo (state s))) (the (st_commit_a (state s)))
            (git_flags (state s)) None).
  destruct (truthy_opt (repo (state s)) && truthy_opt (st_commit_a (state s)));
    [destruct (if truthy_opt (st_commit_b (state s)) then _ else _) as [d0|e]|];
    cbn [fst snd q_tx]; (split; [reflexivity|]).
  - split; intros H; apply app_inv_head in H; injection H as ->; reflexivity.
  - split; intros H; exfalso; exact (app_one_ne _ _ H).
  - split; intros H; exfalso; exact (app_one_ne _ _ H).
Qed.

End EngineMore.

(** ** Repository discovery *)

Lemma mem_elem (x : string) (l : list string) : mem x l = true <-> x ∈ l.
Proof.
  unfold mem. induction l as [|y l IH]; cbn.
  - split; [discriminate|intros H; inversion H].
  - rewrite orb_true_iff, IH, String.eqb_eq, elem_of_cons. tauto.
Qed.

Lemma mem_not_elem (x : string) (l : list string) : mem x l = false <-> x ∉ l.
Proof.
  rewrite <- mem_elem. destruct (mem x l); split; intros H; try discriminate;
    try reflexivity; exfalso; apply H; reflexivity.
Qed.

Lemma Dir_nested_ind (P : Dir -> Prop) :
  (forall subdirs links,
     Forall (fun x => P (snd x)) subdirs -> P (mkDir subdirs links)) ->
  forall d, P d.
Proof.
  intros H. fix IH 1. intros [subdirs links]. apply H.
  induction subdirs as [|[n sub] rest IHrest].
  - apply Forall_nil_2.
  - apply Forall_cons_2; [apply IH|exact IHrest].
Qed.

(** X22. [find_git_repos] reports exactly the directories that have a
    [.git] among their directory names and are reached from the root through
    directories that have none: it never looks below a repository, and it
    never enters a symbolic link. *)
Theorem find_git_repos_found (root : string) (tree : Dir) (repo_path : string) :
  repo_path ∈ find_git_repos root tree <-> found_at root tree repo_path.
Proof.
  unfold find_git_repos. revert root repo_path.
  induction tree as [subdirs links IH] using Dir_nested_ind.
  intros dirpath q. cbn [walk_repos].
  destruct (mem ".git" (map fst subdirs ++ links)) eqn:Egit.
  - apply mem_elem in Egit. rewrite list_elem_of_singleton. split.
    + intros ->. apply found_here. exact Egit.
    + intros H. inversion H; subst; [reflexivity|]. contradiction.
  - apply mem_not_elem in Egit.
    assert (forall l,
              Forall (fun x => forall root repo_path,
                        repo_path ∈ walk_repos root (snd x)
                        <-> found_at root (snd x) repo_path) l ->
              q ∈ (fix below (l : list (string * Dir)) : list string :=
                     match l with
                     | [] => []
                     | (dirname, sub) :: rest =>
                         walk_repos (path_join dirpath dirname) sub ++ below rest
                     end) l
              <-> exists n sub, (n, sub) ∈ l
                    /\ found_at (path_join dirpath n) sub q) as Hbelow.
    { induction l as [|[n sub] rest IHl]; intros Hall.
      - split; [intros H; inversion H|].
        intros (n & sub & H & _). inversion H.
      - apply Forall_cons in Hall as [Hsub Hrest]. cbn [snd] in Hsub.
        rewrite elem_of_app, Hsub, (IHl Hrest). split.
        + intros [H|(n' & sub' & Hin & H)].
          * exists n, sub. split; [apply elem_of_cons; auto|exact H].
          * exists n', sub'. split; [apply elem_of_cons; auto|exact H].
        + intros (n' & sub' & Hin & H). apply elem_of_cons in Hin as [[= -> ->]|Hin];
            [left; exact H|right; eauto]. }
    rewrite (Hbelow subdirs IH). split.
    + intros (n & sub & Hin & H). eapply found_below; eauto.
    + intros H. inversion H; subst; [contradiction|eauto].
Qed.

(** ** The session engine: paths and branches *)

Section EnginePaths.

Variable run : string -> list string -> Completed.
Variable datetime : Type.
Variable fromisoformat : string -> result datetime.

Local Abbreviation handle := (handle_client_msg run datetime fromisoformat).

Lemma occurrences_remove_first (p q : string) (l : list string) :
  occurrences q (remove_first p l)
  = (occurrences q l
     - (if String.eqb q p && (0 <? occurrences p l)%nat then 1 else 0))%nat.
Proof.
  induction l as [|x l IH]; cbn [remove_first occurrences].
  - destruct (String.eqb q p && _); reflexivity.
  - destruct (String.eqb p x) eqn:Epx.
    + apply String.eqb_eq in Epx. subst x. cbn [Nat.add Nat.ltb Nat.leb].
      destruct (String.eqb q p) eqn:Eqp; cbn [andb]; lia.
    + cbn [occurrences Nat.add]. rewrite IH.
      destruct (String.eqb q p) eqn:Eqp; cbn [andb]; [|lia].
      apply String.eqb_eq in Eqp. subst q. rewrite Epx.
      destruct (0 <? occurrences p l)%nat eqn:E; [|lia].
      apply Nat.ltb_lt in E. lia.
Qed.

Lemma mem_occurrences (p : string) (l : list string) :
  mem p l = (0 <? occurrences p l)%nat.
Proof.
  unfold mem. induction l as [|x l IH]; cbn; [reflexivity|].
  rewrite IH. destruct (String.eqb p x); cbn; [reflexivity|].
  reflexivity.
Qed.

(** X23. The set-open-paths command stores its list as it comes,
    repetitions included, and a close-path command after it takes away one
    occurrence of its path, when there is one, and changes the number of
    occurrences of no other path. So a path that set-open-paths listed
    twice is still expanded after one close-path. *)
Theorem close_path_removes_one (paths : list string) (p q : string)
    (s : Session datetime) :
  let s1 := fst (handle (MsgSetOpenPaths paths) s) in
  let s2 := fst (handle (MsgClosePath p) s1) in
  open_paths (state s1) = paths
  /\ occurrences q (open_paths (state s2))
     = (occurrences q paths
        - (if String.eqb q p && (0 <? occurrences p paths)%nat then 1 else 0))%nat.
Proof.
  intros s1 s2. subst s2 s1. cbn [handle_client_msg].
  rewrite bind_update, bind_get_state.
  cbn [ev_set fst state open_paths with_open_paths].
  split; [reflexivity|].
  rewrite (mem_occurrences p paths).
  destruct (0 <? occurrences p paths)%nat eqn:E.
  - rewrite bind_update. cbn [ev_set fst state open_paths with_open_paths].
    rewrite occurrences_remove_first, E. reflexivity.
  - cbn [ret fst state open_paths with_open_paths]. rewrite andb_false_r.
    cbn [open_paths with_open_paths]. lia.
Qed.

(** X24. Selecting the branch that is already selected does nothing at all.
    Selecting another one sets the branch whether or not the command
    succeeds and touches nothing else of the state. With a repository
    selected it asks for the log of that branch: when that succeeds one
    commits event is appended and the change is signalled, when it raises
    nothing is appended and no change is signalled. Without a repository
    nothing is appended and the change is signalled. *)
Theorem branch_select_effect (b : string) (s : Session datetime) :
  let res := handle (MsgBranchSelect b) s in
  if opt_eqb (branch (state s)) (Some b) then res = (s, Ok tt)
  else
    state (fst res) = with_branch (Some b) (state s)
    /\ if truthy_opt (repo (state s)) then
         match get_git_log run datetime fromisoformat (the (repo (state s)))
                 (Some b) 25 with
         | Ok commits =>
             q_tx (fst res) = q_tx s ++ [MsgCommits commits]
             /\ ev_state_change (fst res) = true /\ snd res = Ok tt
         | Raise e =>
             q_tx (fst res) = q_tx s
             /\ ev_state_change (fst res) = ev_state_change s
             /\ snd res = Raise e
         end
       else
         q_tx (fst res) = q_tx s
         /\ ev_state_change (fst res) = true /\ snd res = Ok tt.
Proof.
  intros res. subst res. cbn [handle_client_msg]. rewrite !bind_get_state.
  destruct (opt_eqb (branch (state s)) (Some b)); cbn [negb]; [reflexivity|].
  rewrite !bind_update, !bind_eq.
  destruct (truthy_opt (repo (state s))).
  - rewrite !bind_eq. unfold lift.
    destruct (get_git_log run datetime fromisoformat (the (repo (state s)))
                (Some b) 25); cbn; auto.
  - cbn. auto.
Qed.

End EnginePaths.

(** ** Examples of the further properties *)

(** Three messages and a time-out with a chunk size of two. *)
Lemma send_loop_chunk_bounds_witness :
  let turns := [Got 1%nat; Got 2%nat; Got 3%nat; TimedOut] in
  1 <= 2
  /\ Z.of_nat (length (buffer (@send_loop_init nat))) < 2
  /\ snd (send_loop 2 send_loop_init turns) = [[1%nat; 2%nat]; [3%nat]]
  /\ Forall (fun b => (1 <= Z.of_nat (length b) <= 2))
       (snd (send_loop 2 send_loop_init turns)).
Proof.
  intros turns. split; [lia|]. split; [cbn; lia|]. split; [reflexivity|].
  apply (send_loop_chunk_bounds 2 send_loop_init turns); [lia|cbn; lia].
Defined.

(** Two messages fill a chunk of two; a third follows. *)
Lemma send_loop_first_chunk_witness :
  1 <= 2
  /\ Z.of_nat (length [1%nat; 2%nat]) = 2
  /\ send_loop 2 send_loop_init (map Got [1%nat; 2%nat] ++ [Got 3%nat])
     = (fst (send_loop 2 send_loop_init [Got 3%nat]),
        [1%nat; 2%nat] :: snd (send_loop 2 send_loop_init [Got 3%nat])).
Proof.
  split; [lia|]. split; [reflexivity|].
  apply (send_loop_first_chunk 2 [1%nat; 2%nat] [Got 3%nat]); [lia|reflexivity].
Defined.

(** Three idle waits, then one message, with the chunk size of the server. *)
Lemma send_loop_after_idle_witness :
  1 <= 100 /\ (0 < 3)%nat
  /\ send_loop 100 send_loop_init (replicate 3 TimedOut ++ [Got 7%nat])
     = (send_loop_init, [[7%nat]]).
Proof.
  split; [lia|]. split; [lia|].
  apply (send_loop_after_idle 100 3 7%nat); lia.
Defined.

(** The patch of two files. *)
Lemma hunk_numbers_from_header_witness :
  exists fs,
    parse_diff (patch_a +:+ patch_b) = Ok fs
    /\ Forall (fun f =>
         Forall (fun h =>
           parse_hunk_header (header h)
           = Ok (old_start h, old_count h, new_start h, new_count h)
           /\ 0 <= old_start h /\ 0 <= old_count h
           /\ 0 <= new_start h /\ 0 <= new_count h) (hunks f)) fs.
Proof.
  eexists. split; [vm_compute; reflexivity|].
  apply (hunk_numbers_from_header (patch_a +:+ patch_b)). vm_compute. reflexivity.
Defined.

Lemma hunk_content_lines_witness :
  exists fs,
    parse_diff (patch_a +:+ patch_b) = Ok fs
    /\ Forall (fun f =>
         (change_type f = "modified" \/ change_type f = "added"
          \/ change_type f = "deleted")
         /\ Forall (fun h =>
              Forall (fun line => is_content_line line = true) (content h))
              (hunks f)) fs.
Proof.
  eexists. split; [vm_compute; reflexivity|].
  apply (hunk_content_lines (patch_a +:+ patch_b)). vm_compute. reflexivity.
Defined.

Lemma one_file_per_header_line_witness :
  exists fs,
    parse_diff (patch_a +:+ patch_b) = Ok fs
    /\ Z.of_nat (length fs) = 2
    /\ Z.of_nat (length fs)
       = count_lines (fun l => Str.startswith l "diff --git")
           (Str.splitlines (patch_a +:+ patch_b)).
Proof.
  eexists. split; [vm_compute; reflexivity|]. split; [reflexivity|].
  apply (one_file_per_header_line (patch_a +:+ patch_b)). vm_compute. reflexivity.
Defined.

(** The header that [git show] prints before the patch, when it is not
    suppressed. *)
Lemma preamble_is_ignored_witness :
  let pre := ["commit abc1234"; "Author: A U Thor"; ""; "    subject"] in
  let line := "diff --git a/a.txt b/a.txt" in
  let rest := ["--- a/a.txt"; "+++ b/a.txt"; "@@ -1 +1 @@"; "-old"; "+new"] in
  Forall (fun l => Str.startswith l "diff --git" = false) pre
  /\ Str.startswith line "diff --git" = true
  /\ parse_diff_lines (pre ++ line :: rest) = parse_diff_lines (line :: rest).
Proof.
  intros pre line rest.
  assert (Forall (fun l => Str.startswith l "diff --git" = false) pre) as Hpre.
  { repeat (apply Forall_cons_2; [reflexivity|]). apply Forall_nil_2. }
  split; [exact Hpre|]. split; [reflexivity|].
  destruct (diff_loop diff_parse_init pre) as [st|e] eqn:E;
    [|vm_compute in E; discriminate].
  apply (preamble_is_ignored pre line rest st Hpre eq_refl E).
Defined.

(** The line of a modified file. *)
Lemma summary_line_counts_witness :
  exists fc lft rgt,
    parse_compact_summary_line " file.txt | 10 +++++-----" = Some fc
    /\ Str.split_once "|" (Str.strip " file.txt | 10 +++++-----") = Some (lft, rgt)
    /\ additions fc = Some 5 /\ deletions fc = Some 5.
Proof.
  destruct (parse_compact_summary_line " file.txt | 10 +++++-----") as [fc|] eqn:E;
    [|vm_compute in E; discriminate].
  destruct (summary_line_counts " file.txt | 10 +++++-----" fc E)
    as (lft & rgt & Hs & _).
  exists fc, lft, rgt. split; [reflexivity|]. split; [exact Hs|].
  vm_compute in E. injection E as <-. split; reflexivity.
Defined.

(** The summary of two files between two endpoints. *)
Lemma summary_totals_witness :
  exists sm,
    git_diff_compact_summary git_two_summaries "/srv/repo" "abc1234"
      (Some "def5678") = Ok sm
    /\ total_files_changed sm = 2
    /\ total_additions sm = sum_counts additions (summary_files sm)
    /\ total_deletions sm = sum_counts deletions (summary_files sm).
Proof.
  eexists. split; [vm_compute; reflexivity|]. split; [reflexivity|].
  pose proof (summary_totals git_two_summaries "/srv/repo" "abc1234"
                (Some "def5678") _ eq_refl) as (_ & Ha & Hd & _).
  split; [exact Ha|exact Hd].
Defined.


(** Raising the context line count in the initial session. *)
Lemma change_is_signalled_witness :
  let res := handle_client_msg git_silent string iso_text MsgContextInc
               (session_init string) in
  snd res = Ok tt
  /\ (state (fst res) = state (session_init string)
      \/ ev_state_change (fst res) = true).
Proof.
  intros res. split; [reflexivity|].
  apply (change_is_signalled git_silent string iso_text MsgContextInc
           (session_init string)).
  reflexivity.
Defined.
